(** * pj-creator: the template resolution and composition engine

    A shallow embedding of [src/index.ts] (the revision that knows
    [files.copyFrom]) and the properties of its directory selection,
    configuration cascade, prompt merge, file-set resolution and rendering.

    Conventions.
    - Paths, prompt names and glob patterns are Rocq [string]s.
    - File contents and prompt answers are JavaScript strings: sequences of
      UTF-16 code units, here [list N], because the placeholder regular
      expression is defined on code units.
    - A JavaScript [Map] is an association list that keeps insertion order.
    - The file system, the glob library and the UTF-8 decoder are the
      environment: a record of oracles ([Env]).
    - The user is a script of answers consumed one prompt at a time. *)

From Stdlib Require Import List String Ascii NArith Arith Bool Lia.
From Stdlib Require Strings.Byte.
Import ListNotations.

Local Open Scope string_scope.
Local Open Scope list_scope.

(* ================================================================== *)
(** * Strings *)

Module Str.

(** [s.startsWith(p)] *)
Definition startsWith (s p : string) : bool := String.prefix p s.

(** The characters of [s] from index [n] on. *)
Fixpoint drop (n : nat) (s : string) : string :=
  match n, s with
  | O, _ => s
  | S _, EmptyString => EmptyString
  | S n', String _ s' => drop n' s'
  end.

(** [s.endsWith(p)] *)
Definition endsWith (s p : string) : bool :=
  (String.length p <=? String.length s)%nat
  && String.eqb (drop (String.length s - String.length p) s) p.

(** [s.replace(pat, rep)] for a string pattern: only the first occurrence
    is replaced.  ([rep] is used literally: the source only ever passes the
    empty string.) *)
Fixpoint replaceFirst (pat rep s : string) : string :=
  if String.prefix pat s then (rep ++ drop (String.length pat) s)%string
  else match s with
       | EmptyString => EmptyString
       | String c s' => String c (replaceFirst pat rep s')
       end.

(** [s.split("/")] *)
Fixpoint splitSlash (s : string) : list string :=
  match s with
  | EmptyString => [EmptyString]
  | String c s' =>
      if Ascii.eqb c "/" then EmptyString :: splitSlash s'
      else match splitSlash s' with
           | [] => [String c EmptyString]
           | h :: t => String c h :: t
           end
  end.

End Str.

(* ================================================================== *)
(** * [node:path], POSIX flavour *)

Module Path.

(** One segment of [normalizeString]: the stack holds the segments kept so
    far, innermost first. *)
Definition pushSegment (allowAboveRoot : bool) (stack : list string)
           (seg : string) : list string :=
  if String.eqb seg EmptyString then stack
  else if String.eqb seg "." then stack
  else if String.eqb seg ".." then
    match stack with
    | top :: rest =>
        if String.eqb top ".."
        then (if allowAboveRoot then ".." :: stack else stack)
        else rest
    | [] => if allowAboveRoot then [".."] else []
    end
  else seg :: stack.

(** The segments of [p] pushed in turn on a stack. *)
Definition normalizeFrom (allowAboveRoot : bool) (stack : list string)
           (p : string) : list string :=
  fold_left (pushSegment allowAboveRoot) (Str.splitSlash p) stack.

Definition normalizeSegments (allowAboveRoot : bool) (p : string)
  : list string :=
  rev (normalizeFrom allowAboveRoot [] p).

Definition normalizeString (p : string) (allowAboveRoot : bool) : string :=
  String.concat "/" (normalizeSegments allowAboveRoot p).

Definition isAbsolute (p : string) : bool := Str.startsWith p "/".

(** [path.normalize] *)
Definition normalize (p : string) : string :=
  if String.eqb p EmptyString then "."
  else
    let abs := isAbsolute p in
    let trailing := Str.endsWith p "/" in
    let q := normalizeString p (negb abs) in
    if String.eqb q EmptyString then
      (if abs then "/" else if trailing then "./" else ".")
    else
      let q' := if trailing then (q ++ "/")%string else q in
      if abs then ("/" ++ q')%string else q'.

(** [path.join(...args)] *)
Definition join (args : list string) : string :=
  match filter (fun a => negb (String.eqb a EmptyString)) args with
  | [] => "."
  | parts => normalize (String.concat "/" parts)
  end.

(** The right-to-left scan of [path.resolve]: [rargs] is the argument list
    reversed, [acc] the path assembled so far.  The working directory is
    consulted only when no argument is absolute. *)
Fixpoint resolveScan (cwd : string) (rargs : list string) (acc : string)
  : string * bool :=
  match rargs with
  | [] =>
      if String.eqb cwd EmptyString then (acc, false)
      else ((cwd ++ "/" ++ acc)%string, isAbsolute cwd)
  | p :: rest =>
      if String.eqb p EmptyString then resolveScan cwd rest acc
      else
        let acc' := (p ++ "/" ++ acc)%string in
        if isAbsolute p then (acc', true) else resolveScan cwd rest acc'
  end.

(** [path.resolve(...args)] in a process whose working directory is [cwd] *)
Definition resolve (cwd : string) (args : list string) : string :=
  let '(p, abs) := resolveScan cwd (rev args) EmptyString in
  let q := normalizeString p (negb abs) in
  if abs then ("/" ++ q)%string
  else if String.eqb q EmptyString then "." else q.

(** The absolute path made of the given segments. *)
Definition fromSegments (segs : list string) : string :=
  ("/" ++ String.concat "/" segs)%string.

Fixpoint slashFree (s : string) : bool :=
  match s with
  | EmptyString => true
  | String c s' => negb (Ascii.eqb c "/") && slashFree s'
  end.

(** A segment a normalized path is made of. *)
Definition properSegment (s : string) : Prop :=
  slashFree s = true /\ s <> EmptyString /\ s <> "." /\ s <> "..".

End Path.

(* ================================================================== *)
(** * JavaScript [Map] with string keys

    Iteration follows insertion order; [set] on a key that is present
    changes the value where it stands; [delete] removes the entry, so that a
    later [set] appends it at the end. *)

Module JsMap.
Section WithValue.
Context {V : Type}.

Definition t := list (string * V).

Definition empty : t := [].

Fixpoint get (k : string) (m : t) : option V :=
  match m with
  | [] => None
  | (k', v) :: m' => if String.eqb k' k then Some v else get k m'
  end.

Definition has (k : string) (m : t) : bool :=
  match get k m with Some _ => true | None => false end.

Fixpoint set (k : string) (v : V) (m : t) : t :=
  match m with
  | [] => [(k, v)]
  | (k', v') :: m' =>
      if String.eqb k' k then (k, v) :: m' else (k', v') :: set k v m'
  end.

Fixpoint delete (k : string) (m : t) : t :=
  match m with
  | [] => []
  | (k', v') :: m' =>
      if String.eqb k' k then m' else (k', v') :: delete k m'
  end.

Definition keys (m : t) : list string := map fst m.
Definition values (m : t) : list V := map snd m.
Definition size (m : t) : nat := List.length m.

(** [for (x of xs) m.set(key x, val x)] *)
Definition setAll {A : Type} (key : A -> string) (val : A -> V)
           (xs : list A) (m : t) : t :=
  fold_left (fun acc x => set (key x) (val x) acc) xs m.

(** [for (k of ks) m.delete(k)] *)
Definition deleteAll (ks : list string) (m : t) : t :=
  fold_left (fun acc k => delete k acc) ks m.

End WithValue.
Arguments t : clear implicits.
End JsMap.

(** A JavaScript [Set] of strings, used only through [add] and [has]. *)
Module JsSet.
Definition t := list string.
Definition empty : t := [].
Definition has (x : string) (s : t) : bool :=
  existsb (String.eqb x) s.
Definition add (x : string) (s : t) : t :=
  if has x s then s else s ++ [x].
End JsSet.

(* ================================================================== *)
(** * JavaScript strings and values *)

(** A JavaScript string: its UTF-16 code units. *)
Definition jsstring := list N.

Definition js (s : string) : jsstring :=
  map N_of_ascii (list_ascii_of_string s).

(** Back to a Rocq string; exact on code units below 256, which is all the
    placeholder key class lets through. *)
Definition stringOfJs (s : jsstring) : string :=
  string_of_list_ascii (map ascii_of_N s).

(** What a property read [data[key]] can yield on a PromptValues object: an
    own property (a string or a boolean, see [askPrompts]) or something
    inherited from [Object.prototype]. *)
Inductive JsValue :=
| VString (s : jsstring)
| VBool (b : bool)
| VNativeFunction (fname : string)
| VObjectPrototype.

(** The source text of a built-in function.  ECMAScript fixes the shape
    [function <name>() { [native code] }] and leaves the white space to the
    engine: this is the single line that JavaScriptCore, the engine of the
    Bun runtime named in the source's first line, prints today (older
    versions of it put [[native code]] on a line of its own).  Nothing
    below depends on the layout, only on the text not being empty. *)
Definition nativeFunctionSource (fname : string) : jsstring :=
  js "function " ++ js fname ++ js "() { [native code] }".

(** [String(value)] *)
Definition toJsString (v : JsValue) : jsstring :=
  match v with
  | VString s => s
  | VBool true => js "true"
  | VBool false => js "false"
  | VNativeFunction f => nativeFunctionSource f
  | VObjectPrototype => js "[object Object]"
  end.

(** The properties every object literal [{}] inherits from
    [Object.prototype]. *)
Definition objectPrototype : JsMap.t JsValue :=
  [ ("constructor", VNativeFunction "Object");
    ("__defineGetter__", VNativeFunction "__defineGetter__");
    ("__defineSetter__", VNativeFunction "__defineSetter__");
    ("hasOwnProperty", VNativeFunction "hasOwnProperty");
    ("__lookupGetter__", VNativeFunction "__lookupGetter__");
    ("__lookupSetter__", VNativeFunction "__lookupSetter__");
    ("isPrototypeOf", VNativeFunction "isPrototypeOf");
    ("propertyIsEnumerable", VNativeFunction "propertyIsEnumerable");
    ("toString", VNativeFunction "toString");
    ("valueOf", VNativeFunction "valueOf");
    ("__proto__", VObjectPrototype);
    ("toLocaleString", VNativeFunction "toLocaleString") ].

(** PromptValues: the own properties of the [values] object, in the order
    they were assigned. *)
Definition PromptValues := JsMap.t JsValue.

(** [data[key]]: the own property, else the inherited one, else
    [undefined] ([None]). *)
Definition getProperty (data : PromptValues) (key : string) : option JsValue :=
  match JsMap.get key data with
  | Some v => Some v
  | None => JsMap.get key objectPrototype
  end.

(** [data[key] = v] for a string or boolean [v]: assigning a primitive to
    [__proto__] runs the inherited setter, which ignores it. *)
Definition setProperty (key : string) (v : JsValue) (data : PromptValues)
  : PromptValues :=
  if String.eqb key "__proto__" then data else JsMap.set key v data.

(* ================================================================== *)
(** * Configuration records *)

(** The types below stand for [PromptConfig] and [CreatorConfig] of
    [src/types.ts].  That module is not among the sources of this revision;
    the records follow the configuration schema of the specification's
    section on external interfaces, and agree field for field with the
    declarations and the schema of the earlier revision of the module
    found at the end of [src/src/index.ts] (where the configuration type is
    spelled [CreaterConfig]). *)

(** Modelled from the spec: the [type] field of a prompt, one of [text],
    [select], [confirm]. *)
Inductive PromptType := TextPrompt | SelectPrompt | ConfirmPrompt.

(** Modelled from the spec: an option of a select prompt, a bare string or
    a record [{label, value, hint?}]. *)
Inductive PromptOption :=
| BareOption (labelAndValue : string)
| FullOption (label value : string) (hint : option string).

(** Modelled from the spec: one entry of [prompts]. *)
Record PromptConfig := mkPrompt {
  name : string;
  type : PromptType;
  message : string;
  initial : option jsstring;
  options : option (list PromptOption)
}.

(** Modelled from the spec: the [files] member. *)
Record FileRules := mkFiles {
  include : option (list string);
  exclude : option (list string);
  copyFrom : option (list string)
}.

(** Modelled from the spec: a validated [creator.json]. *)
Record CreatorConfig := mkConfig {
  configName : option string;
  description : option string;
  prompts : option (list PromptConfig);
  files : option FileRules
}.

(* ================================================================== *)
(** * The environment *)

Inductive FileKind := Directory | RegularFile | OtherKind.

Record Dirent := mkDirent { entryName : string; entryIsDirectory : bool }.

(** What reading, parsing and validating one [creator.json] gives. *)
Inductive ConfigFile :=
| ValidConfig (c : CreatorConfig)   (* [safeParse] succeeds *)
| InvalidConfig                     (* [safeParse] fails *)
| BrokenConfig (error : string).    (* [readFile] or [JSON.parse] throws *)

Record Env := mkEnv {
  (** [process.cwd()] *)
  cwd : string;
  (** [existsSync(p)] *)
  existsSync : string -> bool;
  (** [(await stat(p)).isDirectory()], for a path that exists *)
  statIsDirectory : string -> bool;
  (** [await lstat(p)]; [None] when it rejects *)
  lstat : string -> option FileKind;
  (** [await readdir(p, { withFileTypes: true })] *)
  readdir : string -> option (list Dirent);
  (** [await readFile(p)] *)
  readFile : string -> option (list Byte.byte);
  (** [safeParse(configSchema, JSON.parse(await readFile(p, "utf8")))] *)
  readConfig : string -> ConfigFile;
  (** [new Bun.Glob(pattern).scan({ cwd, dot: true })], in scan order *)
  globScan : string -> string -> list string;
  (** [buffer.toString("utf8")] *)
  utf8ToString : list Byte.byte -> jsstring
}.

(* ================================================================== *)
(** * Outcomes of a run *)

Inductive Outcome (A : Type) :=
| Done (a : A)
| Exit (code : nat)        (* [process.exit(code)] *)
| Throw (error : string)   (* a rejected promise *)
| NoAnswer                 (* a prompt the script has no answer for *)
| OutOfFuel.               (* the model's step bound was too small *)

Arguments Done {A} a.
Arguments Exit {A} code.
Arguments Throw {A} error.
Arguments NoAnswer {A}.
Arguments OutOfFuel {A}.

Definition bind {A B : Type} (x : Outcome A) (k : A -> Outcome B)
  : Outcome B :=
  match x with
  | Done a => k a
  | Exit c => Exit c
  | Throw e => Throw e
  | NoAnswer => NoAnswer
  | OutOfFuel => OutOfFuel
  end.

Declare Scope outcome_scope.
Delimit Scope outcome_scope with outcome.
Notation "x <- c1 ;; c2" := (bind c1 (fun x => c2))
  (at level 61, c1 at next level, right associativity) : outcome_scope.
Notation "' pat <- c1 ;; c2" :=
  (bind c1 (fun x => match x with pat => c2 end))
  (at level 61, pat pattern, c1 at next level, right associativity)
  : outcome_scope.
Local Open Scope outcome_scope.

(** [for (x of xs) acc = await f(acc, x)] *)
Fixpoint foldM {A S : Type} (f : S -> A -> Outcome S) (xs : list A) (s : S)
  : Outcome S :=
  match xs with
  | [] => Done s
  | x :: xs' => s' <- f s x ;; foldM f xs' s'
  end.

(** The user: the answers given to the successive prompts. *)
Inductive Answer :=
| Cancel                     (* the cancel symbol *)
| Pick (value : string)      (* a [select] *)
| Typed (text : jsstring)    (* a [text] *)
| Confirmed (yes : bool).    (* a [confirm] *)

Definition Script := list Answer.

(* ================================================================== *)
(** * The engine *)

Definition configFileName : string := "creator.json".

(** ** [isBinaryBuffer] *)

(** The [8000] of [Math.min(buffer.length, 8000)]. *)
Definition binaryScanLimit : nat := 80 * 100.

(** [for (i = 0; i < limit; i += 1) if (buffer[i] === 0) return true] *)
Fixpoint scanForZero (limit : nat) (buffer : list Byte.byte) : bool :=
  match limit, buffer with
  | S limit', b :: rest =>
      if Byte.eqb b Byte.x00 then true else scanForZero limit' rest
  | _, _ => false
  end.

Definition isBinaryBuffer (buffer : list Byte.byte) : bool :=
  scanForZero (Nat.min (List.length buffer) binaryScanLimit) buffer.

(** ** [isSubPath] *)

Definition backslash : string := String (ascii_of_nat 92) EmptyString.

Definition isSubPath (relPath segment : string) : bool :=
  String.eqb relPath segment
  || Str.startsWith relPath (segment ++ "/")%string
  || Str.startsWith relPath (segment ++ backslash)%string.

(** ** [buildDirTree] *)

#[warnings="-register-all"]
Inductive DirectoryNode := mkNode {
  nodeName : string;
  nodePath : string;
  children : JsMap.t DirectoryNode;
  hasConfig : bool
}.

(** The source fills the tree breadth first through a queue of nodes it
    mutates in place; the queue only fixes the order in which directories are
    listed.  The tree it leaves is the one built here: the children of a node
    are its non-hidden subdirectories, in [readdir] order.  [depth] bounds
    the nesting the model follows. *)
Fixpoint buildNode (env : Env) (depth : nat) (nm path : string)
  : Outcome DirectoryNode :=
  match depth with
  | O => OutOfFuel
  | S depth' =>
      match readdir env path with
      | None => Throw ("readdir: " ++ path)%string
      | Some entries =>
          kids <- foldM
                    (fun (acc : JsMap.t DirectoryNode) (entry : Dirent) =>
                       if entryIsDirectory entry
                          && negb (Str.startsWith (entryName entry) ".")
                       then
                         child <- buildNode env depth' (entryName entry)
                                    (Path.join [path; entryName entry]) ;;
                         Done (JsMap.set (entryName entry) child acc)
                       else Done acc)
                    entries JsMap.empty ;;
          Done (mkNode nm path kids
                       (existsSync env (Path.join [path; configFileName])))
      end
  end.

Definition buildDirTree (env : Env) (depth : nat) (rootPath : string)
  : Outcome DirectoryNode :=
  buildNode env depth "." rootPath.

(** ** [selectTemplateDir] *)

Definition selectMessage (pathStack : list string) : string :=
  match pathStack with
  | [] => "テンプレートを選択してください"
  | _ => (String (ascii_of_nat 34) (String.concat "/" pathStack)
          ++ String (ascii_of_nat 34) " の次を選択してください")%string
  end.

(** The script is threaded through: the result carries what is left of it. *)
Fixpoint selectTemplateDir (node : DirectoryNode) (pathStack : list string)
         (script : Script) : Outcome DirectoryNode * Script :=
  if negb (hasConfig node) then (Done node, script)
  else if (JsMap.size (children node) =? 0)%nat then (Done node, script)
  else
    match script with
    | [] => (NoAnswer, [])
    | Cancel :: rest => (Exit 0, rest)
    | Pick picked :: rest =>
        (fix get (m : JsMap.t DirectoryNode)
           : Outcome DirectoryNode * Script :=
           match m with
           | [] => (Exit 1, rest)
           | (k, child) :: m' =>
               if String.eqb k picked
               then selectTemplateDir child (pathStack ++ [picked]) rest
               else get m'
           end) (children node)
    | _ :: rest => (NoAnswer, rest)
    end.

(** ** [collectAllConfigs] *)

Record Collected := mkCollected {
  configs : list CreatorConfig;
  paths : list string;
  selectedDirConfig : option CreatorConfig
}.

Definition invalidConfigError (configPath : string) : string :=
  ("creator.json が不正です: " ++ configPath)%string.

(** [while (current && current !== rootPath && !visited.has(current))]:
    the walk from the selected directory up to the root.  [fuel] bounds the
    number of rounds; [None] reports that it did not suffice. *)
Fixpoint climb (env : Env) (fuel : nat) (rootPath current : string)
         (pathChain : list string) (visited : JsSet.t)
  : option (list string * JsSet.t) :=
  if negb (String.eqb current EmptyString)
     && negb (String.eqb current rootPath)
     && negb (JsSet.has current visited)
  then
    match fuel with
    | O => None
    | S fuel' =>
        climb env fuel' rootPath (Path.resolve (cwd env) [current; ".."])
              (current :: pathChain) (JsSet.add current visited)
    end
  else Some (pathChain, visited).

(** A bound on the rounds of [climb]: every round but the first drops a
    segment of an absolute path. *)
Definition climbFuel (env : Env) (start : string) : nat :=
  String.length (cwd env) + String.length start + 8.

(** The body of [for (const dirPath of pathChain)]. *)
Definition loadChainConfig (env : Env) (selectedPath : string)
           (acc : Collected) (dirPath : string) : Outcome Collected :=
  let configPath := Path.join [dirPath; configFileName] in
  if existsSync env configPath then
    match readConfig env configPath with
    | ValidConfig c =>
        Done (mkCollected
                (configs acc ++ [c]) (paths acc ++ [dirPath])
                (if String.eqb dirPath selectedPath then Some c
                 else selectedDirConfig acc))
    | InvalidConfig => Throw (invalidConfigError configPath)
    | BrokenConfig e => Throw e
    end
  else Done acc.

(** The body of [for (const copyPath of config.files.copyFrom)]; the state
    is the result so far with the two sets [visited] and
    [processedCopyFroms]. *)
Definition loadCopyFromConfig (env : Env) (selectedPath : string)
           (st : Collected * JsSet.t * JsSet.t) (copyPath : string)
  : Outcome (Collected * JsSet.t * JsSet.t) :=
  let '(acc, visited, processedCopyFroms) := st in
  let resolvedPath := Path.resolve (cwd env) [selectedPath; copyPath] in
  if negb (JsSet.has resolvedPath visited)
     && negb (JsSet.has resolvedPath processedCopyFroms)
     && existsSync env resolvedPath
  then
    let visited' := JsSet.add resolvedPath visited in
    let processed' := JsSet.add resolvedPath processedCopyFroms in
    let copyConfigPath := Path.join [resolvedPath; configFileName] in
    if existsSync env copyConfigPath then
      match readConfig env copyConfigPath with
      | ValidConfig c =>
          Done (mkCollected (configs acc ++ [c]) (paths acc ++ [resolvedPath])
                            (selectedDirConfig acc),
                visited', processed')
      | InvalidConfig => Throw (invalidConfigError copyConfigPath)
      | BrokenConfig e => Throw e
      end
    else Done (acc, visited', processed')
  else Done st.

(** [selectedDirConfig?.files?.copyFrom] *)
Definition copyFromOf (config : option CreatorConfig) : option (list string) :=
  match config with
  | Some c => match files c with
              | Some f => copyFrom f
              | None => None
              end
  | None => None
  end.

(** The queue [toProcess] holds the selected configuration when it declares
    [copyFrom], and nothing is ever pushed to it: its loop body runs once at
    most. *)
Definition collectAllConfigs (env : Env) (selectedDir : DirectoryNode)
           (rootPath : string) : Outcome Collected :=
  let selectedPath := nodePath selectedDir in
  match climb env (climbFuel env selectedPath) rootPath selectedPath
              [] JsSet.empty with
  | None => OutOfFuel
  | Some (chain, visited) =>
      let pathChain := rootPath :: chain in
      acc <- foldM (loadChainConfig env selectedPath) pathChain
                   (mkCollected [] [] None) ;;
      match copyFromOf (selectedDirConfig acc) with
      | Some copyPaths =>
          '(acc', _, _) <- foldM (loadCopyFromConfig env selectedPath)
                                 copyPaths (acc, visited, JsSet.empty) ;;
          Done acc'
      | None => Done acc
      end
  end.

(** ** [mergeConfigs] *)

Record Merged := mkMerged {
  mergedPrompts : list PromptConfig;
  mergedFiles : option FileRules
}.

(** [for (const prompt of config.prompts) promptMap.set(prompt.name, prompt)] *)
Definition addPrompts (promptMap : JsMap.t PromptConfig)
           (config : CreatorConfig) : JsMap.t PromptConfig :=
  match prompts config with
  | Some ps => JsMap.setAll name (fun p => p) ps promptMap
  | None => promptMap
  end.

Definition mergeConfigs (cfgs : list CreatorConfig)
           (selected : option CreatorConfig) : Merged :=
  let promptMap := fold_left addPrompts cfgs JsMap.empty in
  mkMerged (JsMap.values promptMap)
           (match selected with Some c => files c | None => None end).

(** ** [askPrompts] *)

Definition askPrompt (st : PromptValues * Script) (prompt : PromptConfig)
  : Outcome (PromptValues * Script) :=
  let '(values, script) := st in
  match script with
  | [] => NoAnswer
  | Cancel :: _ => Exit 0
  | answer :: rest =>
      match type prompt, answer with
      | TextPrompt, Typed s =>
          Done (setProperty (name prompt) (VString s) values, rest)
      | ConfirmPrompt, Confirmed b =>
          Done (setProperty (name prompt) (VBool b) values, rest)
      | SelectPrompt, Pick v =>
          Done (setProperty (name prompt) (VString (js v)) values, rest)
      | _, _ => NoAnswer
      end
  end.

Definition askPrompts (ps : list PromptConfig) (script : Script)
  : Outcome (PromptValues * Script) :=
  foldM askPrompt ps (JsMap.empty, script).

(** ** [renderTemplate]

    The regular expression [/<%=\s*([a-zA-Z0-9_.-]+)\s*%>/g].  White space,
    key characters and [%] are pairwise disjoint, so the greedy match needs
    no backtracking: at a given position there is at most one way to match. *)

(** [\s]: ECMAScript WhiteSpace and LineTerminator code units. *)
Definition isSpace (c : N) : bool :=
  ((9 <=? c) && (c <=? 13) || (c =? 32) || (c =? 160) || (c =? 5760)
   || (8192 <=? c) && (c <=? 8202) || (c =? 8232) || (c =? 8233)
   || (c =? 8239) || (c =? 8287) || (c =? 12288) || (c =? 65279))%N.

(** [[a-zA-Z0-9_.-]] *)
Definition isKeyChar (c : N) : bool :=
  ((97 <=? c) && (c <=? 122) || (65 <=? c) && (c <=? 90)
   || (48 <=? c) && (c <=? 57) || (c =? 95) || (c =? 46) || (c =? 45))%N.

Fixpoint stripPrefix (p s : jsstring) : option jsstring :=
  match p, s with
  | [], _ => Some s
  | a :: p', b :: s' => if (a =? b)%N then stripPrefix p' s' else None
  | _ :: _, [] => None
  end.

Fixpoint skipSpaces (s : jsstring) : jsstring :=
  match s with
  | c :: s' => if isSpace c then skipSpaces s' else s
  | [] => []
  end.

Fixpoint takeKey (s : jsstring) : jsstring * jsstring :=
  match s with
  | c :: s' =>
      if isKeyChar c then let '(k, r) := takeKey s' in (c :: k, r)
      else ([], s)
  | [] => ([], [])
  end.

(** One attempt to match the expression at the head of [s]: the captured key
    and what follows the match. *)
Definition matchPlaceholder (s : jsstring) : option (jsstring * jsstring) :=
  match stripPrefix (js "<%=") s with
  | None => None
  | Some s1 =>
      match takeKey (skipSpaces s1) with
      | ([], _) => None
      | (key, s2) =>
          match stripPrefix (js "%>") (skipSpaces s2) with
          | Some rest => Some (key, rest)
          | None => None
          end
      end
  end.

(** The replacer function. *)
Definition replacement (data : PromptValues) (key : jsstring) : jsstring :=
  match getProperty data (stringOfJs key) with
  | None => []
  | Some value => toJsString value
  end.

(** The global replace: leftmost matches, none overlapping; [fuel] bounds the
    positions visited. *)
Fixpoint replaceAll (fuel : nat) (content : jsstring) (data : PromptValues)
  : jsstring :=
  match fuel with
  | O => []
  | S fuel' =>
      match content with
      | [] => []
      | c :: content' =>
          match matchPlaceholder content with
          | Some (key, rest) =>
              replacement data key ++ replaceAll fuel' rest data
          | None => c :: replaceAll fuel' content' data
          end
      end
  end.

Definition renderTemplate (content : jsstring) (data : PromptValues)
  : jsstring :=
  replaceAll (List.length content) content data.

(** ** [collectFileList] *)

(** [files?.include ?? ["**/*"]] *)
Definition includeOf (rules : option FileRules) : list string :=
  match rules with
  | Some f => match include f with Some l => l | None => ["**/*"] end
  | None => ["**/*"]
  end.

(** [files?.exclude] when its length is not zero, else nothing to do *)
Definition excludeOf (rules : option FileRules) : list string :=
  match rules with
  | Some f => match exclude f with Some l => l | None => [] end
  | None => []
  end.

Definition copyFromDirsOf (rules : option FileRules) : list string :=
  match rules with
  | Some f => match copyFrom f with Some l => l | None => [] end
  | None => []
  end.

(** The include loops. *)
Definition includeStep (env : Env) (configDir : string)
           (fileMap : JsMap.t string) (pattern : string) : JsMap.t string :=
  JsMap.setAll (fun relPath => relPath)
               (fun relPath => Path.join [configDir; relPath])
               (globScan env pattern configDir) fileMap.

(** The exclude loops. *)
Definition excludeStep (env : Env) (configDir : string)
           (fileMap : JsMap.t string) (pattern : string) : JsMap.t string :=
  JsMap.deleteAll (globScan env pattern configDir) fileMap.

(** [resolve(sourcePath)] with the first [resolve(templateRoot) + "\\"]
    removed, then the first [resolve(templateRoot) + "/"]: two
    [String.prototype.replace] calls with the empty string. *)
Definition relFromRoot (env : Env) (templateRoot sourcePath : string)
  : string :=
  let root := Path.resolve (cwd env) [templateRoot] in
  Str.replaceFirst (root ++ "/")%string EmptyString
    (Str.replaceFirst (root ++ backslash)%string EmptyString
       (Path.resolve (cwd env) [sourcePath])).

(** [resolve(join(configDir, copyPath))] *)
Definition resolveCopyPath (env : Env) (configDir copyPath : string)
  : string :=
  Path.resolve (cwd env) [Path.join [configDir; copyPath]].

(** The entries one copy-from directory contributes, in scan order: nothing
    when it does not exist or is not a directory. *)
Definition copyFromEntries (env : Env) (templateRoot configDir : string)
           (copyPath : string) : list (string * string) :=
  let resolvedCopyPath := resolveCopyPath env configDir copyPath in
  if negb (existsSync env resolvedCopyPath) then []
  else if negb (statIsDirectory env resolvedCopyPath) then []
  else
    map (fun relPath =>
           let sourcePath := Path.join [resolvedCopyPath; relPath] in
           (relFromRoot env templateRoot sourcePath, sourcePath))
        (globScan env "**/*" resolvedCopyPath).

(** The copy-from loops. *)
Definition copyFromStep (env : Env) (templateRoot configDir : string)
           (fileMap : JsMap.t string) (copyPath : string) : JsMap.t string :=
  JsMap.setAll fst snd (copyFromEntries env templateRoot configDir copyPath)
               fileMap.

(** The three runs of loops, each over the map the one before left. *)
Definition includePhase (env : Env) (configDir : string)
           (patterns : list string) (fileMap : JsMap.t string)
  : JsMap.t string :=
  fold_left (includeStep env configDir) patterns fileMap.

Definition excludePhase (env : Env) (configDir : string)
           (patterns : list string) (fileMap : JsMap.t string)
  : JsMap.t string :=
  fold_left (excludeStep env configDir) patterns fileMap.

Definition copyFromPhase (env : Env) (templateRoot configDir : string)
           (copyPaths : list string) (fileMap : JsMap.t string)
  : JsMap.t string :=
  fold_left (copyFromStep env templateRoot configDir) copyPaths fileMap.

(** The result is the map itself: its entries [(targetPath, sourcePath)] in
    iteration order. *)
Definition collectFileList (env : Env) (templateRoot configDir : string)
           (rules : option FileRules) : JsMap.t string :=
  copyFromPhase env templateRoot configDir (copyFromDirsOf rules)
    (excludePhase env configDir (excludeOf rules)
       (includePhase env configDir (includeOf rules) JsMap.empty)).

(** ** [copyTemplate] *)

(** What the copier does to the output tree. *)
Inductive FsAction :=
| Mkdir (path : string)                              (* recursive *)
| WriteBytes (path : string) (data : list Byte.byte)
| WriteText (path : string) (text : jsstring).       (* encoded as UTF-8 *)

(** The two [continue] guards at the head of the loop body. *)
Definition skipped (targetPath : string) : bool :=
  isSubPath targetPath ".git" || Str.endsWith targetPath configFileName.

(** What is written for a regular file whose content is [buffer]. *)
Definition writeContent (env : Env) (fullTargetPath : string)
           (buffer : list Byte.byte) (data : PromptValues) : FsAction :=
  if isBinaryBuffer buffer then WriteBytes fullTargetPath buffer
  else WriteText fullTargetPath
                 (renderTemplate (utf8ToString env buffer) data).

(** One round of [for (const { sourcePath, targetPath } of fileList)]: what
    it does to the output tree and how it ends.  The directory of a regular
    file is made before the file is read, so it is there also when the read
    fails. *)
Definition copyEntry (env : Env) (outputRoot : string) (data : PromptValues)
           (entry : string * string) : list FsAction * Outcome unit :=
  let '(targetPath, sourcePath) := entry in
  if skipped targetPath then ([], Done tt)
  else
    match lstat env sourcePath with
    | None => ([], Throw ("lstat: " ++ sourcePath)%string)
    | Some kind =>
        let fullTargetPath := Path.join [outputRoot; targetPath] in
        match kind with
        | Directory => ([Mkdir fullTargetPath], Done tt)
        | OtherKind => ([], Done tt)
        | RegularFile =>
            let parent := Mkdir (Path.join [fullTargetPath; ".."]) in
            match readFile env sourcePath with
            | None => ([parent], Throw ("readFile: " ++ sourcePath)%string)
            | Some buffer =>
                ([parent; writeContent env fullTargetPath buffer data],
                 Done tt)
            end
        end
    end.

(** The actions carried out, and how the loop ended: what was written before
    a failure stays written. *)
Fixpoint copyEntries (env : Env) (outputRoot : string) (data : PromptValues)
         (fileList : list (string * string)) (done : list FsAction)
  : list FsAction * Outcome unit :=
  match fileList with
  | [] => (done, Done tt)
  | entry :: rest =>
      let '(actions, outcome) := copyEntry env outputRoot data entry in
      match outcome with
      | Done _ => copyEntries env outputRoot data rest (done ++ actions)
      | _ => (done ++ actions, outcome)
      end
  end.

Definition copyTemplate (env : Env) (templateRoot outputRoot : string)
           (data : PromptValues) (configDir : string)
           (rules : option FileRules) : list FsAction * Outcome unit :=
  copyEntries env outputRoot data
              (collectFileList env templateRoot configDir rules) [].

(** ** [main], from the template root on *)

(** The [template] subdirectory takes over as the root when it is there. *)
Definition effectiveTemplateRoot (env : Env) (templateRoot : string)
  : string :=
  let templateSubDir := Path.join [templateRoot; "template"] in
  if existsSync env templateSubDir then
    if statIsDirectory env templateSubDir then templateSubDir
    else templateRoot
  else templateRoot.

(** Carry on with [k] when [x] is a result; otherwise the run ends there
    with nothing written. *)
Definition andThen {A : Type} (x : Outcome A)
           (k : A -> list FsAction * Outcome unit)
  : list FsAction * Outcome unit :=
  match x with
  | Done a => k a
  | Exit c => ([], Exit c)
  | Throw e => ([], Throw e)
  | NoAnswer => ([], NoAnswer)
  | OutOfFuel => ([], OutOfFuel)
  end.

(** Everything [main] does once the root is settled: build the tree, select,
    collect, merge, ask, copy. *)
Definition scaffold (env : Env) (depth : nat) (script : Script)
           (templateRoot outputRoot : string)
  : list FsAction * Outcome unit :=
  andThen (buildDirTree env depth templateRoot) (fun dirTree =>
  let '(selection, script1) := selectTemplateDir dirTree [] script in
  andThen selection (fun selectedDir =>
  andThen (collectAllConfigs env selectedDir templateRoot) (fun collected =>
  let merged := mergeConfigs (configs collected)
                             (selectedDirConfig collected) in
  let asked := match mergedPrompts merged with
               | [] => Done (JsMap.empty, script1)
               | ps => askPrompts ps script1
               end in
  andThen asked (fun '(values, _) =>
  copyTemplate env templateRoot outputRoot values
               (nodePath selectedDir) (mergedFiles merged))))).

(** [main] after the template source has been resolved to [templateRoot]. *)
Definition mainFrom (env : Env) (depth : nat) (script : Script)
           (templateRoot outputRoot : string)
  : list FsAction * Outcome unit :=
  if negb (existsSync env templateRoot) then ([], Exit 1)
  else scaffold env depth script (effectiveTemplateRoot env templateRoot)
                outputRoot.

(* ================================================================== *)
(** * An in-memory environment

    A small disk on which the engine can be run: every absolute path that
    exists, with what it is, and the outcome of loading each [creator.json].
    Its glob understands [*] and [?] inside a segment and [**] for any run of
    segments, and (like [Bun.Glob.scan] by default) yields files only. *)

Module Disk.

Inductive Item :=
| Dir
| File (content : list Byte.byte)
| Link.

Record t := mk {
  items : list (string * Item);
  configFiles : list (string * CreatorConfig);
  workingDir : string
}.

Definition kindOf (i : Item) : FileKind :=
  match i with
  | Dir => Directory
  | File _ => RegularFile
  | Link => OtherKind
  end.

Definition isDir (i : Item) : bool :=
  match i with Dir => true | _ => false end.

(** [p] as a prefix of what lies below it. *)
Definition below (p : string) : string :=
  if String.eqb p "/" then "/" else (p ++ "/")%string.

(** The path of [q] relative to the directory [p], if [q] lies below. *)
Definition relativeTo (p q : string) : option string :=
  if Str.startsWith q (below p)
  then Some (Str.drop (String.length (below p)) q)
  else None.

Fixpoint wildMatch (p : string) : string -> bool :=
  match p with
  | EmptyString => fun s => String.eqb s EmptyString
  | String c p' =>
      if Ascii.eqb c "*" then
        fix star (s : string) : bool :=
          wildMatch p' s
          || match s with
             | EmptyString => false
             | String _ s' => star s'
             end
      else
        fun s =>
          match s with
          | String d s' =>
              (Ascii.eqb c d || Ascii.eqb c "?") && wildMatch p' s'
          | EmptyString => false
          end
  end.

Fixpoint globMatch (pat : list string) : list string -> bool :=
  match pat with
  | [] => fun segs => match segs with [] => true | _ :: _ => false end
  | p :: pat' =>
      if String.eqb p "**" then
        fix star (segs : list string) : bool :=
          globMatch pat' segs
          || match segs with
             | [] => false
             | _ :: segs' => star segs'
             end
      else
        fun segs =>
          match segs with
          | s :: segs' => wildMatch p s && globMatch pat' segs'
          | [] => false
          end
  end.

Definition scan (d : t) (pattern dir : string) : list string :=
  flat_map
    (fun entry : string * Item =>
       match snd entry, relativeTo dir (fst entry) with
       | File _, Some rel =>
           if globMatch (Str.splitSlash pattern) (Str.splitSlash rel)
           then [rel] else []
       | _, _ => []
       end)
    (items d).

Definition entries (d : t) (dir : string) : option (list Dirent) :=
  match JsMap.get dir (items d) with
  | Some Dir =>
      Some (flat_map
              (fun entry : string * Item =>
                 match relativeTo dir (fst entry) with
                 | Some rel =>
                     match Str.splitSlash rel with
                     | [nm] => [mkDirent nm (isDir (snd entry))]
                     | _ => []
                     end
                 | None => []
                 end)
              (items d))
  | _ => None
  end.

(** A decoder for ASCII files: a byte above 127 is shown as U+FFFD. *)
Definition decode (buffer : list Byte.byte) : jsstring :=
  map (fun b => let n := Byte.to_N b in
                if (n <? 128)%N then n else 65533%N) buffer.

Definition env (d : t) : Env :=
  mkEnv (workingDir d)
        (fun p => JsMap.has p (items d))
        (fun p => match JsMap.get p (items d) with
                  | Some Dir => true
                  | _ => false
                  end)
        (fun p => option_map kindOf (JsMap.get p (items d)))
        (entries d)
        (fun p => match JsMap.get p (items d) with
                  | Some (File content) => Some content
                  | _ => None
                  end)
        (fun p => match JsMap.get p (configFiles d) with
                  | Some c => ValidConfig c
                  | None => InvalidConfig
                  end)
        (scan d)
        decode.

(** The bytes of an ASCII text. *)
Definition bytes (s : string) : list Byte.byte :=
  map byte_of_ascii (list_ascii_of_string s).

End Disk.

(* ================================================================== *)
(** * The vocabulary of the specification *)

(** ** Prompt merge *)

(** Every prompt of the cascade, in cascade order. *)
Definition allPrompts (cfgs : list CreatorConfig) : list PromptConfig :=
  flat_map (fun c => match prompts c with Some ps => ps | None => [] end)
           cfgs.

(** The distinct names of a list, each at the place of its first
    occurrence. *)
Fixpoint firstOccurrences (names : list string) : list string :=
  match names with
  | [] => []
  | x :: rest =>
      x :: filter (fun y => negb (String.eqb y x)) (firstOccurrences rest)
  end.

(** The last prompt of a list that bears a given name. *)
Definition lastOccurrence (nm : string) (ps : list PromptConfig)
  : option PromptConfig :=
  find (fun p => String.eqb (name p) nm) (rev ps).

(** The prompt map after the prompts [ps] have been set in turn. *)
Definition promptMapOf (ps : list PromptConfig) : JsMap.t PromptConfig :=
  JsMap.setAll name (fun p => p) ps JsMap.empty.

(** ** File set *)

(** The map the copy-from loops build when they start from nothing. *)
Definition copyFromMap (env : Env) (templateRoot configDir : string)
           (rules : option FileRules) : JsMap.t string :=
  copyFromPhase env templateRoot configDir (copyFromDirsOf rules)
                JsMap.empty.

(** A key is copy-from-introduced when some copy-from directory contributes
    an entry under it. *)
Definition copyFromKey (env : Env) (templateRoot configDir : string)
           (rules : option FileRules) (key : string) : Prop :=
  exists copyPath,
    In copyPath (copyFromDirsOf rules)
    /\ In key (map fst (copyFromEntries env templateRoot configDir copyPath)).

(** The statement that an include pattern brings back what an exclude
    pattern removed. *)
Definition ReincludeRestores (env : Env) (templateRoot configDir : string)
           (rules : option FileRules) : Prop :=
  forall relPath excluding including,
    In excluding (excludeOf rules) ->
    In relPath (globScan env excluding configDir) ->
    In including (includeOf rules) ->
    In relPath (globScan env including configDir) ->
    JsMap.has relPath (collectFileList env templateRoot configDir rules)
    = true.



(** ** Skipped entries *)

(** A path is, or lies under, a [.git] directory at some depth. *)
Definition underGitAnywhere (targetPath : string) : bool :=
  existsb (String.eqb ".git") (Str.splitSlash targetPath).

(** The skip rule in the words of the specification. *)
Definition skippedAnyDepth (targetPath : string) : bool :=
  underGitAnywhere targetPath || Str.endsWith targetPath configFileName.

(** ** Placeholders *)

(** [s] begins with a placeholder that names [key] and is followed by
    [rest]: [<%=], white space, the key, white space, [%>]. *)
Definition placeholderAt (s key rest : jsstring) : Prop :=
  exists ws1 ws2,
    s = js "<%=" ++ ws1 ++ key ++ ws2 ++ js "%>" ++ rest
    /\ forallb isSpace ws1 = true
    /\ forallb isSpace ws2 = true
    /\ key <> []
    /\ forallb isKeyChar key = true.

(** What follows a key stops it: the end, or a unit outside the key class. *)
Definition stopsKey (t : jsstring) : Prop :=
  match t with
  | [] => True
  | c :: _ => isKeyChar c = false
  end.

(** Rendering, as a relation: placeholders are replaced from left to right,
    every other code unit is kept. *)
Inductive Renders (data : PromptValues) : jsstring -> jsstring -> Prop :=
| RendersEnd : Renders data [] []
| RendersPlaceholder s key rest out :
    placeholderAt s key rest ->
    Renders data rest out ->
    Renders data s (replacement data key ++ out)
| RendersUnit c s out :
    (forall key rest, ~ placeholderAt (c :: s) key rest) ->
    Renders data s out ->
    Renders data (c :: s) (c :: out).

(* ================================================================== *)
(** * Sample disks *)

Module Sample.

Definition text (s : string) : Disk.Item := Disk.File (Disk.bytes s).

(** ** A template root [/t] that borrows from a sibling [/shared] *)




(** ** A template [/r/t] under the root [/r], with a sibling [/r/shared],
       and a deeper template [/r/a/t] with a sibling [/r/a/shared] *)

Definition namePrompt : PromptConfig :=
  mkPrompt "name" TextPrompt "Project name" (Some (js "app")) None.

Definition rootConfig : CreatorConfig :=
  mkConfig None None (Some [namePrompt]) None.

Definition leafRules : FileRules :=
  mkFiles None (Some ["**/*.txt"]) (Some ["../shared"]).

Definition leafConfig : CreatorConfig :=
  mkConfig None None None (Some leafRules).

Definition nested : Disk.t :=
  Disk.mk [ ("/r", Disk.Dir);
            ("/r/creator.json", text "{}");
            ("/r/t", Disk.Dir);
            ("/r/t/creator.json", text "{}");
            ("/r/t/readme.txt", text "Hello <%= name %>");
            ("/r/t/shared", Disk.Dir);
            ("/r/t/shared/a.txt", text "own");
            ("/r/shared", Disk.Dir);
            ("/r/shared/a.txt", text "shared");
            ("/r/a", Disk.Dir);
            ("/r/a/creator.json", text "{}");
            ("/r/a/t", Disk.Dir);
            ("/r/a/t/creator.json", text "{}");
            ("/r/a/shared", Disk.Dir);
            ("/r/a/shared/a.txt", text "deep") ]
          [ ("/r/creator.json", rootConfig);
            ("/r/t/creator.json", leafConfig);
            ("/r/a/creator.json", mkConfig None None None None);
            ("/r/a/t/creator.json", leafConfig) ]
          "/home".

(** ** A template that excludes a file two include patterns match *)

Definition reincludeRules : FileRules :=
  mkFiles (Some ["**/*"; "a.txt"]) (Some ["a.txt"]) None.

Definition twoFiles : Disk.t :=
  Disk.mk [ ("/t", Disk.Dir);
            ("/t/a.txt", text "a");
            ("/t/b.txt", text "b") ]
          []
          "/home".

(** ** A template [/r/t] whose copy-from is the template root itself *)

Definition upRules : FileRules := mkFiles None None (Some [".."]).

Definition upConfig : CreatorConfig :=
  mkConfig None None None (Some upRules).

Definition borrowsRoot : Disk.t :=
  Disk.mk [ ("/r", Disk.Dir);
            ("/r/creator.json", text "{}");
            ("/r/t", Disk.Dir);
            ("/r/t/creator.json", text "{}") ]
          [ ("/r/creator.json", rootConfig);
            ("/r/t/creator.json", upConfig) ]
          "/home".

Definition selectedLeaf : DirectoryNode := mkNode "t" "/r/t" [] true.

(** ** A repository whose templates sit in a [template] subdirectory *)

Definition withTemplateDir : Disk.t :=
  Disk.mk [ ("/repo", Disk.Dir);
            ("/repo/README.md", text "about");
            ("/repo/template", Disk.Dir);
            ("/repo/template/index.txt", text "Hi <%= name %>") ]
          []
          "/home".

(** ** A tree to choose from *)

Definition menu : DirectoryNode :=
  mkNode "." "/r"
         [ ("web", mkNode "web" "/r/web"
                          [ ("src", mkNode "src" "/r/web/src" [] false) ]
                          false);
           ("cli", mkNode "cli" "/r/cli" [] true) ]
         true.

(** ** Buffers around the scan limit *)

Definition letterA : Byte.byte := Byte.x61.

(** A zero byte at index 7999: inside the scanned part. *)
Definition zeroInside : list Byte.byte :=
  repeat letterA (binaryScanLimit - 1) ++ [Byte.x00; letterA].

(** A zero byte and a stray continuation byte at indices 8000 and 8001:
    past the scanned part. *)
Definition zeroBeyond : list Byte.byte :=
  repeat letterA binaryScanLimit ++ [Byte.x00; Byte.x80].

Definition buffers : Disk.t :=
  Disk.mk [ ("/t", Disk.Dir);
            ("/t/bin.dat", Disk.File zeroInside);
            ("/t/text.txt", Disk.File zeroBeyond) ]
          []
          "/home".

(** ** A template with a [.git] directory below a subdirectory *)

Definition gitInside : Disk.t :=
  Disk.mk [ ("/t", Disk.Dir);
            ("/t/sub", Disk.Dir);
            ("/t/sub/.git", Disk.Dir);
            ("/t/sub/.git/x", text "ref") ]
          []
          "/home".

End Sample.

(* ================================================================== *)
(** * The front of [main]: arguments, template source, cached templates *)

(** ** [parseTemplateSource] *)

(** Modelled from the spec: [TemplateSource] of [src/types.ts], a local root
    or a repository reference with an optional path inside it. *)
Inductive TemplateSource :=
| LocalSource (root : string)
| GithubSource (repo : string) (path : option string).

(** The longest prefix without a slash, and what follows it. *)
Fixpoint spanNoSlash (s : string) : string * string :=
  match s with
  | EmptyString => (EmptyString, EmptyString)
  | String c s' =>
      if Ascii.eqb c "/" then (EmptyString, s)
      else let '(a, b) := spanNoSlash s' in (String c a, b)
  end.

(** What [.] of a regular expression refuses: a line terminator, that is
    LF, CR, U+2028 or U+2029 (in a string of UTF-8 bytes, [E2 80 A8] and
    [E2 80 A9]). *)
Fixpoint hasLineTerminator (s : string) : bool :=
  match s with
  | EmptyString => false
  | String c s' =>
      (Nat.eqb (nat_of_ascii c) 10) || (Nat.eqb (nat_of_ascii c) 13)
      || (Nat.eqb (nat_of_ascii c) 226
          && match s' with
             | String d (String e _) =>
                 Nat.eqb (nat_of_ascii d) 128
                 && (Nat.eqb (nat_of_ascii e) 168
                     || Nat.eqb (nat_of_ascii e) 169)
             | _ => false
             end)
      || hasLineTerminator s'
  end.

(** The match of [normalized] against the reference pattern: a group of
    characters other than a slash, a slash, a second such group and, if
    anything follows, a third group that starts with a slash and runs to the
    end without a line terminator.  The first two groups cannot hold a slash
    and must be followed by one, or by the end: there is one way to match at
    most. *)
Definition matchRepoRef (s : string)
  : option (string * string * option string) :=
  let '(owner, afterOwner) := spanNoSlash s in
  if String.eqb owner EmptyString then None
  else
    match afterOwner with
    | EmptyString => None
    | String _ afterSlash =>
        let '(repoName, tail) := spanNoSlash afterSlash in
        if String.eqb repoName EmptyString then None
        else
          match tail with
          | EmptyString => Some (owner, repoName, None)
          | String _ inner =>
              if hasLineTerminator inner then None
              else Some (owner, repoName, Some tail)
          end
    end.

Definition badTemplateError : string :=
  "テンプレート指定が不正です。例: gh:username/repo/path".

(** [raw.startsWith("gh:") ? raw.slice(3) : raw] *)
Definition stripGh (raw : string) : string :=
  if Str.startsWith raw "gh:" then Str.drop 3 raw else raw.

Definition parseTemplateSource (env : Env) (raw : string)
  : Outcome TemplateSource :=
  let resolved := Path.resolve (cwd env) [raw] in
  if existsSync env resolved then Done (LocalSource resolved)
  else
    match matchRepoRef (stripGh raw) with
    | None => Throw badTemplateError
    | Some (owner, repoName, sub) =>
        Done (GithubSource (owner ++ "/" ++ repoName)%string
                           (option_map (Str.drop 1) sub))
    end.

(** How a reference is written: [owner/name], then [/path] if any. *)
Definition writeRepoRef (owner repoName : string) (sub : option string)
  : string :=
  (owner ++ "/" ++ repoName
   ++ match sub with
      | Some p => "/" ++ p
      | None => EmptyString
      end)%string.

(** ** The cache directory of a repository, in [fetchRepo] *)

(** [repo.replace("/", "__")] *)
Definition cacheDirName (repo : string) : string :=
  Str.replaceFirst "/" "__" repo.

(** [source.path ? join(repoDir, source.path) : repoDir] *)
Definition templateRootIn (repoDir : string) (sub : option string)
  : string :=
  match sub with
  | Some p => if String.eqb p EmptyString then repoDir
              else Path.join [repoDir; p]
  | None => repoDir
  end.

(** ** [buildTemplateTree] *)

(** [path.split("__")]: the separator is looked for from the left, matches
    do not overlap. *)
Fixpoint splitUnderscores (s : string) : list string :=
  match s with
  | EmptyString => [EmptyString]
  | String c s' =>
      match s' with
      | String d s'' =>
          if Ascii.eqb c "_" && Ascii.eqb d "_"
          then EmptyString :: splitUnderscores s''
          else match splitUnderscores s' with
               | [] => [String c EmptyString]
               | h :: t => String c h :: t
               end
      | EmptyString => [String c EmptyString]
      end
  end.

(** [path.split("__").filter(Boolean)] *)
Definition cacheSegments (path : string) : list string :=
  filter (fun seg => negb (String.eqb seg EmptyString))
         (splitUnderscores path).

#[warnings="-register-all"]
Inductive TemplateNode := mkTemplateNode {
  templateName : string;
  templateChildren : JsMap.t TemplateNode;
  fullPath : option string
}.

(** A string or [null] taken as a condition. *)
Definition truthy (s : option string) : bool :=
  match s with
  | Some t => negb (String.eqb t EmptyString)
  | None => false
  end.

(** The inner loop of [buildTemplateTree], on the node [current]: the node
    of each segment is created when it is not there, with the whole path as
    its [fullPath] if the segment is the last one, and entered. *)
Fixpoint insertSegments (whole : string) (segments : list string)
         (current : TemplateNode) : TemplateNode :=
  match segments with
  | [] => current
  | segment :: rest =>
      let child :=
        match JsMap.get segment (templateChildren current) with
        | Some c => c
        | None =>
            mkTemplateNode segment JsMap.empty
                           (match rest with
                            | [] => Some whole
                            | _ :: _ => None
                            end)
        end in
      mkTemplateNode (templateName current)
                     (JsMap.set segment (insertSegments whole rest child)
                                (templateChildren current))
                     (fullPath current)
  end.

Definition insertTemplate (root : TemplateNode) (path : string)
  : TemplateNode :=
  let segments := cacheSegments path in
  insertSegments (String.concat "/" segments) segments root.

Definition buildTemplateTree (cachedPaths : list string) : TemplateNode :=
  fold_left insertTemplate cachedPaths
            (mkTemplateNode "root" JsMap.empty None).

(** ** [selectTemplate] *)

Definition missingNodeError : string :=
  "TypeError: undefined is not an object".

Fixpoint selectTemplate (node : TemplateNode) (currentPath : list string)
         (script : Script) : Outcome string * Script :=
  match script with
  | [] => (NoAnswer, [])
  | Cancel :: rest => (Exit 0, rest)
  | Pick picked :: rest =>
      (fix get (m : JsMap.t TemplateNode) : Outcome string * Script :=
         match m with
         | [] => (Throw missingNodeError, rest)
         | (k, selectedNode) :: m' =>
             if String.eqb k picked
             then
               match fullPath selectedNode with
               | Some p =>
                   if negb (String.eqb p EmptyString) then (Done p, rest)
                   else selectTemplate selectedNode
                                       (currentPath ++ [picked]) rest
               | None =>
                   selectTemplate selectedNode (currentPath ++ [picked]) rest
               end
             else get m'
         end) (templateChildren node)
  | _ :: rest => (NoAnswer, rest)
  end.

(** ** The arguments of [main] *)

Inductive Invocation :=
| Clean
| Run (templateArg outArg : option string) (update : bool).

(** [for (const arg of args)]: the positional arguments, [--update] left
    out. *)
Definition positionalArgs (args : list string) : list string :=
  filter (fun arg => negb (String.eqb arg "--update")) args.

Definition updateFlag (args : list string) : bool :=
  existsb (fun arg => String.eqb arg "--update") args.

Definition parseArgs (args : list string) : Invocation :=
  match args with
  | firstArg :: _ =>
      if String.eqb firstArg "clean" then Clean
      else Run (nth_error (positionalArgs args) 0)
               (nth_error (positionalArgs args) 1)
               (updateFlag args)
  | [] => Run None None false
  end.

(** ** [pickTemplateArg] *)

Definition manualOption : string := "__manual__".

(** The [text] prompt that asks for a template by hand.  [encode] gives the
    typed text as a path string. *)
Definition askTemplateText (encode : jsstring -> string) (script : Script)
  : Outcome string * Script :=
  match script with
  | [] => (NoAnswer, [])
  | Cancel :: rest => (Exit 0, rest)
  | Typed t :: rest => (Done (encode t), rest)
  | _ :: rest => (NoAnswer, rest)
  end.

(** The names of the directories of the cache root. *)
Definition cachedNames (entries : list Dirent) : list string :=
  map entryName (filter entryIsDirectory entries).

(** [cacheRoot] stands for [CACHE_ROOT], which [main] has created by then;
    [arg] is [None] for [undefined]. *)
Definition pickTemplateArg (env : Env) (cacheRoot : string)
           (encode : jsstring -> string) (arg : option string)
           (script : Script) : Outcome string * Script :=
  if truthy arg then
    (match arg with Some a => Done a | None => NoAnswer end, script)
  else
    match readdir env cacheRoot with
    | None => (Throw ("readdir: " ++ cacheRoot)%string, script)
    | Some entries =>
        let cached := cachedNames entries in
        if (List.length cached =? 0)%nat then askTemplateText encode script
        else
          let tree := buildTemplateTree cached in
          if (JsMap.size (templateChildren tree) =? 0)%nat
          then askTemplateText encode script
          else
            match script with
            | [] => (NoAnswer, [])
            | Cancel :: rest => (Exit 0, rest)
            | Pick firstPick :: rest =>
                if String.eqb firstPick manualOption
                then askTemplateText encode rest
                else
                  match JsMap.get firstPick (templateChildren tree) with
                  | None => (Throw missingNodeError, rest)
                  | Some selectedNode =>
                      if truthy (fullPath selectedNode)
                      then (match fullPath selectedNode with
                            | Some p => Done p
                            | None => NoAnswer
                            end, rest)
                      else selectTemplate selectedNode [firstPick] rest
                  end
            | _ :: rest => (NoAnswer, rest)
            end
    end.

(* ================================================================== *)
(** * More vocabulary *)

(** The body of the loop of [buildDirTree] over the entries of one
    directory, as [buildNode] has it. *)
Definition addChild (env : Env) (depth : nat) (path : string)
           (acc : JsMap.t DirectoryNode) (entry : Dirent)
  : Outcome (JsMap.t DirectoryNode) :=
  if entryIsDirectory entry && negb (Str.startsWith (entryName entry) ".")
  then
    bind (buildNode env depth (entryName entry)
                    (Path.join [path; entryName entry]))
         (fun child => Done (JsMap.set (entryName entry) child acc))
  else Done acc.

(** The node reached from [node] through the children of the given names. *)
Fixpoint walk (node : DirectoryNode) (picks : list string)
  : option DirectoryNode :=
  match picks with
  | [] => Some node
  | k :: rest =>
      match JsMap.get k (children node) with
      | Some child => walk child rest
      | None => None
      end
  end.

(** A tree that shows the disk: every node tells whether its directory owns
    a configuration file, and its children are subdirectories that
    [readdir] lists, none hidden, each named by its key and placed under the
    path of its parent. *)
#[warnings="-register-all"]
Inductive ShowsDisk (env : Env) : DirectoryNode -> Prop :=
| ShowsDiskNode nm path kids entries :
    readdir env path = Some entries ->
    (forall k child,
        In (k, child) kids ->
        In (mkDirent k true) entries
        /\ Str.startsWith k "." = false
        /\ nodeName child = k
        /\ nodePath child = Path.join [path; k]
        /\ ShowsDisk env child) ->
    (forall entry,
        In entry entries ->
        entryIsDirectory entry = true ->
        Str.startsWith (entryName entry) "." = false ->
        In (entryName entry) (JsMap.keys kids)) ->
    ShowsDisk env
      (mkNode nm path kids
              (existsSync env (Path.join [path; configFileName]))).

(** A disk that the loop of [buildDirTree] can get through from [path]: the
    directory can be listed, and so can the directories below it that are
    not hidden, which nest less than [levels] deep. *)
Fixpoint listable (env : Env) (levels : nat) (path : string) : bool :=
  match levels with
  | O => false
  | S levels' =>
      match readdir env path with
      | None => false
      | Some entries =>
          forallb
            (fun entry =>
               negb (entryIsDirectory entry
                     && negb (Str.startsWith (entryName entry) "."))
               || listable env levels'
                           (Path.join [path; entryName entry]))
            entries
      end
  end.

(** The directories from below [rootSegs] down to [rootSegs ++ extra], the
    highest first. *)
Definition ancestorPaths (rootSegs extra : list string) : list string :=
  map (fun k => Path.fromSegments (rootSegs ++ firstn k extra))
      (seq 1 (List.length extra)).

(** Whether a directory owns a configuration file. *)
Definition ownsConfig (env : Env) (dirPath : string) : bool :=
  existsSync env (Path.join [dirPath; configFileName]).

(** The [copyFrom] entries a configuration declares, none when it has no
    such member. *)
Definition declaredCopyFrom (config : option CreatorConfig) : list string :=
  match copyFromOf config with
  | Some copyPaths => copyPaths
  | None => []
  end.

(** The copy-from directories that own a place in the cascade, given the
    directories [chain] walked from the selected one upwards: the declared
    entries resolved against the selected directory, each at its first
    occurrence, that were not walked, exist and own a configuration file. *)
Definition borrowedPaths (env : Env) (selectedPath : string)
           (chain copyPaths : list string) : list string :=
  filter (fun p => negb (existsb (String.eqb p) chain)
                   && existsSync env p && ownsConfig env p)
         (firstOccurrences
            (map (fun copyPath =>
                    Path.resolve (cwd env) [selectedPath; copyPath])
                 copyPaths)).

(** A segment of a normalized path, decided for a piece without a slash. *)
Definition properSegmentb (s : string) : bool :=
  negb (String.eqb s EmptyString)
  && negb (String.eqb s ".") && negb (String.eqb s "..").

(** A relative path in normal form, as a glob scan yields them: segments
    separated by single slashes, none of them empty, [.] or [..]. *)
Definition relativeNormal (p : string) : bool :=
  forallb properSegmentb (Str.splitSlash p).

(** The literal code unit [<]. *)
Definition lessThan : N := 60%N.

(** The paths the copier writes or creates. *)
Definition actionPath (a : FsAction) : string :=
  match a with
  | Mkdir p => p
  | WriteBytes p _ => p
  | WriteText p _ => p
  end.

Definition isWrite (a : FsAction) : bool :=
  match a with
  | Mkdir _ => false
  | _ => true
  end.

Fixpoint underscoreFree (s : string) : bool :=
  match s with
  | EmptyString => true
  | String c s' => negb (Ascii.eqb c "_") && underscoreFree s'
  end.

(** A cached name made of an owner and a repository name. *)
Definition twoSegments (path : string) : Prop :=
  exists owner repoName, cacheSegments path = [owner; repoName].

(** A tree of cached templates in two levels: owners, none with a path of
    its own, and under each owner repositories with the path
    [owner/name]. *)
Definition TwoLevel (tree : TemplateNode) : Prop :=
  forall owner ownerNode,
    JsMap.get owner (templateChildren tree) = Some ownerNode ->
    fullPath ownerNode = None
    /\ forall repoName leaf,
         JsMap.get repoName (templateChildren ownerNode) = Some leaf ->
         fullPath leaf = Some (owner ++ "/" ++ repoName)%string.

(** The tree offers the repository [owner/name]. *)
Definition Offers (tree : TemplateNode) (owner repoName : string) : Prop :=
  exists ownerNode leaf,
    JsMap.get owner (templateChildren tree) = Some ownerNode
    /\ JsMap.get repoName (templateChildren ownerNode) = Some leaf.

(** Whether one of the patterns, scanned in [configDir], yields the path. *)
Definition matchedBy (env : Env) (configDir : string)
           (patterns : list string) (relPath : string) : bool :=
  existsb (fun pattern =>
             existsb (String.eqb relPath) (globScan env pattern configDir))
          patterns.

(* ================================================================== *)
(** * A sample cache *)

Module Cached.

Definition cacheRoot : string := "/home/u/.pj-creator/cache".

Definition disk : Disk.t :=
  Disk.mk [ ("/home/u/.pj-creator/cache", Disk.Dir);
            ("/home/u/.pj-creator/cache/octo__starter", Disk.Dir);
            ("/home/u/.pj-creator/cache/octo__web", Disk.Dir);
            ("/home/u/.pj-creator/cache/acme__api", Disk.Dir);
            ("/home/u/.pj-creator/cache/notes.txt", Sample.text "notes") ]
          []
          "/home/u".

Definition entries : list Dirent :=
  [ mkDirent "octo__starter" true;
    mkDirent "octo__web" true;
    mkDirent "acme__api" true;
    mkDirent "notes.txt" false ].

End Cached.

(* ================================================================== *)
(** * Facts about maps *)

Section MapFacts.
Context {V : Type}.
Implicit Types (m : JsMap.t V) (k : string) (v : V).

Lemma get_set_same m k v : JsMap.get k (JsMap.set k v m) = Some v.
Proof.
  induction m as [|[k' v'] m IH]; simpl.
  - now rewrite String.eqb_refl.
  - destruct (String.eqb k' k) eqn:E; simpl.
    + now rewrite String.eqb_refl.
    + now rewrite E.
Qed.

Lemma get_set_other m k k' v :
  k <> k' -> JsMap.get k (JsMap.set k' v m) = JsMap.get k m.
Proof.
  intros Hne. induction m as [|[k0 v0] m IH]; simpl.
  - destruct (String.eqb k' k) eqn:E; [|reflexivity].
    apply String.eqb_eq in E. congruence.
  - destruct (String.eqb k0 k') eqn:E; simpl.
    + apply String.eqb_eq in E. subst k0.
      destruct (String.eqb k' k) eqn:E'; [|reflexivity].
      apply String.eqb_eq in E'. congruence.
    + now rewrite IH.
Qed.

Lemma get_set m k k' v :
  JsMap.get k (JsMap.set k' v m)
  = if String.eqb k' k then Some v else JsMap.get k m.
Proof.
  destruct (String.eqb k' k) eqn:E.
  - apply String.eqb_eq in E. subst. apply get_set_same.
  - apply get_set_other. intros ->. now rewrite String.eqb_refl in E.
Qed.

Lemma get_none_notin m k :
  JsMap.get k m = None <-> ~ In k (JsMap.keys m).
Proof.
  induction m as [|[k' v'] m IH]; simpl.
  - tauto.
  - destruct (String.eqb k' k) eqn:E.
    + apply String.eqb_eq in E. split; [discriminate | tauto].
    + apply String.eqb_neq in E. tauto.
Qed.

Lemma get_some_in m k v :
  JsMap.get k m = Some v -> In (k, v) m.
Proof.
  induction m as [|[k' v'] m IH]; simpl; [discriminate|].
  destruct (String.eqb k' k) eqn:E.
  - apply String.eqb_eq in E. intros [= ->]. subst. now left.
  - auto.
Qed.

Lemma in_get_nodup m k v :
  NoDup (JsMap.keys m) -> In (k, v) m -> JsMap.get k m = Some v.
Proof.
  induction m as [|[k' v'] m IH]; simpl; [tauto|].
  intros Hnd [Heq | Hin].
  - injection Heq as -> ->. now rewrite String.eqb_refl.
  - inversion Hnd as [|? ? Hnotin Hnd']; subst.
    destruct (String.eqb k' k) eqn:E.
    + apply String.eqb_eq in E. subst k'.
      exfalso. apply Hnotin. change k with (fst (k, v)).
      now apply in_map.
    + auto.
Qed.

Lemma keys_set m k v :
  JsMap.keys (JsMap.set k v m)
  = if JsMap.has k m then JsMap.keys m else JsMap.keys m ++ [k].
Proof.
  unfold JsMap.has. induction m as [|[k' v'] m IH]; simpl; [reflexivity|].
  destruct (String.eqb k' k) eqn:E; simpl.
  - apply String.eqb_eq in E. now subst.
  - rewrite IH. now destruct (JsMap.get k m).
Qed.

Lemma has_true_in m k : JsMap.has k m = true <-> In k (JsMap.keys m).
Proof.
  unfold JsMap.has. pose proof (get_none_notin m k) as H.
  destruct (JsMap.get k m).
  - split; [intros _|reflexivity].
    destruct (in_dec string_dec k (JsMap.keys m)) as [Hin|Hout]; [easy|].
    apply H in Hout. discriminate.
  - split; [discriminate|]. intros Hin. now apply H in Hin.
Qed.

Lemma nodup_keys_set m k v :
  NoDup (JsMap.keys m) -> NoDup (JsMap.keys (JsMap.set k v m)).
Proof.
  intros Hnd. rewrite keys_set.
  destruct (JsMap.has k m) eqn:E; [assumption|].
  apply NoDup_app; [assumption | repeat constructor; simpl; tauto |].
  intros x Hx [<- | []].
  apply has_true_in in Hx. congruence.
Qed.

Lemma keys_delete_incl m k x :
  In x (JsMap.keys (JsMap.delete k m)) -> In x (JsMap.keys m).
Proof.
  induction m as [|[k' v'] m IH]; simpl; [tauto|].
  destruct (String.eqb k' k); simpl; tauto.
Qed.

Lemma nodup_keys_delete m k :
  NoDup (JsMap.keys m) -> NoDup (JsMap.keys (JsMap.delete k m)).
Proof.
  induction m as [|[k' v'] m IH]; simpl; [trivial|].
  intros Hnd. inversion Hnd as [|? ? Hnotin Hnd']; subst.
  destruct (String.eqb k' k); simpl; [assumption|].
  constructor; [|auto].
  intros Hin. apply Hnotin. eapply keys_delete_incl; eassumption.
Qed.

Lemma get_delete_same m k :
  NoDup (JsMap.keys m) -> JsMap.get k (JsMap.delete k m) = None.
Proof.
  induction m as [|[k' v'] m IH]; simpl; [trivial|].
  intros Hnd. inversion Hnd as [|? ? Hnotin Hnd']; subst.
  destruct (String.eqb k' k) eqn:E; simpl.
  - apply String.eqb_eq in E. subst. now apply get_none_notin.
  - rewrite E. auto.
Qed.

Lemma get_delete_other m k k' :
  k <> k' -> JsMap.get k (JsMap.delete k' m) = JsMap.get k m.
Proof.
  intros Hne. induction m as [|[k0 v0] m IH]; simpl; [trivial|].
  destruct (String.eqb k0 k') eqn:E; simpl.
  - apply String.eqb_eq in E. subst k0.
    destruct (String.eqb k' k) eqn:E'; [|reflexivity].
    apply String.eqb_eq in E'. congruence.
  - now rewrite IH.
Qed.

Lemma get_delete_none m k k' :
  JsMap.get k m = None -> JsMap.get k (JsMap.delete k' m) = None.
Proof.
  intros H. apply get_none_notin. intros Hin.
  apply keys_delete_incl in Hin. now apply get_none_notin in H.
Qed.

(** *** Runs of [set] and [delete] *)

Lemma setAll_snoc {A : Type} (key : A -> string) (val : A -> V)
      (xs : list A) (x : A) m :
  JsMap.setAll key val (xs ++ [x]) m
  = JsMap.set (key x) (val x) (JsMap.setAll key val xs m).
Proof. unfold JsMap.setAll. now rewrite fold_left_app. Qed.

Lemma nodup_keys_setAll {A : Type} (key : A -> string) (val : A -> V)
      (xs : list A) m :
  NoDup (JsMap.keys m) -> NoDup (JsMap.keys (JsMap.setAll key val xs m)).
Proof.
  unfold JsMap.setAll. revert m.
  induction xs as [|x xs IH]; simpl; intros m Hnd; [assumption|].
  apply IH. now apply nodup_keys_set.
Qed.

Lemma nodup_keys_deleteAll ks m :
  NoDup (JsMap.keys m) -> NoDup (JsMap.keys (JsMap.deleteAll ks m)).
Proof.
  unfold JsMap.deleteAll. revert m.
  induction ks as [|k ks IH]; simpl; intros m Hnd; [assumption|].
  apply IH. now apply nodup_keys_delete.
Qed.

Lemma get_setAll_notin {A : Type} (key : A -> string) (val : A -> V)
      (xs : list A) m k :
  ~ In k (map key xs) ->
  JsMap.get k (JsMap.setAll key val xs m) = JsMap.get k m.
Proof.
  unfold JsMap.setAll. revert m.
  induction xs as [|x xs IH]; simpl; intros m Hout; [reflexivity|].
  rewrite IH by tauto. apply get_set_other. intros ->. tauto.
Qed.

(** After a run of [set], a key that was set holds the value of one of
    the elements that set it. *)
Lemma get_setAll_in {A : Type} (key : A -> string) (val : A -> V)
      (xs : list A) m k :
  In k (map key xs) ->
  exists x, In x xs /\ key x = k
            /\ JsMap.get k (JsMap.setAll key val xs m) = Some (val x).
Proof.
  revert m. induction xs as [|x xs IH] using rev_ind; intros m Hin.
  - destruct Hin.
  - rewrite setAll_snoc, get_set.
    destruct (String.eqb (key x) k) eqn:E.
    + apply String.eqb_eq in E. exists x. rewrite in_app_iff. simpl. tauto.
    + rewrite map_app, in_app_iff in Hin. simpl in Hin.
      apply String.eqb_neq in E.
      destruct Hin as [Hin | [Heq | []]]; [|congruence].
      destruct (IH m Hin) as (y & Hy & Hk & Hget).
      exists y. rewrite in_app_iff. tauto.
Qed.

Lemma get_deleteAll_none ks m k :
  JsMap.get k m = None -> JsMap.get k (JsMap.deleteAll ks m) = None.
Proof.
  unfold JsMap.deleteAll. revert m.
  induction ks as [|k' ks IH]; simpl; intros m H; [assumption|].
  apply IH. now apply get_delete_none.
Qed.

Lemma get_deleteAll_in ks m k :
  NoDup (JsMap.keys m) -> In k ks ->
  JsMap.get k (JsMap.deleteAll ks m) = None.
Proof.
  unfold JsMap.deleteAll. revert m.
  induction ks as [|k' ks IH]; simpl; intros m Hnd Hin; [tauto|].
  destruct (string_dec k' k) as [-> | Hne].
  - apply (get_deleteAll_none ks). now apply get_delete_same.
  - apply IH; [now apply nodup_keys_delete | tauto].
Qed.

End MapFacts.

(* ================================================================== *)
(** * Facts about strings *)

Lemma string_length_append (a b : string) :
  String.length (a ++ b) = String.length a + String.length b.
Proof. induction a as [|c a IH]; simpl; [reflexivity | now rewrite IH]. Qed.

Lemma prefix_iff (p s : string) :
  String.prefix p s = true <-> exists r, s = (p ++ r)%string.
Proof.
  revert s. induction p as [|c p IH]; intros s; simpl.
  - split; [intros _; now exists s | intros _; now destruct s].
  - destruct s as [|d s]; simpl.
    + split; [discriminate | intros [r Hr]; discriminate].
    + destruct (ascii_dec c d) as [Heq | Hne].
      * rewrite IH. split; intros [r Hr]; exists r; congruence.
      * split; [discriminate | intros [r Hr]; congruence].
Qed.

Lemma drop_append (a b : string) : Str.drop (String.length a) (a ++ b) = b.
Proof. induction a as [|c a IH]; simpl; [now destruct b | exact IH]. Qed.

Lemma drop_split (n : nat) (s : string) :
  exists q, s = (q ++ Str.drop n s)%string.
Proof.
  revert s. induction n as [|n IH]; intros s.
  - now exists EmptyString.
  - destruct s as [|c s]; [now exists EmptyString|].
    destruct (IH s) as [q Hq]. exists (String c q). simpl. now rewrite <- Hq.
Qed.

Lemma endsWith_iff (s p : string) :
  Str.endsWith s p = true <-> exists q, s = (q ++ p)%string.
Proof.
  unfold Str.endsWith. rewrite andb_true_iff, Nat.leb_le, String.eqb_eq.
  split.
  - intros [_ Hdrop].
    destruct (drop_split (String.length s - String.length p) s) as [q Hq].
    exists q. now rewrite Hdrop in Hq.
  - intros [q ->]. rewrite string_length_append. split; [lia|].
    replace (String.length q + String.length p - String.length p)
      with (String.length q) by lia.
    apply drop_append.
Qed.

Lemma string_append_empty (s : string) : (s ++ EmptyString)%string = s.
Proof. induction s as [|c s IH]; simpl; [reflexivity | now rewrite IH]. Qed.

Lemma string_append_assoc (a b c : string) :
  ((a ++ b) ++ c)%string = (a ++ b ++ c)%string.
Proof. induction a as [|x a IH]; simpl; [reflexivity | now rewrite IH]. Qed.





(* ================================================================== *)
(** * Facts about paths *)

Section PathFacts.

Lemma splitSlash_nonempty (s : string) : Str.splitSlash s <> [].
Proof.
  destruct s as [|c s]; simpl; [discriminate|].
  destruct (Ascii.eqb c "/"); [discriminate|].
  destruct (Str.splitSlash s); discriminate.
Qed.

Lemma splitSlash_app (a b : string) :
  Str.splitSlash (a ++ String "/" b)
  = Str.splitSlash a ++ Str.splitSlash b.
Proof.
  induction a as [|c a IH]; simpl; [reflexivity|].
  destruct (Ascii.eqb c "/"); [now rewrite IH|].
  rewrite IH. pose proof (splitSlash_nonempty a) as Hne.
  now destruct (Str.splitSlash a).
Qed.

Lemma splitSlash_slashFree (s : string) :
  Path.slashFree s = true -> Str.splitSlash s = [s].
Proof.
  induction s as [|c s IH]; simpl; [reflexivity|].
  rewrite andb_true_iff, negb_true_iff. intros [-> Hs].
  now rewrite (IH Hs).
Qed.

Lemma splitSlash_pieces (s : string) :
  Forall (fun piece => Path.slashFree piece = true) (Str.splitSlash s).
Proof.
  induction s as [|c s IH]; simpl; [now repeat constructor|].
  destruct (Ascii.eqb c "/") eqn:E; [now constructor|].
  destruct (Str.splitSlash s) as [|h t];
    [now repeat constructor; simpl; rewrite E|].
  inversion IH; subst. constructor; [|assumption].
  simpl. now rewrite E.
Qed.

Lemma splitSlash_length (s : string) :
  List.length (Str.splitSlash s) <= S (String.length s).
Proof.
  induction s as [|c s IH]; simpl; [lia|].
  destruct (Ascii.eqb c "/"); simpl; [lia|].
  destruct (Str.splitSlash s); simpl in *; lia.
Qed.

(** Normalizing what stands before a slash, then what stands after. *)
Lemma normalizeFrom_app (allow : bool) (stack : list string) (a b : string) :
  Path.normalizeFrom allow stack (a ++ String "/" b)
  = Path.normalizeFrom allow (Path.normalizeFrom allow stack a) b.
Proof.
  unfold Path.normalizeFrom. now rewrite splitSlash_app, fold_left_app.
Qed.

Lemma normalizeFrom_empty (allow : bool) (stack : list string) :
  Path.normalizeFrom allow stack EmptyString = stack.
Proof. reflexivity. Qed.

Lemma pushSegment_proper (allow : bool) (stack : list string) (seg : string) :
  Path.properSegment seg -> Path.pushSegment allow stack seg = seg :: stack.
Proof.
  intros (_ & H1 & H2 & H3). unfold Path.pushSegment.
  apply String.eqb_neq in H1, H2, H3. now rewrite H1, H2, H3.
Qed.

Lemma normalizeFrom_proper (allow : bool) (stack : list string)
      (seg : string) :
  Path.properSegment seg -> Path.normalizeFrom allow stack seg = seg :: stack.
Proof.
  intros Hseg. unfold Path.normalizeFrom.
  rewrite splitSlash_slashFree by apply Hseg. simpl.
  now apply pushSegment_proper.
Qed.

(** The stack only ever holds proper segments, one more per piece at
    most. *)
Lemma pushSegment_keeps (stack : list string) (piece : string) :
  Forall Path.properSegment stack ->
  Path.slashFree piece = true ->
  Forall Path.properSegment (Path.pushSegment false stack piece)
  /\ List.length (Path.pushSegment false stack piece)
     <= S (List.length stack).
Proof.
  intros Hstack Hpiece. unfold Path.pushSegment.
  destruct (String.eqb piece EmptyString) eqn:E1; [split; [assumption|lia]|].
  destruct (String.eqb piece ".") eqn:E2; [split; [assumption|lia]|].
  destruct (String.eqb piece "..") eqn:E3.
  - destruct stack as [|top rest]; [split; [constructor | simpl; lia]|].
    destruct (String.eqb top ".."); [split; [assumption|lia]|].
    inversion Hstack; subst. split; [assumption | simpl; lia].
  - apply String.eqb_neq in E1, E2, E3.
    split; [|simpl; lia]. constructor; [|assumption].
    now repeat split.
Qed.

Lemma normalizeFrom_keeps (stack : list string) (p : string) :
  Forall Path.properSegment stack ->
  Forall Path.properSegment (Path.normalizeFrom false stack p)
  /\ List.length (Path.normalizeFrom false stack p)
     <= List.length stack + S (String.length p).
Proof.
  intros Hstack. unfold Path.normalizeFrom.
  pose proof (splitSlash_pieces p) as Hpieces.
  pose proof (splitSlash_length p) as Hlen.
  revert stack Hstack Hlen. generalize (S (String.length p)) as bound.
  induction Hpieces as [|piece pieces Hpiece _ IH];
    intros bound stack Hstack Hlen; simpl in *.
  - split; [assumption | lia].
  - destruct (pushSegment_keeps stack piece Hstack Hpiece) as [Hkeep Hone].
    destruct bound as [|bound]; [lia|].
    destruct (IH bound _ Hkeep) as [Hall Hmany]; [lia|].
    split; [assumption | lia].
Qed.

(** The segments of a normalized absolute path, read back. *)
Lemma normalizeFrom_concat (allow : bool) (stack segs : list string) :
  Forall Path.properSegment segs ->
  Path.normalizeFrom allow stack (String.concat "/" segs)
  = rev segs ++ stack.
Proof.
  intros Hsegs. revert stack.
  induction Hsegs as [|seg segs Hseg Hrest IH]; intros stack;
    [reflexivity|].
  destruct segs as [|seg' segs].
  - simpl. now apply normalizeFrom_proper.
  - change (String.concat "/" (seg :: seg' :: segs))
      with (seg ++ String "/" (String.concat "/" (seg' :: segs)))%string.
    rewrite normalizeFrom_app, (normalizeFrom_proper allow stack seg Hseg).
    rewrite IH. simpl. now rewrite <- !app_assoc.
Qed.

Lemma normalizeFrom_fromSegments (allow : bool) (segs : list string) :
  Forall Path.properSegment segs ->
  Path.normalizeFrom allow [] (Path.fromSegments segs) = rev segs.
Proof.
  intros Hsegs. unfold Path.fromSegments.
  change ("/" ++ String.concat "/" segs)%string
    with (EmptyString ++ String "/" (String.concat "/" segs))%string.
  rewrite normalizeFrom_app, normalizeFrom_empty, normalizeFrom_concat
    by assumption.
  apply app_nil_r.
Qed.

Lemma fromSegments_absolute (segs : list string) :
  Path.isAbsolute (Path.fromSegments segs) = true.
Proof.
  unfold Path.isAbsolute, Str.startsWith, Path.fromSegments. simpl.
  now destruct (String.concat "/" segs).
Qed.

Lemma fromSegments_not_empty (segs : list string) :
  String.eqb (Path.fromSegments segs) EmptyString = false.
Proof. reflexivity. Qed.

Lemma resolve_parent_absolute (cwd p : string) :
  Path.isAbsolute p = true ->
  Path.resolve cwd [p; ".."]
  = ("/" ++ String.concat "/"
              (rev (Path.normalizeFrom false
                      (Path.normalizeFrom false
                         (Path.normalizeFrom false [] p) "..")
                      EmptyString)))%string.
Proof.
  intros Habs. destruct p as [|c p]; [discriminate|].
  unfold Path.resolve. simpl rev. cbn [Path.resolveScan].
  change (String.eqb ".." EmptyString) with false.
  change (Path.isAbsolute "..") with false.
  change (String.eqb (String c p) EmptyString) with false.
  cbv beta iota zeta. rewrite Habs. cbv beta iota.
  unfold Path.normalizeString, Path.normalizeSegments. simpl negb.
  change ((String c p ++ "/" ++ ".." ++ "/" ++ EmptyString)%string)
    with ((String c p
           ++ String "/" (".." ++ String "/" EmptyString))%string).
  now rewrite !normalizeFrom_app.
Qed.

(** [resolve(p, "..")] on a normalized absolute path drops its last
    segment; the root is its own parent. *)
Lemma resolve_parent (cwd : string) (segs : list string) :
  Forall Path.properSegment segs ->
  Path.resolve cwd [Path.fromSegments segs; ".."]
  = Path.fromSegments (removelast segs).
Proof.
  intros Hsegs.
  rewrite resolve_parent_absolute by apply fromSegments_absolute.
  rewrite normalizeFrom_fromSegments, normalizeFrom_empty by assumption.
  unfold Path.fromSegments. do 2 f_equal.
  destruct segs as [|s segs _] using rev_ind; [reflexivity|].
  rewrite rev_app_distr, removelast_last.
  apply Forall_app in Hsegs. destruct Hsegs as [_ Hlast].
  inversion Hlast as [|? ? (_ & _ & _ & Hdots) _]; subst.
  apply String.eqb_neq in Hdots.
  cbn [rev app].
  change (Path.normalizeFrom false (s :: rev segs) "..")
    with (if String.eqb s ".." then s :: rev segs else rev segs).
  rewrite Hdots. apply rev_involutive.
Qed.

End PathFacts.

(* ================================================================== *)
(** * Prompt merge *)

Section Merge.
Implicit Types (ps : list PromptConfig) (cfgs : list CreatorConfig).

Lemma fold_addPrompts cfgs (m : JsMap.t PromptConfig) :
  fold_left addPrompts cfgs m
  = JsMap.setAll name (fun p => p) (allPrompts cfgs) m.
Proof.
  revert m. induction cfgs as [|c cfgs IH]; intros m; [reflexivity|].
  simpl. rewrite IH. unfold addPrompts, JsMap.setAll.
  rewrite fold_left_app. now destruct (prompts c).
Qed.

Lemma filter_other_notin (l : list string) x :
  ~ In x l -> filter (fun y => negb (String.eqb y x)) l = l.
Proof.
  induction l as [|a l IH]; simpl; intros Hout; [reflexivity|].
  destruct (String.eqb a x) eqn:E; simpl.
  - apply String.eqb_eq in E. tauto.
  - rewrite IH; tauto.
Qed.

Lemma firstOccurrences_in (l : list string) x :
  In x (firstOccurrences l) <-> In x l.
Proof.
  induction l as [|a l IH]; simpl; [tauto|].
  rewrite filter_In, IH, negb_true_iff, String.eqb_neq.
  destruct (string_dec a x); intuition congruence.
Qed.

Lemma firstOccurrences_snoc (l : list string) x :
  firstOccurrences (l ++ [x])
  = if in_dec string_dec x l then firstOccurrences l
    else firstOccurrences l ++ [x].
Proof.
  induction l as [|a l IH]; simpl; [reflexivity|].
  rewrite IH.
  destruct (in_dec string_dec x l) as [Hin|Hout];
    destruct (string_dec a x) as [->|Hne]; try reflexivity.
  - rewrite filter_app. simpl. rewrite String.eqb_refl. simpl.
    now rewrite app_nil_r.
  - rewrite filter_app. simpl.
    destruct (String.eqb x a) eqn:E; [|reflexivity].
    apply String.eqb_eq in E. congruence.
Qed.

Lemma firstOccurrences_nodup (l : list string) :
  NoDup (firstOccurrences l).
Proof.
  induction l as [|a l IH]; simpl; constructor.
  - rewrite filter_In, String.eqb_refl. simpl. intros [_ H]. discriminate.
  - now apply NoDup_filter.
Qed.

(** The keys of the prompt map: distinct names in first-insertion order. *)
Lemma promptMap_keys ps :
  JsMap.keys (promptMapOf ps) = firstOccurrences (map name ps).
Proof.
  unfold promptMapOf.
  induction ps as [|p ps IH] using rev_ind; [reflexivity|].
  rewrite setAll_snoc, keys_set, map_app. cbn [map].
  rewrite firstOccurrences_snoc, IH.
  destruct (in_dec string_dec (name p) (map name ps)) as [Hin|Hout].
  - rewrite <- firstOccurrences_in, <- IH in Hin.
    apply has_true_in in Hin. now rewrite Hin.
  - destruct (JsMap.has (name p) _) eqn:E; [|reflexivity].
    apply has_true_in in E. rewrite IH in E.
    rewrite firstOccurrences_in in E. contradiction.
Qed.

(** The value under a name: the last prompt that bears it. *)
Lemma promptMap_get ps nm :
  JsMap.get nm (promptMapOf ps) = lastOccurrence nm ps.
Proof.
  unfold promptMapOf, lastOccurrence.
  induction ps as [|p ps IH] using rev_ind; [reflexivity|].
  rewrite setAll_snoc, get_set, rev_app_distr. simpl.
  now destruct (String.eqb (name p) nm).
Qed.

Lemma lastOccurrence_name ps nm p :
  lastOccurrence nm ps = Some p -> name p = nm /\ In p ps.
Proof.
  unfold lastOccurrence. intros H. apply find_some in H.
  destruct H as [Hin Heq]. apply String.eqb_eq in Heq.
  split; [assumption | now apply in_rev].
Qed.

Lemma promptMap_entry ps k p :
  In (k, p) (promptMapOf ps) -> k = name p /\ lastOccurrence k ps = Some p.
Proof.
  intros Hin.
  assert (Hget : JsMap.get k (promptMapOf ps) = Some p).
  { apply in_get_nodup; [|assumption].
    rewrite promptMap_keys. apply firstOccurrences_nodup. }
  rewrite promptMap_get in Hget.
  split; [|assumption].
  symmetry. now apply (lastOccurrence_name ps).
Qed.

Lemma promptMap_value_names ps :
  map name (JsMap.values (promptMapOf ps)) = JsMap.keys (promptMapOf ps).
Proof.
  unfold JsMap.values, JsMap.keys. rewrite map_map.
  apply map_ext_in. intros [k p] Hin. simpl.
  symmetry. now apply (promptMap_entry ps).
Qed.

End Merge.

(** C3.  For every cascade, the merged prompt list has exactly one entry per
    distinct prompt name of the cascade, in the order in which the names
    were first met; each entry is the last prompt of the cascade that bears
    its name. *)
Theorem mergeConfigs_prompts (cfgs : list CreatorConfig)
        (selected : option CreatorConfig) :
  let merged := mergedPrompts (mergeConfigs cfgs selected) in
  let cascade := allPrompts cfgs in
  map name merged = firstOccurrences (map name cascade)
  /\ NoDup (map name merged)
  /\ (forall nm, In nm (map name merged) <-> In nm (map name cascade))
  /\ (forall p, In p merged -> lastOccurrence (name p) cascade = Some p)
  /\ (forall nm p, lastOccurrence nm cascade = Some p -> In p merged).
Proof.
  simpl. rewrite fold_addPrompts. fold (promptMapOf (allPrompts cfgs)).
  set (ps := allPrompts cfgs).
  assert (Hnames : map name (JsMap.values (promptMapOf ps))
                   = firstOccurrences (map name ps))
    by now rewrite promptMap_value_names, promptMap_keys.
  repeat split.
  - exact Hnames.
  - rewrite Hnames. apply firstOccurrences_nodup.
  - rewrite Hnames. apply firstOccurrences_in.
  - rewrite Hnames. apply firstOccurrences_in.
  - intros p Hin. unfold JsMap.values in Hin. apply in_map_iff in Hin.
    destruct Hin as ([k q] & Heq & Hin). simpl in Heq. subst q.
    destruct (promptMap_entry ps k p Hin) as [-> Hlast]. exact Hlast.
  - intros nm p Hlast. rewrite <- promptMap_get in Hlast.
    apply get_some_in in Hlast. unfold JsMap.values.
    change p with (snd (nm, p)). now apply in_map.
Qed.

(* ================================================================== *)
(** * File set *)

Section FileSet.
Variable env : Env.
Variables templateRoot configDir : string.

Local Abbreviation included := (includePhase env configDir).
Local Abbreviation filtered := (excludePhase env configDir).
Local Abbreviation copied := (copyFromPhase env templateRoot configDir).

Lemma nodup_keys_included pats m :
  NoDup (JsMap.keys m) -> NoDup (JsMap.keys (included pats m)).
Proof.
  unfold includePhase. revert m.
  induction pats as [|pat pats IH]; simpl; intros m Hnd; [assumption|].
  apply IH. now apply nodup_keys_setAll.
Qed.

Lemma get_filtered_none pats m k :
  JsMap.get k m = None -> JsMap.get k (filtered pats m) = None.
Proof.
  unfold excludePhase. revert m.
  induction pats as [|pat pats IH]; simpl; intros m H; [assumption|].
  apply IH. now apply get_deleteAll_none.
Qed.

(** What an exclude pattern matches is gone once the exclude loops are
    through. *)
Lemma get_filtered_in pats m pat k :
  NoDup (JsMap.keys m) ->
  In pat pats -> In k (globScan env pat configDir) ->
  JsMap.get k (filtered pats m) = None.
Proof.
  revert m. induction pats as [|p pats IH]; intros m Hnd Hpat Hk.
  - destruct Hpat.
  - destruct Hpat as [-> | Hpat].
    + apply (get_filtered_none pats). now apply get_deleteAll_in.
    + apply IH; [|assumption..]. now apply nodup_keys_deleteAll.
Qed.

(** A run of [set] decides a key it sets whatever the map it runs on. *)
Lemma get_setAll_base {A : Type} (key : A -> string) (val : A -> string)
      (xs : list A) (m : JsMap.t string) k :
  JsMap.get k (JsMap.setAll key val xs m)
  = match JsMap.get k (JsMap.setAll key val xs JsMap.empty) with
    | Some v => Some v
    | None => JsMap.get k m
    end.
Proof.
  induction xs as [|x xs IH] using rev_ind; [reflexivity|].
  rewrite !setAll_snoc, !get_set.
  now destruct (String.eqb (key x) k).
Qed.

Lemma copied_snoc dirs d m :
  copied (dirs ++ [d]) m
  = copyFromStep env templateRoot configDir (copied dirs m) d.
Proof. unfold copyFromPhase. now rewrite fold_left_app. Qed.

(** The copy-from loops decide every key they set, whatever the include and
    exclude loops left. *)
Lemma get_copied_base dirs m k :
  JsMap.get k (copied dirs m)
  = match JsMap.get k (copied dirs JsMap.empty) with
    | Some v => Some v
    | None => JsMap.get k m
    end.
Proof.
  induction dirs as [|d dirs IH] using rev_ind; [reflexivity|].
  rewrite !copied_snoc. unfold copyFromStep.
  rewrite (get_setAll_base _ _ _ (copied dirs m)).
  rewrite (get_setAll_base _ _ _ (copied dirs JsMap.empty)).
  rewrite IH. now destruct (JsMap.get k (JsMap.setAll _ _ _ JsMap.empty)).
Qed.

(** A key no copy-from directory contributes is not in the copy-from
    map. *)
Lemma get_copied_notin dirs k :
  (forall d, In d dirs ->
             ~ In k (map fst (copyFromEntries env templateRoot configDir d))) ->
  JsMap.get k (copied dirs JsMap.empty) = None.
Proof.
  induction dirs as [|d dirs IH] using rev_ind; intros Hout; [reflexivity|].
  rewrite copied_snoc. unfold copyFromStep.
  rewrite get_setAll_notin.
  - apply IH. intros d' Hd'. apply Hout. rewrite in_app_iff. tauto.
  - apply Hout. rewrite in_app_iff. simpl. tauto.
Qed.

(** A key some copy-from directory contributes is in the copy-from map,
    with the source of one of the entries contributed under it. *)
Lemma get_copied_in dirs k :
  (exists d,
      In d dirs
      /\ In k (map fst (copyFromEntries env templateRoot configDir d))) ->
  exists d src,
    In d dirs
    /\ In (k, src) (copyFromEntries env templateRoot configDir d)
    /\ JsMap.get k (copied dirs JsMap.empty) = Some src.
Proof.
  induction dirs as [|d dirs IH] using rev_ind; intros (d0 & Hd0 & Hk).
  - destruct Hd0.
  - rewrite copied_snoc. unfold copyFromStep.
    set (entries := copyFromEntries env templateRoot configDir d).
    destruct (in_dec string_dec k (map fst entries)) as [Hin | Hout].
    + destruct (get_setAll_in fst snd entries
                              (copied dirs JsMap.empty) k Hin)
        as ([k' src] & Hentry & Hkey & Hget).
      simpl in Hkey, Hget. subst k'.
      exists d, src. rewrite in_app_iff. simpl. tauto.
    + rewrite get_setAll_notin by assumption.
      rewrite in_app_iff in Hd0. simpl in Hd0.
      destruct Hd0 as [Hd0 | [-> | []]]; [|contradiction].
      destruct IH as (d1 & src & Hd1 & Hentry & Hget);
        [now exists d0|].
      exists d1, src. rewrite in_app_iff. tauto.
Qed.

Lemma collectFileList_unfold rules :
  collectFileList env templateRoot configDir rules
  = copied (copyFromDirsOf rules)
           (filtered (excludeOf rules)
                     (included (includeOf rules) JsMap.empty)).
Proof. reflexivity. Qed.

Lemma copyFromMap_unfold rules :
  copyFromMap env templateRoot configDir rules
  = copied (copyFromDirsOf rules) JsMap.empty.
Proof. reflexivity. Qed.

(** The final map under a copy-from key: the copy-from map's entry. *)
Lemma get_collect_copyFromKey rules k :
  copyFromKey env templateRoot configDir rules k ->
  exists copyPath src,
    In copyPath (copyFromDirsOf rules)
    /\ In (k, src) (copyFromEntries env templateRoot configDir copyPath)
    /\ JsMap.get k (collectFileList env templateRoot configDir rules)
       = Some src
    /\ JsMap.get k (copyFromMap env templateRoot configDir rules)
       = Some src.
Proof.
  intros Hkey.
  destruct (get_copied_in (copyFromDirsOf rules) k Hkey)
    as (d & src & Hd & Hentry & Hget).
  exists d, src. rewrite collectFileList_unfold, copyFromMap_unfold.
  rewrite get_copied_base, Hget. auto.
Qed.



End FileSet.




(** C4, as the code has it.  Include patterns never bring back what an
    exclude pattern matches: whatever the include list, a path matched by an
    exclude pattern is in the resolved map only as far as the copy-from
    directories put it there. *)
Theorem excluded_not_reincluded (env : Env) (templateRoot configDir : string)
        (rules : option FileRules) (pattern relPath : string) :
  In pattern (excludeOf rules) ->
  In relPath (globScan env pattern configDir) ->
  JsMap.get relPath (collectFileList env templateRoot configDir rules)
  = JsMap.get relPath (copyFromMap env templateRoot configDir rules)
  /\ (~ copyFromKey env templateRoot configDir rules relPath ->
      JsMap.get relPath (collectFileList env templateRoot configDir rules)
      = None).
Proof.
  intros Hpat Hrel.
  assert (Heq : JsMap.get relPath
                  (collectFileList env templateRoot configDir rules)
                = JsMap.get relPath
                    (copyFromMap env templateRoot configDir rules)).
  { rewrite collectFileList_unfold, copyFromMap_unfold, get_copied_base.
    rewrite (get_filtered_in env configDir _ _ pattern relPath);
      [now destruct (JsMap.get relPath _) | | assumption | assumption].
    apply nodup_keys_included. constructor. }
  split; [exact Heq|].
  intros Hnot. rewrite Heq, copyFromMap_unfold.
  apply get_copied_notin. intros d Hd Hin. apply Hnot. now exists d.
Qed.

(** C4 at work: [a.txt] is matched by the exclude pattern [a.txt] and by
    both include patterns; it is not in the map. *)
Lemma excluded_not_reincluded_witness :
  JsMap.get "a.txt"
    (collectFileList (Disk.env Sample.twoFiles) "/t" "/t"
       (Some Sample.reincludeRules))
  = JsMap.get "a.txt"
      (copyFromMap (Disk.env Sample.twoFiles) "/t" "/t"
         (Some Sample.reincludeRules))
  /\ (~ copyFromKey (Disk.env Sample.twoFiles) "/t" "/t"
        (Some Sample.reincludeRules) "a.txt" ->
      JsMap.get "a.txt"
        (collectFileList (Disk.env Sample.twoFiles) "/t" "/t"
           (Some Sample.reincludeRules))
      = None).
Proof.
  apply (excluded_not_reincluded (Disk.env Sample.twoFiles) "/t" "/t"
           (Some Sample.reincludeRules) "a.txt" "a.txt").
  - simpl. auto.
  - vm_compute. auto.
Defined.

(** C4 as stated fails: [a.txt] is excluded, the include patterns [**/*] and
    [a.txt] both match it, and the resolved map is left with [b.txt]
    alone. *)
Lemma reinclude_counterexample :
  ~ ReincludeRestores (Disk.env Sample.twoFiles) "/t" "/t"
      (Some Sample.reincludeRules).
Proof.
  intros H. specialize (H "a.txt" "a.txt" "a.txt").
  assert (Hhas : JsMap.has "a.txt"
                   (collectFileList (Disk.env Sample.twoFiles) "/t" "/t"
                      (Some Sample.reincludeRules)) = false) by reflexivity.
  rewrite H in Hhas; [discriminate | simpl; auto | vm_compute; auto
                      | simpl; auto | vm_compute; auto].
Qed.

(** C5.  The entries the copy-from directories introduce do not depend on
    the exclude list (nor on the include list): under a copy-from key, two
    rule sets with the same [copyFrom] resolve to the same entry, and it is
    there, with the source of a copy-from file of that key. *)
Theorem copyFrom_not_excluded (env : Env) (templateRoot configDir : string)
        (rules rules' : option FileRules) (key : string) :
  copyFromDirsOf rules' = copyFromDirsOf rules ->
  copyFromKey env templateRoot configDir rules key ->
  JsMap.get key (collectFileList env templateRoot configDir rules')
  = JsMap.get key (collectFileList env templateRoot configDir rules)
  /\ exists copyPath src,
       In copyPath (copyFromDirsOf rules)
       /\ In (key, src)
             (copyFromEntries env templateRoot configDir copyPath)
       /\ JsMap.get key (collectFileList env templateRoot configDir rules)
          = Some src.
Proof.
  intros Hsame Hkey.
  destruct (get_collect_copyFromKey env templateRoot configDir rules key Hkey)
    as (d & src & Hd & Hentry & Hget & Hmap).
  split.
  - rewrite Hget, collectFileList_unfold, get_copied_base, Hsame.
    rewrite copyFromMap_unfold in Hmap. now rewrite Hmap.
  - now exists d, src.
Qed.

(** C5 at work: [/r/t] has a file [shared/a.txt] of its own, which the
    exclude pattern [**/*.txt] removes; the entry [shared/a.txt] borrowed
    from [../shared] is there with or without an exclude list. *)
Lemma copyFrom_not_excluded_witness :
  JsMap.get "shared/a.txt"
    (collectFileList (Disk.env Sample.nested) "/r" "/r/t"
       (Some (mkFiles None None (Some ["../shared"]))))
  = JsMap.get "shared/a.txt"
      (collectFileList (Disk.env Sample.nested) "/r" "/r/t"
         (Some Sample.leafRules))
  /\ exists copyPath src,
       In copyPath ["../shared"]
       /\ In ("shared/a.txt", src)
             (copyFromEntries (Disk.env Sample.nested) "/r" "/r/t" copyPath)
       /\ JsMap.get "shared/a.txt"
            (collectFileList (Disk.env Sample.nested) "/r" "/r/t"
               (Some Sample.leafRules))
          = Some src.
Proof.
  apply (copyFrom_not_excluded (Disk.env Sample.nested) "/r" "/r/t"
           (Some Sample.leafRules)
           (Some (mkFiles None None (Some ["../shared"]))) "shared/a.txt").
  - reflexivity.
  - exists "../shared". split; [simpl; auto | vm_compute; auto].
Defined.

(* ================================================================== *)
(** * Template selection *)

(** Induction on a directory tree: a property holds of a node when it holds
    of all its children. *)
Lemma DirectoryNode_children_ind (P : DirectoryNode -> Prop) :
  (forall nm path kids cfg,
      (forall k child, In (k, child) kids -> P child) ->
      P (mkNode nm path kids cfg)) ->
  forall node, P node.
Proof.
  intros Hnode. fix IH 1. intros [nm path kids cfg]. apply Hnode.
  revert kids. fix IHkids 1. intros [|[k0 c0] kids'] k child Hin.
  - destruct Hin.
  - destruct Hin as [Heq | Hin].
    + injection Heq as _ <-. apply IH.
    + exact (IHkids kids' k child Hin).
Qed.

(** [node.children.get(picked)] *)
Lemma selectTemplateDir_unfold (node : DirectoryNode)
      (pathStack : list string) (script : Script) :
  selectTemplateDir node pathStack script
  = if negb (hasConfig node) then (Done node, script)
    else if (JsMap.size (children node) =? 0)%nat then (Done node, script)
    else match script with
         | [] => (NoAnswer, [])
         | Cancel :: rest => (Exit 0, rest)
         | Pick picked :: rest =>
             match JsMap.get picked (children node) with
             | Some child =>
                 selectTemplateDir child (pathStack ++ [picked]) rest
             | None => (Exit 1, rest)
             end
         | _ :: rest => (NoAnswer, rest)
         end.
Proof.
  destruct node as [nm path kids cfg]. simpl.
  destruct (negb cfg); [reflexivity|].
  destruct (JsMap.size kids =? 0)%nat; [reflexivity|].
  destruct script as [|[| picked | |] rest]; try reflexivity.
  induction kids as [|[k child] kids IH]; simpl; [reflexivity|].
  now destruct (String.eqb k picked).
Qed.

(** C6.  Whatever the tree and whatever the user answers, a node the
    selector returns has no configuration file or no child directory. *)
Theorem selectTemplateDir_final (node : DirectoryNode)
        (pathStack : list string) (script : Script)
        (selected : DirectoryNode) (rest : Script) :
  selectTemplateDir node pathStack script = (Done selected, rest) ->
  hasConfig selected = false \/ JsMap.size (children selected) = 0.
Proof.
  revert pathStack script.
  induction node as [nm path kids cfg IH] using DirectoryNode_children_ind.
  intros pathStack script. rewrite selectTemplateDir_unfold. simpl.
  destruct cfg; simpl.
  - destruct (JsMap.size kids =? 0)%nat eqn:Hsize.
    + intros [= <- <-]. right. simpl. now apply Nat.eqb_eq.
    + destruct script as [|[| picked | |] script']; try discriminate.
      destruct (JsMap.get picked kids) as [child|] eqn:Hget;
        [|discriminate].
      apply get_some_in in Hget. now apply (IH picked child).
  - intros [= <- <-]. now left.
Qed.

(** C6 at work: from the sample menu the user picks [web], which has a
    child but no configuration file. *)
Lemma selectTemplateDir_final_witness :
  selectTemplateDir Sample.menu [] [Pick "web"]
  = (Done (mkNode "web" "/r/web"
                  [("src", mkNode "src" "/r/web/src" [] false)] false), [])
  /\ (hasConfig (mkNode "web" "/r/web"
                        [("src", mkNode "src" "/r/web/src" [] false)] false)
      = false
      \/ JsMap.size
           (children (mkNode "web" "/r/web"
                             [("src", mkNode "src" "/r/web/src" [] false)]
                             false)) = 0).
Proof.
  split; [reflexivity|].
  apply (selectTemplateDir_final Sample.menu [] [Pick "web"] _ []).
  reflexivity.
Defined.

(** The selector never stops at a node that has both a configuration file
    and children: there it asks. *)
Lemma selectTemplateDir_asks (node : DirectoryNode)
      (pathStack : list string) :
  hasConfig node = true -> JsMap.size (children node) <> 0 ->
  selectTemplateDir node pathStack [] = (NoAnswer, []).
Proof.
  intros Hcfg Hkids. rewrite selectTemplateDir_unfold, Hcfg. simpl.
  apply Nat.eqb_neq in Hkids. now rewrite Hkids.
Qed.

(* ================================================================== *)
(** * Copying *)

Lemma scanForZero_iff (limit : nat) (buffer : list Byte.byte) :
  scanForZero limit buffer = true
  <-> exists i, i < limit /\ nth_error buffer i = Some Byte.x00.
Proof.
  revert buffer. induction limit as [|limit IH]; intros buffer; simpl.
  - split; [discriminate | intros (i & Hi & _); lia].
  - destruct buffer as [|b rest].
    + split; [discriminate | intros (i & _ & Hi); now destruct i].
    + destruct (Byte.eqb b Byte.x00) eqn:E.
      * apply Byte.byte_dec_bl in E. subst b.
        split; [intros _; exists 0; split; [lia | reflexivity] | reflexivity].
      * rewrite IH. split.
        -- intros (i & Hi & Hnth). exists (S i). split; [lia | exact Hnth].
        -- intros ([|i] & Hi & Hnth); simpl in Hnth.
           ++ injection Hnth as ->. discriminate.
           ++ exists i. split; [lia | exact Hnth].
Qed.

(** A buffer is binary exactly when one of its first 8000 bytes is zero. *)
Lemma isBinaryBuffer_iff (buffer : list Byte.byte) :
  isBinaryBuffer buffer = true
  <-> exists i, i < binaryScanLimit /\ nth_error buffer i = Some Byte.x00.
Proof.
  unfold isBinaryBuffer. rewrite scanForZero_iff.
  split; intros (i & Hi & Hnth); exists i; (split; [|exact Hnth]).
  - lia.
  - assert (i < List.length buffer)
      by (apply nth_error_Some; congruence).
    lia.
Qed.

(** C7.  A regular file that is not skipped is classified on its first 8000
    bytes alone ([binaryScanLimit] is 8000).  If one of them is zero the
    buffer is written as it is and never rendered; if none is, the buffer is
    decoded and rendered, whatever comes after the first 8000 bytes. *)
Theorem copyEntry_binary_or_text (env : Env) (outputRoot : string)
        (data : PromptValues) (targetPath sourcePath : string)
        (buffer : list Byte.byte) :
  skipped targetPath = false ->
  lstat env sourcePath = Some RegularFile ->
  readFile env sourcePath = Some buffer ->
  let fullTargetPath := Path.join [outputRoot; targetPath] in
  ((exists i, i < binaryScanLimit /\ nth_error buffer i = Some Byte.x00) ->
   copyEntry env outputRoot data (targetPath, sourcePath)
   = ([Mkdir (Path.join [fullTargetPath; ".."]);
       WriteBytes fullTargetPath buffer], Done tt))
  /\ ((forall i, i < binaryScanLimit ->
                 nth_error buffer i <> Some Byte.x00) ->
      copyEntry env outputRoot data (targetPath, sourcePath)
      = ([Mkdir (Path.join [fullTargetPath; ".."]);
          WriteText fullTargetPath
                    (renderTemplate (utf8ToString env buffer) data)],
         Done tt)).
Proof.
  intros Hskip Hstat Hread fullTargetPath.
  unfold copyEntry, writeContent. rewrite Hskip, Hstat, Hread.
  fold fullTargetPath.
  split.
  - intros Hzero. apply isBinaryBuffer_iff in Hzero. now rewrite Hzero.
  - intros Hnone. destruct (isBinaryBuffer buffer) eqn:E; [|reflexivity].
    apply isBinaryBuffer_iff in E. destruct E as (i & Hi & Hnth).
    exfalso. exact (Hnone i Hi Hnth).
Qed.

(** C7 at work: a zero byte at index 7999 makes the file binary; a zero
    byte and a byte that is no UTF-8 at indices 8000 and 8001 leave it a
    text. *)
Lemma copyEntry_binary_or_text_witness :
  copyEntry (Disk.env Sample.buffers) "/out" [] ("bin.dat", "/t/bin.dat")
  = ([Mkdir "/out"; WriteBytes "/out/bin.dat" Sample.zeroInside], Done tt)
  /\ copyEntry (Disk.env Sample.buffers) "/out" []
               ("text.txt", "/t/text.txt")
     = ([Mkdir "/out";
         WriteText "/out/text.txt"
                   (renderTemplate (Disk.decode Sample.zeroBeyond) [])],
        Done tt).
Proof.
  split.
  - refine (proj1 (copyEntry_binary_or_text
                     (Disk.env Sample.buffers) "/out" [] "bin.dat"
                     "/t/bin.dat" Sample.zeroInside _ _ _) _);
      try reflexivity.
    exists (binaryScanLimit - 1). split.
    + unfold binaryScanLimit. lia.
    + unfold Sample.zeroInside. rewrite nth_error_app2.
      * rewrite repeat_length, Nat.sub_diag. reflexivity.
      * rewrite repeat_length. lia.
  - refine (proj2 (copyEntry_binary_or_text
                     (Disk.env Sample.buffers) "/out" [] "text.txt"
                     "/t/text.txt" Sample.zeroBeyond _ _ _) _);
      try reflexivity.
    intros i Hi. unfold Sample.zeroBeyond.
    rewrite nth_error_app1 by now rewrite repeat_length.
    rewrite nth_error_repeat by assumption. discriminate.
Defined.

(** C9, as the code has it.  An entry is passed over, whatever its source,
    exactly when its path is [.git], begins with [.git/] or with [.git]
    and a backslash, or ends with [creator.json]; an entry that is not
    passed over and whose source is a directory or a readable regular file
    is copied. *)
Theorem skipped_iff (targetPath : string) :
  (skipped targetPath = true
   <-> targetPath = ".git"
       \/ (exists r, targetPath = (".git/" ++ r)%string)
       \/ (exists r, targetPath = (".git" ++ backslash ++ r)%string)
       \/ (exists q, targetPath = (q ++ "creator.json")%string))
  /\ (skipped targetPath = true ->
      forall env outputRoot data sourcePath,
        copyEntry env outputRoot data (targetPath, sourcePath)
        = ([], Done tt))
  /\ (skipped targetPath = false ->
      forall env outputRoot data sourcePath,
        (lstat env sourcePath = Some Directory
         \/ (lstat env sourcePath = Some RegularFile
             /\ readFile env sourcePath <> None)) ->
        exists action actions,
          copyEntry env outputRoot data (targetPath, sourcePath)
          = (action :: actions, Done tt)).
Proof.
  split; [|split].
  - unfold skipped, isSubPath, Str.startsWith, configFileName.
    rewrite !orb_true_iff, String.eqb_eq, !prefix_iff, endsWith_iff.
    tauto.
  - intros Hskip env outputRoot data sourcePath.
    unfold copyEntry. now rewrite Hskip.
  - intros Hskip env outputRoot data sourcePath Hsource.
    unfold copyEntry. rewrite Hskip.
    destruct Hsource as [-> | [-> Hread]]; [eauto|].
    destruct (readFile env sourcePath); [eauto | contradiction].
Qed.

(** C9 as stated fails: [sub/.git/x] lies under a [.git] directory, and the
    copier writes it. *)
Lemma nested_git_counterexample :
  skippedAnyDepth "sub/.git/x" = true
  /\ skipped "sub/.git/x" = false
  /\ copyTemplate (Disk.env Sample.gitInside) "/t" "/out" [] "/t" None
     = ([Mkdir "/out/sub/.git"; WriteText "/out/sub/.git/x" (js "ref")],
        Done tt).
Proof. repeat split. Qed.

(* ================================================================== *)
(** * The template subdirectory *)

(** C10.  When the resolved template root holds a directory named
    [template], the engine goes on with that directory as its root: the tree
    is built from it, the cascade is collected up to it and the files are
    resolved against it. *)
Theorem template_subdirectory_takes_over (env : Env) (depth : nat)
        (script : Script) (templateRoot outputRoot : string) :
  existsSync env templateRoot = true ->
  existsSync env (Path.join [templateRoot; "template"]) = true ->
  statIsDirectory env (Path.join [templateRoot; "template"]) = true ->
  effectiveTemplateRoot env templateRoot
  = Path.join [templateRoot; "template"]
  /\ mainFrom env depth script templateRoot outputRoot
     = scaffold env depth script (Path.join [templateRoot; "template"])
                outputRoot.
Proof.
  intros Hroot Hsub Hdir.
  assert (Heff : effectiveTemplateRoot env templateRoot
                 = Path.join [templateRoot; "template"])
    by (unfold effectiveTemplateRoot; now rewrite Hsub, Hdir).
  split; [exact Heff|].
  unfold mainFrom. now rewrite Hroot, Heff.
Qed.

(** C10 at work: the user names [/repo]; what is copied is the content of
    [/repo/template], and [/repo/README.md] is left out. *)
Lemma template_subdirectory_takes_over_witness :
  (effectiveTemplateRoot (Disk.env Sample.withTemplateDir) "/repo"
   = "/repo/template"
   /\ mainFrom (Disk.env Sample.withTemplateDir) 3 [] "/repo" "/out"
      = scaffold (Disk.env Sample.withTemplateDir) 3 [] "/repo/template"
                 "/out")
  /\ mainFrom (Disk.env Sample.withTemplateDir) 3 [] "/repo" "/out"
     = ([Mkdir "/out"; WriteText "/out/index.txt" (js "Hi ")], Done tt).
Proof.
  split; [|reflexivity].
  exact (template_subdirectory_takes_over
           (Disk.env Sample.withTemplateDir) 3 [] "/repo" "/out"
           eq_refl eq_refl eq_refl).
Defined.

(** Without a [template] directory the root stays what it was. *)
Lemma template_root_kept (env : Env) (templateRoot : string) :
  existsSync env (Path.join [templateRoot; "template"]) = false
  \/ statIsDirectory env (Path.join [templateRoot; "template"]) = false ->
  effectiveTemplateRoot env templateRoot = templateRoot.
Proof.
  unfold effectiveTemplateRoot. intros [-> | ->]; [reflexivity|].
  now destruct (existsSync env _).
Qed.

(* ================================================================== *)
(** * Rendering *)

Section Placeholder.

Lemma stripPrefix_some (p s r : jsstring) :
  stripPrefix p s = Some r -> s = p ++ r.
Proof.
  revert s. induction p as [|a p IH]; intros s; simpl.
  - now intros [= ->].
  - destruct s as [|b s]; [discriminate|].
    destruct (a =? b)%N eqn:E; [|discriminate].
    apply N.eqb_eq in E. subst b. intros H. now rewrite (IH s H).
Qed.

Lemma stripPrefix_app (p r : jsstring) : stripPrefix p (p ++ r) = Some r.
Proof.
  induction p as [|a p IH]; simpl; [reflexivity|].
  now rewrite N.eqb_refl.
Qed.

Lemma skipSpaces_split (s : jsstring) :
  exists ws, s = ws ++ skipSpaces s /\ forallb isSpace ws = true.
Proof.
  induction s as [|c s (ws & Hs & Hws)]; simpl.
  - now exists [].
  - destruct (isSpace c) eqn:E.
    + exists (c :: ws). cbn [forallb app]. rewrite E, Hws.
      split; [congruence|reflexivity].
    + now exists [].
Qed.

Lemma skipSpaces_length (s : jsstring) :
  List.length (skipSpaces s) <= List.length s.
Proof.
  destruct (skipSpaces_split s) as (ws & Hs & _).
  rewrite Hs at 2. rewrite length_app. lia.
Qed.

Lemma skipSpaces_app (ws t : jsstring) :
  forallb isSpace ws = true -> skipSpaces (ws ++ t) = skipSpaces t.
Proof.
  induction ws as [|c ws IH]; [reflexivity|].
  cbn [forallb app skipSpaces]. rewrite andb_true_iff.
  intros [-> Hws]. auto.
Qed.

Lemma takeKey_split (s k r : jsstring) :
  takeKey s = (k, r) -> s = k ++ r /\ forallb isKeyChar k = true.
Proof.
  revert k r. induction s as [|c s IH]; simpl; intros k r.
  - now intros [= <- <-].
  - destruct (isKeyChar c) eqn:E.
    + destruct (takeKey s) as [k' r'] eqn:Hs. intros [= <- <-].
      destruct (IH k' r' eq_refl) as [-> Hk]. cbn [forallb app].
      now rewrite E, Hk.
    + now intros [= <- <-].
Qed.

Lemma takeKey_app (k t : jsstring) :
  forallb isKeyChar k = true -> stopsKey t -> takeKey (k ++ t) = (k, t).
Proof.
  intros Hk Ht. induction k as [|c k IH].
  - destruct t as [|c t]; [reflexivity|].
    cbn [app takeKey]. unfold stopsKey in Ht. now rewrite Ht.
  - cbn [forallb] in Hk. apply andb_true_iff in Hk. destruct Hk as [Hc Hk].
    cbn [app takeKey]. now rewrite Hc, (IH Hk).
Qed.

Lemma keyChar_not_space (c : N) : isKeyChar c = true -> isSpace c = false.
Proof.
  unfold isKeyChar, isSpace. intros H.
  repeat rewrite ?orb_true_iff, ?andb_true_iff, ?N.leb_le, ?N.eqb_eq in H.
  apply not_true_is_false. intros H'.
  repeat rewrite ?orb_true_iff, ?andb_true_iff, ?N.leb_le, ?N.eqb_eq in H'.
  lia.
Qed.

Lemma space_not_keyChar (c : N) : isSpace c = true -> isKeyChar c = false.
Proof.
  intros H. destruct (isKeyChar c) eqn:E; [|reflexivity].
  apply keyChar_not_space in E. congruence.
Qed.

(** The matcher finds a placeholder exactly where there is one. *)
Lemma matchPlaceholder_sound (s key rest : jsstring) :
  matchPlaceholder s = Some (key, rest) -> placeholderAt s key rest.
Proof.
  unfold matchPlaceholder.
  destruct (stripPrefix (js "<%=") s) as [s1|] eqn:H1; [|discriminate].
  apply stripPrefix_some in H1.
  destruct (skipSpaces_split s1) as (ws1 & Hs1 & Hws1).
  destruct (takeKey (skipSpaces s1)) as [k s2] eqn:Hk.
  apply takeKey_split in Hk. destruct Hk as [Hk Hkey].
  destruct k as [|c k]; [discriminate|].
  destruct (skipSpaces_split s2) as (ws2 & Hs2 & Hws2).
  destruct (stripPrefix (js "%>") (skipSpaces s2)) as [r|] eqn:H2;
    [|discriminate].
  apply stripPrefix_some in H2. intros [= <- <-].
  exists ws1, ws2. repeat split; try assumption; [|discriminate].
  rewrite H1, Hs1, Hk, Hs2, H2 at 1. reflexivity.
Qed.

Lemma matchPlaceholder_complete (s key rest : jsstring) :
  placeholderAt s key rest -> matchPlaceholder s = Some (key, rest).
Proof.
  intros (ws1 & ws2 & -> & Hws1 & Hws2 & Hne & Hkey).
  unfold matchPlaceholder.
  rewrite stripPrefix_app, skipSpaces_app by assumption.
  destruct key as [|c key]; [congruence|].
  assert (Hc : isSpace c = false).
  { apply keyChar_not_space. cbn [forallb] in Hkey.
    now apply andb_true_iff in Hkey. }
  change (skipSpaces ((c :: key) ++ ws2 ++ js "%>" ++ rest))
    with (if isSpace c then skipSpaces (key ++ ws2 ++ js "%>" ++ rest)
          else (c :: key) ++ ws2 ++ js "%>" ++ rest).
  rewrite Hc, takeKey_app; [|assumption|].
  - cbv beta iota. rewrite skipSpaces_app by assumption. reflexivity.
  - destruct ws2 as [|w ws2]; [reflexivity|].
    cbn [forallb] in Hws2. apply andb_true_iff in Hws2.
    apply space_not_keyChar. tauto.
Qed.

Lemma matchPlaceholder_shorter (s key rest : jsstring) :
  matchPlaceholder s = Some (key, rest) ->
  List.length rest < List.length s.
Proof.
  intros H. apply matchPlaceholder_sound in H.
  destruct H as (ws1 & ws2 & -> & _). rewrite !length_app. simpl. lia.
Qed.

End Placeholder.

Section Render.
Variable data : PromptValues.

(** Fuel beyond the length of the content changes nothing. *)
Lemma replaceAll_fuel (fuel1 fuel2 : nat) (s : jsstring) :
  List.length s <= fuel1 -> List.length s <= fuel2 ->
  replaceAll fuel1 s data = replaceAll fuel2 s data.
Proof.
  revert fuel2 s. induction fuel1 as [|fuel1 IH]; intros fuel2 s H1 H2.
  - destruct s; [|simpl in H1; lia]. now destruct fuel2.
  - destruct fuel2 as [|fuel2].
    + destruct s; [reflexivity | simpl in H2; lia].
    + simpl. destruct s as [|c s]; [reflexivity|].
      destruct (matchPlaceholder (c :: s)) as [[key rest]|] eqn:Hm.
      * apply matchPlaceholder_shorter in Hm. simpl in *.
        f_equal. apply IH; lia.
      * simpl in *. f_equal. apply IH; lia.
Qed.

Lemma renderTemplate_nil : renderTemplate [] data = [].
Proof. reflexivity. Qed.

Lemma renderTemplate_match (s key rest : jsstring) :
  matchPlaceholder s = Some (key, rest) ->
  renderTemplate s data = replacement data key ++ renderTemplate rest data.
Proof.
  intros Hm. pose proof (matchPlaceholder_shorter _ _ _ Hm) as Hlen.
  unfold renderTemplate. destruct s as [|c s]; [simpl in Hlen; lia|].
  simpl List.length. simpl replaceAll. rewrite Hm.
  f_equal. apply replaceAll_fuel; simpl in *; lia.
Qed.

Lemma renderTemplate_unit (c : N) (s : jsstring) :
  matchPlaceholder (c :: s) = None ->
  renderTemplate (c :: s) data = c :: renderTemplate s data.
Proof.
  intros Hm. unfold renderTemplate. simpl List.length. simpl replaceAll.
  now rewrite Hm.
Qed.

(** Rendering replaces every placeholder, from left to right, and keeps the
    rest. *)
Lemma renderTemplate_renders (s : jsstring) :
  Renders data s (renderTemplate s data).
Proof.
  remember (List.length s) as n eqn:Hn.
  revert s Hn. induction n as [n IH] using lt_wf_ind. intros s ->.
  destruct s as [|c s]; [constructor|].
  destruct (matchPlaceholder (c :: s)) as [[key rest]|] eqn:Hm.
  - rewrite (renderTemplate_match _ _ _ Hm).
    apply RendersPlaceholder with (rest := rest).
    + now apply matchPlaceholder_sound.
    + apply (IH (List.length rest)); [|reflexivity].
      now apply matchPlaceholder_shorter in Hm.
  - rewrite (renderTemplate_unit _ _ Hm). apply RendersUnit.
    + intros key rest Hat. apply matchPlaceholder_complete in Hat.
      congruence.
    + apply (IH (List.length s)); [simpl; lia | reflexivity].
Qed.

(** And nothing else is a rendering. *)
Lemma renders_renderTemplate (s out : jsstring) :
  Renders data s out -> out = renderTemplate s data.
Proof.
  induction 1 as [| s key rest out Hat _ IH | c s out Hnone _ IH].
  - reflexivity.
  - apply matchPlaceholder_complete in Hat.
    now rewrite (renderTemplate_match _ _ _ Hat), IH.
  - rewrite renderTemplate_unit, IH; [reflexivity|].
    destruct (matchPlaceholder (c :: s)) as [[key rest]|] eqn:Hm;
      [|reflexivity].
    apply matchPlaceholder_sound in Hm. now apply Hnone in Hm.
Qed.

(** What stands for a key that [Object.prototype] does not know: the prompt
    value, or nothing when there is none. *)
Lemma replacement_own (key : jsstring) :
  JsMap.get (stringOfJs key) objectPrototype = None ->
  replacement data key
  = match JsMap.get (stringOfJs key) data with
    | Some value => toJsString value
    | None => []
    end.
Proof.
  intros Hproto. unfold replacement, getProperty. rewrite Hproto.
  now destruct (JsMap.get (stringOfJs key) data).
Qed.

End Render.

(** The scenario of the specification: with [name] bound to [demo],
    [<%= name %>] renders to [demo] and [<%=missing%>] to nothing. *)
Lemma renderTemplate_scenario :
  renderTemplate (js "<%= name %>") [("name", VString (js "demo"))]
  = js "demo"
  /\ renderTemplate (js "<%=missing%>") [("name", VString (js "demo"))] = []
  /\ renderTemplate (js "a <%=name%>, <%=  ok %>!")
       [("name", VString (js "demo")); ("ok", VBool true)]
     = js "a demo, true!".
Proof. repeat split. Qed.

(** C8, where the code departs from it.  The identifier [constructor] is
    absent from an empty PromptValues, yet [<%= constructor %>] does not
    render to the empty string: the property read falls through to
    [Object.prototype] and yields the source text of a built-in function.
    The same holds for every name [Object.prototype] defines. *)
Theorem renderTemplate_inherited_property :
  JsMap.get "constructor" (JsMap.empty : PromptValues) = None
  /\ renderTemplate (js "<%= constructor %>") JsMap.empty
     = nativeFunctionSource "Object"
  /\ renderTemplate (js "<%= constructor %>") JsMap.empty <> []
  /\ forall data key,
       JsMap.get (stringOfJs key) data = None ->
       JsMap.get (stringOfJs key) objectPrototype <> None ->
       replacement data key <> [].
Proof.
  repeat split; try discriminate.
  intros data key Hown Hproto. unfold replacement, getProperty.
  rewrite Hown.
  destruct (JsMap.get (stringOfJs key) objectPrototype) as [v|] eqn:E;
    [|contradiction].
  clear Hproto. unfold objectPrototype in E. simpl in E.
  repeat match type of E with
         | (if ?b then _ else _) = _ => destruct b
         end;
    try discriminate; injection E as <-; discriminate.
Qed.

(* ================================================================== *)
(** * Configuration cascade *)

(** C2, where the code departs from it.  The template root is put on the
    chain without being marked as visited.  With [/r] the root and [/r/t]
    selected, a [copyFrom] of [..] in [/r/t/creator.json] resolves to [/r],
    which is then loaded and recorded a second time. *)
Theorem collectAllConfigs_root_twice :
  buildDirTree (Disk.env Sample.borrowsRoot) 3 "/r"
  = Done (mkNode "." "/r" [("t", Sample.selectedLeaf)] true)
  /\ selectTemplateDir (mkNode "." "/r" [("t", Sample.selectedLeaf)] true)
                       [] [Pick "t"]
     = (Done Sample.selectedLeaf, [])
  /\ exists collected,
       collectAllConfigs (Disk.env Sample.borrowsRoot) Sample.selectedLeaf "/r"
       = Done collected
       /\ paths collected = ["/r"; "/r/t"; "/r"]
       /\ configs collected
          = [Sample.rootConfig; Sample.upConfig; Sample.rootConfig]
       /\ ~ NoDup (paths collected).
Proof.
  split; [reflexivity|]. split; [reflexivity|].
  eexists. split; [reflexivity|]. split; [reflexivity|].
  split; [reflexivity|].
  simpl. intros Hnd. inversion Hnd as [|? ? Hnotin _]. apply Hnotin.
  simpl. auto.
Qed.

(** ** The climb ends *)

Section Climb.
Variable env : Env.
Variable rootPath : string.

Lemma jsSet_has_add (x y : string) (s : JsSet.t) :
  JsSet.has x (JsSet.add y s) = String.eqb x y || JsSet.has x s.
Proof.
  unfold JsSet.add, JsSet.has.
  destruct (existsb (String.eqb y) s) eqn:Hy.
  - destruct (String.eqb x y) eqn:E; [|reflexivity].
    apply String.eqb_eq in E. now subst.
  - rewrite existsb_app. simpl. rewrite orb_false_r. apply orb_comm.
Qed.

Lemma climb_unfold (fuel : nat) (current : string)
      (chain : list string) (visited : JsSet.t) :
  climb env fuel rootPath current chain visited
  = if negb (String.eqb current EmptyString)
       && negb (String.eqb current rootPath)
       && negb (JsSet.has current visited)
    then match fuel with
         | O => None
         | S fuel' =>
             climb env fuel' rootPath
                   (Path.resolve (cwd env) [current; ".."])
                   (current :: chain) (JsSet.add current visited)
         end
    else Some (chain, visited).
Proof. now destruct fuel. Qed.

Lemma climb_stops (fuel : nat) (current : string)
      (chain : list string) (visited : JsSet.t) :
  JsSet.has current visited = true ->
  climb env fuel rootPath current chain visited = Some (chain, visited).
Proof.
  intros Hin. rewrite climb_unfold, Hin. simpl.
  now rewrite andb_false_r.
Qed.

(** From a normalized absolute path the climb takes a round per segment,
    and one for the root directory. *)
Lemma climb_from_segments (fuel : nat) (segs chain : list string)
      (visited : JsSet.t) :
  Forall Path.properSegment segs ->
  List.length segs < fuel ->
  climb env fuel rootPath (Path.fromSegments segs) chain visited <> None.
Proof.
  revert segs chain visited.
  induction fuel as [|fuel IH]; intros segs chain visited Hsegs Hlen;
    [lia|].
  rewrite climb_unfold.
  destruct (_ && _ && _); [|discriminate].
  rewrite resolve_parent by assumption.
  destruct segs as [|s segs _] using rev_ind.
  - simpl removelast. rewrite climb_stops; [discriminate|].
    now rewrite jsSet_has_add, String.eqb_refl.
  - rewrite removelast_last. apply IH.
    + apply Forall_app in Hsegs. tauto.
    + rewrite length_app in Hlen. simpl in Hlen. lia.
Qed.

(** The parent of any path, taken in a process whose working directory is
    absolute, is a normalized absolute path. *)
Lemma resolve_parent_normal (current : string) :
  Path.isAbsolute (cwd env) = true ->
  String.eqb current EmptyString = false ->
  exists segs,
    Path.resolve (cwd env) [current; ".."] = Path.fromSegments segs
    /\ Forall Path.properSegment segs
    /\ List.length segs
       <= String.length (cwd env) + String.length current + 6.
Proof.
  intros Hcwd Hcur.
  destruct (Path.isAbsolute current) eqn:Habs.
  - rewrite resolve_parent_absolute by assumption.
    eexists. split; [reflexivity|].
    destruct (normalizeFrom_keeps [] current) as [H1 L1]; [constructor|].
    destruct (normalizeFrom_keeps _ ".." H1) as [H2 L2].
    destruct (normalizeFrom_keeps _ EmptyString H2) as [H3 L3].
    split; [now apply Forall_rev|].
    rewrite length_rev. simpl in *. lia.
  - exists (rev (Path.normalizeFrom false []
                   (cwd env ++ "/" ++ current ++ "/" ++ "../")%string)).
    destruct (normalizeFrom_keeps []
                (cwd env ++ "/" ++ current ++ "/" ++ "../")%string)
      as [H L]; [constructor|].
    split; [|split; [now apply Forall_rev|]].
    + unfold Path.resolve. simpl rev. cbn [Path.resolveScan].
      change (String.eqb ".." EmptyString) with false.
      change (Path.isAbsolute "..") with false.
      cbv beta iota zeta. rewrite Hcur, Habs.
      destruct (String.eqb (cwd env) EmptyString) eqn:E.
      * apply String.eqb_eq in E. rewrite E in Hcwd. discriminate.
      * rewrite Hcwd. reflexivity.
    + rewrite length_rev.
      rewrite !string_length_append in L.
      change (String.length "/") with 1 in L.
      change (String.length "../") with 3 in L.
      change (List.length (@nil string)) with 0 in L. lia.
Qed.

Lemma climb_enough_fuel (start : string) :
  Path.isAbsolute (cwd env) = true ->
  climb env (climbFuel env start) rootPath start [] JsSet.empty <> None.
Proof.
  intros Hcwd. unfold climbFuel.
  replace (String.length (cwd env) + String.length start + 8)
    with (S (String.length (cwd env) + String.length start + 7)) by lia.
  rewrite climb_unfold.
  destruct (String.eqb start EmptyString) eqn:Hstart; [discriminate|].
  destruct (_ && _ && _); [|discriminate].
  destruct (resolve_parent_normal start Hcwd Hstart)
    as (segs & -> & Hsegs & Hlen).
  apply climb_from_segments; [assumption | lia].
Qed.

(** ** What the climb leaves *)

Lemma climb_invariant (fuel : nat) (current : string)
      (chain chain' : list string) (visited visited' : JsSet.t) :
  climb env fuel rootPath current chain visited = Some (chain', visited') ->
  NoDup chain -> ~ In rootPath chain ->
  (forall p, JsSet.has p visited = true <-> In p chain) ->
  NoDup chain' /\ ~ In rootPath chain'
  /\ (forall p, JsSet.has p visited' = true <-> In p chain').
Proof.
  revert current chain visited.
  induction fuel as [|fuel IH]; intros current chain visited;
    rewrite climb_unfold;
    destruct (String.eqb current EmptyString) eqn:E1;
    destruct (String.eqb current rootPath) eqn:E2;
    destruct (JsSet.has current visited) eqn:E3; simpl;
    try discriminate; try (intros [= <- <-]; tauto).
  intros Hclimb Hnd Hroot Hvis.
  apply (IH _ _ _ Hclimb).
  - constructor; [|assumption]. rewrite <- Hvis. congruence.
  - apply String.eqb_neq in E2. simpl. intuition congruence.
  - intros p. rewrite jsSet_has_add, orb_true_iff, String.eqb_eq, Hvis.
    simpl. intuition congruence.
Qed.

End Climb.

(** ** What the cascade records *)

Section Cascade.
Variable env : Env.
Variable selectedPath : string.

Lemma loadChainConfig_paths (acc acc' : Collected) (dirPath : string) :
  loadChainConfig env selectedPath acc dirPath = Done acc' ->
  paths acc' = paths acc ++ [dirPath] \/ paths acc' = paths acc.
Proof.
  unfold loadChainConfig.
  destruct (existsSync env _); [|intros [= <-]; now right].
  destruct (readConfig env _); try discriminate.
  intros [= <-]. now left.
Qed.

(** The ancestors recorded are directories of the chain, each once. *)
Lemma loadChain_paths (dirs : list string) (acc acc' : Collected) :
  foldM (loadChainConfig env selectedPath) dirs acc = Done acc' ->
  NoDup dirs ->
  exists recorded,
    paths acc' = paths acc ++ recorded
    /\ NoDup recorded /\ incl recorded dirs.
Proof.
  revert acc. induction dirs as [|d dirs IH]; intros acc; simpl.
  - intros [= <-] _. exists []. rewrite app_nil_r.
    repeat split; [constructor | apply incl_refl].
  - destruct (loadChainConfig env selectedPath acc d) as [acc1| | | |] eqn:E;
      try discriminate.
    simpl. intros Hrest Hnd. inversion Hnd as [|? ? Hnotin Hnd']; subst.
    destruct (IH acc1 Hrest Hnd') as (l & Hl & Hndl & Hincl).
    destruct (loadChainConfig_paths _ _ _ E) as [H1 | H1]; rewrite H1 in Hl.
    + exists (d :: l). rewrite <- app_assoc in Hl. split; [exact Hl|].
      split.
      * constructor; [|assumption]. intros Hin. now apply Hincl in Hin.
      * intros p [<- | Hp]; [now left | right; now apply Hincl].
    + exists l. split; [exact Hl|]. split; [assumption|].
      intros p Hp. right. now apply Hincl.
Qed.

Lemma loadCopyFromConfig_paths (acc acc' : Collected)
      (visited visited' processed processed' : JsSet.t) (copyPath : string) :
  loadCopyFromConfig env selectedPath (acc, visited, processed) copyPath
  = Done (acc', visited', processed') ->
  (paths acc' = paths acc /\ visited' = visited)
  \/ exists resolved,
       JsSet.has resolved visited = false
       /\ visited' = JsSet.add resolved visited
       /\ (paths acc' = paths acc ++ [resolved] \/ paths acc' = paths acc).
Proof.
  unfold loadCopyFromConfig.
  set (resolved := Path.resolve (cwd env) [selectedPath; copyPath]).
  destruct (JsSet.has resolved visited) eqn:Hvis; simpl;
    [intros [= <- <- <-]; now left|].
  destruct (negb (JsSet.has resolved processed) && existsSync env resolved);
    [|intros [= <- <- <-]; now left].
  intros Hstep. right. exists resolved. split; [assumption|].
  destruct (existsSync env _); [|injection Hstep as <- <- <-; auto].
  destruct (readConfig env _); try discriminate.
  injection Hstep as <- <- <-. auto.
Qed.

(** The borrowed directories recorded were not visited before, and are
    recorded once each. *)
Lemma loadCopyFrom_paths (copyPaths : list string) (acc acc' : Collected)
      (visited visited' processed processed' : JsSet.t) :
  foldM (loadCopyFromConfig env selectedPath) copyPaths
        (acc, visited, processed)
  = Done (acc', visited', processed') ->
  exists recorded,
    paths acc' = paths acc ++ recorded
    /\ NoDup recorded
    /\ (forall p, In p recorded -> JsSet.has p visited = false)
    /\ (forall p, In p recorded -> JsSet.has p visited' = true)
    /\ (forall p, JsSet.has p visited = true -> JsSet.has p visited' = true).
Proof.
  revert acc visited processed.
  induction copyPaths as [|cp cps IH]; intros acc visited processed;
    cbn [foldM].
  - intros [= <- <- <-]. exists []. rewrite app_nil_r.
    repeat split; try constructor; simpl; tauto.
  - destruct (loadCopyFromConfig env selectedPath (acc, visited, processed) cp)
      as [[[acc1 visited1] processed1]| | | |] eqn:E; try discriminate.
    cbn [bind]. intros Hrest.
    destruct (IH _ _ _ Hrest) as (l & Hl & Hnd & Hnew & Hseen & Hmono).
    apply loadCopyFromConfig_paths in E.
    destruct E as [[Hp ->] | (r & Hr & -> & Hp)].
    + exists l. rewrite Hp in Hl. repeat split; assumption.
    + assert (Hgrow : forall p, JsSet.has p visited = true ->
                                JsSet.has p (JsSet.add r visited) = true).
      { intros p Hp'. rewrite jsSet_has_add, Hp'. apply orb_true_r. }
      assert (Hold : forall p, In p l -> JsSet.has p visited = false).
      { intros p Hin. apply Hnew in Hin.
        rewrite jsSet_has_add in Hin. now apply orb_false_iff in Hin. }
      destruct Hp as [Hp | Hp]; rewrite Hp in Hl.
      * exists (r :: l). rewrite <- app_assoc in Hl.
        split; [exact Hl|]. split; [|split; [|split]].
        -- constructor; [|assumption]. intros Hin. apply Hnew in Hin.
           now rewrite jsSet_has_add, String.eqb_refl in Hin.
        -- intros p [<- | Hin]; auto.
        -- intros p [<- | Hin]; [|auto].
           apply Hmono. now rewrite jsSet_has_add, String.eqb_refl.
        -- auto.
      * exists l. repeat split; try assumption. auto.
Qed.

Lemma foldM_not_outOfFuel {A S : Type} (f : S -> A -> Outcome S)
      (xs : list A) (s : S) :
  (forall s' x, f s' x <> OutOfFuel) -> foldM f xs s <> OutOfFuel.
Proof.
  intros Hf. revert s. induction xs as [|x xs IH]; intros s; simpl;
    [discriminate|].
  pose proof (Hf s x) as Hx. destruct (f s x); simpl; try discriminate;
    [apply IH | contradiction].
Qed.

End Cascade.

(** X10.  The walk from the selected directory up to the root ends: in a
    process whose working directory is absolute, whatever the selected path
    and the root, the loop stops within the bound the model gives it, so
    collecting the cascade never runs out of rounds. *)
Theorem collectAllConfigs_fuel (env : Env) (selectedDir : DirectoryNode)
        (rootPath : string) :
  Path.isAbsolute (cwd env) = true ->
  collectAllConfigs env selectedDir rootPath <> OutOfFuel.
Proof.
  intros Hcwd. unfold collectAllConfigs.
  pose proof (climb_enough_fuel env rootPath (nodePath selectedDir) Hcwd)
    as Hclimb.
  destruct (climb env _ rootPath (nodePath selectedDir) [] JsSet.empty)
    as [[chain visited]|]; [clear Hclimb | contradiction].
  pose proof (foldM_not_outOfFuel
                (loadChainConfig env (nodePath selectedDir))
                (rootPath :: chain) (mkCollected [] [] None)) as Hchain.
  destruct (foldM (loadChainConfig env (nodePath selectedDir)) _ _)
    as [acc| | | |]; try discriminate.
  - simpl bind. destruct (copyFromOf (selectedDirConfig acc)) as [cps|];
      [|discriminate].
    pose proof (foldM_not_outOfFuel
                  (loadCopyFromConfig env (nodePath selectedDir))
                  cps (acc, visited, JsSet.empty)) as Hcopy.
    destruct (foldM (loadCopyFromConfig env (nodePath selectedDir)) _ _)
      as [[[acc' v'] p']| | | |]; try discriminate.
    exfalso. apply Hcopy; [|reflexivity].
    intros [[a v] p] x. unfold loadCopyFromConfig.
    repeat match goal with
           | |- context [if ?b then _ else _] => destruct b
           | |- context [match readConfig ?e ?q with _ => _ end] =>
               destruct (readConfig e q)
           end; discriminate.
  - exfalso. apply Hchain; [|reflexivity].
    intros a x. unfold loadChainConfig.
    repeat match goal with
           | |- context [if ?b then _ else _] => destruct b
           | |- context [match readConfig ?e ?q with _ => _ end] =>
               destruct (readConfig e q)
           end; discriminate.
Qed.

(* ================================================================== *)
(** * Arguments, template source, cached templates *)

Section Front.

Lemma positionalArgs_update (l1 l2 : list string) :
  positionalArgs (l1 ++ "--update" :: l2) = positionalArgs (l1 ++ l2).
Proof. unfold positionalArgs. now rewrite !filter_app. Qed.

Lemma updateFlag_update (l1 l2 : list string) :
  updateFlag (l1 ++ "--update" :: l2) = true.
Proof.
  unfold updateFlag. rewrite existsb_app. simpl. apply orb_true_r.
Qed.

Lemma spanNoSlash_inv (s a b : string) :
  spanNoSlash s = (a, b) ->
  s = (a ++ b)%string /\ Path.slashFree a = true
  /\ (b = EmptyString \/ exists b', b = String "/" b').
Proof.
  revert a b. induction s as [|c s IH]; simpl; intros a b.
  - intros [= <- <-]. auto.
  - destruct (Ascii.eqb c "/") eqn:E.
    + apply Ascii.eqb_eq in E. subst c. intros [= <- <-]. eauto.
    + destruct (spanNoSlash s) as [a' b'] eqn:Hs. intros [= <- <-].
      destruct (IH a' b' eq_refl) as (-> & Hfree & Hb).
      simpl. now rewrite E, Hfree.
Qed.

Lemma spanNoSlash_all (a : string) :
  Path.slashFree a = true -> spanNoSlash a = (a, EmptyString).
Proof.
  induction a as [|c a IH]; simpl; [reflexivity|].
  rewrite andb_true_iff, negb_true_iff. intros [-> Ha]. now rewrite IH.
Qed.

Lemma spanNoSlash_slash (a b : string) :
  Path.slashFree a = true ->
  spanNoSlash (a ++ String "/" b) = (a, String "/" b).
Proof.
  induction a as [|c a IH]; simpl; [reflexivity|].
  rewrite andb_true_iff, negb_true_iff. intros [-> Ha]. now rewrite IH.
Qed.

(** The pattern accepts [owner/name] and [owner/name/path], and nothing
    else. *)
Lemma matchRepoRef_iff (s owner repoName : string) (sub : option string) :
  matchRepoRef s = Some (owner, repoName, sub)
  <-> Path.slashFree owner = true /\ owner <> EmptyString
      /\ Path.slashFree repoName = true /\ repoName <> EmptyString
      /\ match sub with
         | None => s = (owner ++ "/" ++ repoName)%string
         | Some t =>
             exists inner,
               t = String "/" inner
               /\ hasLineTerminator inner = false
               /\ s = (owner ++ "/" ++ repoName ++ t)%string
         end.
Proof.
  unfold matchRepoRef. split.
  - destruct (spanNoSlash s) as [o r1] eqn:H1.
    apply spanNoSlash_inv in H1. destruct H1 as (-> & Ho & Hr1).
    destruct (String.eqb o EmptyString) eqn:Eo; [discriminate|].
    apply String.eqb_neq in Eo.
    destruct Hr1 as [-> | [r2 ->]]; [discriminate|].
    destruct (spanNoSlash r2) as [n r3] eqn:H2.
    apply spanNoSlash_inv in H2. destruct H2 as (-> & Hn & Hr3).
    destruct (String.eqb n EmptyString) eqn:En; [discriminate|].
    apply String.eqb_neq in En.
    destruct Hr3 as [-> | [inner ->]].
    + intros [= <- <- <-]. repeat split; try assumption.
      simpl. now rewrite string_append_empty.
    + destruct (hasLineTerminator inner) eqn:Hlt; [discriminate|].
      intros [= <- <- <-]. repeat split; try assumption.
      exists inner. auto.
  - intros (Ho & Hone & Hn & Hnne & Hs).
    apply String.eqb_neq in Hone, Hnne.
    destruct sub as [t|].
    + destruct Hs as (inner & -> & Hlt & ->).
      change (owner ++ "/" ++ repoName ++ String "/" inner)%string
        with (owner ++ String "/" (repoName ++ String "/" inner))%string.
      rewrite spanNoSlash_slash, Hone by assumption.
      now rewrite spanNoSlash_slash, Hnne, Hlt by assumption.
    + subst s.
      change (owner ++ "/" ++ repoName)%string
        with (owner ++ String "/" repoName)%string.
      rewrite spanNoSlash_slash, Hone by assumption.
      now rewrite spanNoSlash_all, Hnne by assumption.
Qed.

End Front.

(** X1.  The arguments: [--update] may stand anywhere.  Unless the first of
    the other arguments is [clean], putting [--update] between any two of
    them gives the same template and output arguments, with the update flag
    set. *)
Theorem parseArgs_update_anywhere (l1 l2 : list string) :
  hd_error (l1 ++ l2) <> Some "clean" ->
  parseArgs (l1 ++ "--update" :: l2)
  = Run (nth_error (positionalArgs (l1 ++ l2)) 0)
        (nth_error (positionalArgs (l1 ++ l2)) 1)
        true.
Proof.
  intros Hclean. unfold parseArgs.
  rewrite positionalArgs_update, updateFlag_update.
  destruct l1 as [|a l1]; [reflexivity|]. simpl in *.
  destruct (String.eqb a "clean") eqn:E; [|reflexivity].
  apply String.eqb_eq in E. congruence.
Qed.

Lemma parseArgs_update_anywhere_witness :
  parseArgs (["tpl"] ++ "--update" :: ["out"])
  = Run (nth_error (positionalArgs (["tpl"] ++ ["out"])) 0)
        (nth_error (positionalArgs (["tpl"] ++ ["out"])) 1)
        true.
Proof.
  apply (parseArgs_update_anywhere ["tpl"] ["out"]). discriminate.
Defined.

(** X2.  A template argument that names nothing on disk is read as a
    repository reference exactly when, the prefix [gh:] taken off, it is
    written [owner/name] or [owner/name/path], with [owner] and [name] not
    empty and free of slashes and [path] free of line terminators; the
    result is then the repository [owner/name] and that path.  Anything
    else that names nothing on disk is refused with the one error. *)
Theorem parseTemplateSource_reference (env : Env) (raw : string) :
  (forall repo sub,
      parseTemplateSource env raw = Done (GithubSource repo sub)
      <-> existsSync env (Path.resolve (cwd env) [raw]) = false
          /\ exists owner repoName,
               Path.slashFree owner = true /\ owner <> EmptyString
               /\ Path.slashFree repoName = true /\ repoName <> EmptyString
               /\ repo = (owner ++ "/" ++ repoName)%string
               /\ match sub with
                  | Some p => hasLineTerminator p = false
                  | None => True
                  end
               /\ stripGh raw = writeRepoRef owner repoName sub)
  /\ (forall e,
         parseTemplateSource env raw = Throw e
         <-> e = badTemplateError
             /\ existsSync env (Path.resolve (cwd env) [raw]) = false
             /\ matchRepoRef (stripGh raw) = None)
  /\ (forall root,
         parseTemplateSource env raw = Done (LocalSource root)
         <-> root = Path.resolve (cwd env) [raw]
             /\ existsSync env root = true).
Proof.
  unfold parseTemplateSource. split; [|split].
  - intros repo sub.
    destruct (existsSync env _); [split; [discriminate | intros [? _]; discriminate]|].
    split.
    + destruct (matchRepoRef (stripGh raw)) as [[[o n] t]|] eqn:Hm;
        [|discriminate].
      apply matchRepoRef_iff in Hm.
      destruct Hm as (Ho & Hone & Hn & Hnne & Hs).
      intros [= <- <-]. split; [reflexivity|]. exists o, n.
      repeat split; try assumption.
      * destruct t as [t|]; [|exact I].
        destruct Hs as (inner & -> & Hlt & _). exact Hlt.
      * unfold writeRepoRef. destruct t as [t|]; simpl.
        -- destruct Hs as (inner & -> & _ & ->). reflexivity.
        -- rewrite Hs. now rewrite string_append_empty.
    + intros (_ & o & n & Ho & Hone & Hn & Hnne & -> & Hsub & Hraw).
      assert (Hm : matchRepoRef (stripGh raw)
                   = Some (o, n, option_map (String "/") sub)).
      { apply matchRepoRef_iff. repeat split; try assumption.
        rewrite Hraw. unfold writeRepoRef. destruct sub as [p|]; simpl.
        - exists p. auto.
        - now rewrite string_append_empty. }
      rewrite Hm. now destruct sub.
  - intros e. destruct (existsSync env _);
      [split; [discriminate | intros (_ & ? & _); discriminate]|].
    destruct (matchRepoRef (stripGh raw)) as [[[o n] t]|].
    + split; [discriminate | intros (_ & _ & ?); discriminate].
    + split; [intros [= <-]; auto | intros (-> & _); reflexivity].
  - intros root. destruct (existsSync env _) eqn:Hex.
    + split; [intros [= <-]; auto | intros [-> _]; reflexivity].
    + split.
      * destruct (matchRepoRef (stripGh raw)) as [[[o n] t]|]; discriminate.
      * intros [-> H]. congruence.
Qed.

(* ================================================================== *)
(** * Cached templates *)

Section Cache.

Lemma replaceFirst_slash (a b rep : string) :
  Path.slashFree a = true ->
  Str.replaceFirst "/" rep (a ++ String "/" b) = (a ++ rep ++ b)%string.
Proof.
  induction a as [|c a IH]; intros Ha.
  - simpl. now destruct b.
  - simpl in Ha. apply andb_true_iff in Ha. destruct Ha as [Hc Ha].
    apply negb_true_iff in Hc.
    cbn [Str.replaceFirst String.append String.prefix].
    destruct (ascii_dec "/" c) as [<- | _]; [discriminate|].
    now rewrite (IH Ha).
Qed.

Lemma splitUnderscores_nonempty (s : string) : splitUnderscores s <> [].
Proof.
  destruct s as [|c [|d s]]; simpl; try discriminate.
  destruct (Ascii.eqb c "_" && Ascii.eqb d "_"); [discriminate|].
  destruct (match s with EmptyString => _ | String _ _ => _ end);
    discriminate.
Qed.

Lemma splitUnderscores_free (s : string) :
  underscoreFree s = true -> splitUnderscores s = [s].
Proof.
  induction s as [|c s IH]; [reflexivity|].
  cbn [underscoreFree]. rewrite andb_true_iff, negb_true_iff.
  intros [Hc Hs]. specialize (IH Hs).
  destruct s as [|d s]; [reflexivity|].
  change (splitUnderscores (String c (String d s)))
    with (if Ascii.eqb c "_" && Ascii.eqb d "_"
          then EmptyString :: splitUnderscores s
          else match splitUnderscores (String d s) with
               | [] => [String c EmptyString]
               | h :: t => String c h :: t
               end).
  now rewrite Hc, IH.
Qed.

Lemma splitUnderscores_pair (a b : string) :
  underscoreFree a = true -> underscoreFree b = true ->
  splitUnderscores (a ++ String "_" (String "_" b)) = [a; b].
Proof.
  intros Ha Hb. induction a as [|c a IH].
  - simpl. now rewrite splitUnderscores_free.
  - cbn [underscoreFree] in Ha. apply andb_true_iff in Ha.
    destruct Ha as [Hc Ha]. apply negb_true_iff in Hc. specialize (IH Ha).
    cbn [String.append].
    destruct (a ++ String "_" (String "_" b))%string as [|d s] eqn:Hs;
      [destruct a; discriminate|].
    change (splitUnderscores (String c (String d s)))
      with (if Ascii.eqb c "_" && Ascii.eqb d "_"
            then EmptyString :: splitUnderscores s
            else match splitUnderscores (String d s) with
                 | [] => [String c EmptyString]
                 | h :: t => String c h :: t
                 end).
    now rewrite Hc, IH.
Qed.

End Cache.

(** X3.  The cache directory of a repository names it back: for an owner and
    a repository name that are not empty and hold no underscore (and no
    slash in the owner), the segments of the cache directory name are the
    owner and the name, and joined by a slash they give the repository. *)
Theorem cacheDirName_roundtrip (owner repoName : string) :
  Path.slashFree owner = true ->
  underscoreFree owner = true -> underscoreFree repoName = true ->
  owner <> EmptyString -> repoName <> EmptyString ->
  cacheDirName (owner ++ "/" ++ repoName) = (owner ++ "__" ++ repoName)%string
  /\ cacheSegments (cacheDirName (owner ++ "/" ++ repoName))
     = [owner; repoName]
  /\ String.concat "/"
       (cacheSegments (cacheDirName (owner ++ "/" ++ repoName)))
     = (owner ++ "/" ++ repoName)%string.
Proof.
  intros Hslash Ho Hn Hone Hnne.
  assert (Hname : cacheDirName (owner ++ "/" ++ repoName)
                  = (owner ++ "__" ++ repoName)%string)
    by (unfold cacheDirName; now apply replaceFirst_slash).
  assert (Hsegs : cacheSegments (cacheDirName (owner ++ "/" ++ repoName))
                  = [owner; repoName]).
  { rewrite Hname. unfold cacheSegments.
    change (owner ++ "__" ++ repoName)%string
      with (owner ++ String "_" (String "_" repoName))%string.
    rewrite splitUnderscores_pair by assumption. simpl.
    apply String.eqb_neq in Hone, Hnne. now rewrite Hone, Hnne. }
  split; [exact Hname|]. split; [exact Hsegs|]. now rewrite Hsegs.
Qed.

Lemma cacheDirName_roundtrip_witness :
  cacheDirName ("octo" ++ "/" ++ "starter") = ("octo" ++ "__" ++ "starter")%string
  /\ cacheSegments (cacheDirName ("octo" ++ "/" ++ "starter"))
     = ["octo"; "starter"]
  /\ String.concat "/"
       (cacheSegments (cacheDirName ("octo" ++ "/" ++ "starter")))
     = ("octo" ++ "/" ++ "starter")%string.
Proof.
  apply (cacheDirName_roundtrip "octo" "starter");
    try reflexivity; discriminate.
Defined.

Section TemplateTree.

Lemma insertTemplate_two (tree : TemplateNode) (path owner repoName : string) :
  cacheSegments path = [owner; repoName] ->
  insertTemplate tree path
  = let ownerNode :=
      match JsMap.get owner (templateChildren tree) with
      | Some c => c
      | None => mkTemplateNode owner JsMap.empty None
      end in
    let leaf :=
      match JsMap.get repoName (templateChildren ownerNode) with
      | Some c => c
      | None => mkTemplateNode repoName JsMap.empty
                               (Some (owner ++ "/" ++ repoName)%string)
      end in
    mkTemplateNode
      (templateName tree)
      (JsMap.set owner
         (mkTemplateNode (templateName ownerNode)
                         (JsMap.set repoName leaf
                                    (templateChildren ownerNode))
                         (fullPath ownerNode))
         (templateChildren tree))
      (fullPath tree).
Proof.
  intros Hsegs. unfold insertTemplate. rewrite Hsegs. simpl.
  destruct (JsMap.get owner (templateChildren tree)) as [c|]; simpl.
  - destruct (JsMap.get repoName (templateChildren c)) as [g|];
      simpl; now destruct g || reflexivity.
  - reflexivity.
Qed.

Lemma insertTemplate_twoLevel (tree : TemplateNode)
      (path owner repoName : string) :
  cacheSegments path = [owner; repoName] ->
  TwoLevel tree ->
  TwoLevel (insertTemplate tree path)
  /\ Offers (insertTemplate tree path) owner repoName
  /\ (forall o n, Offers tree o n -> Offers (insertTemplate tree path) o n).
Proof.
  intros Hsegs Htwo. rewrite (insertTemplate_two _ _ _ _ Hsegs).
  cbv zeta.
  set (ownerNode := match JsMap.get owner (templateChildren tree) with
                    | Some c => c
                    | None => mkTemplateNode owner JsMap.empty None
                    end).
  set (leaf := match JsMap.get repoName (templateChildren ownerNode) with
               | Some c => c
               | None => mkTemplateNode repoName JsMap.empty
                           (Some (owner ++ "/" ++ repoName)%string)
               end).
  assert (Hnode : fullPath ownerNode = None
                  /\ forall n l,
                       JsMap.get n (templateChildren ownerNode) = Some l ->
                       fullPath l = Some (owner ++ "/" ++ n)%string).
  { subst ownerNode.
    destruct (JsMap.get owner (templateChildren tree)) as [c|] eqn:Hc.
    - exact (Htwo owner c Hc).
    - split; [reflexivity | discriminate]. }
  assert (Hleaf : fullPath leaf = Some (owner ++ "/" ++ repoName)%string).
  { subst leaf.
    destruct (JsMap.get repoName (templateChildren ownerNode)) as [g|] eqn:Hg.
    - exact (proj2 Hnode repoName g Hg).
    - reflexivity. }
  split; [|split].
  - intros o c. simpl. rewrite get_set.
    destruct (String.eqb owner o) eqn:E.
    + apply String.eqb_eq in E. subst o. intros [= <-]. simpl.
      split; [exact (proj1 Hnode)|].
      intros n l. rewrite get_set.
      destruct (String.eqb repoName n) eqn:E'.
      * apply String.eqb_eq in E'. subst n. now intros [= <-].
      * exact (proj2 Hnode n l).
    + exact (Htwo o c).
  - eexists. eexists. simpl. rewrite get_set, String.eqb_refl.
    split; [reflexivity|]. simpl. now rewrite get_set, String.eqb_refl.
  - intros o n (c & l & Hc & Hl). unfold Offers. simpl. rewrite get_set.
    destruct (String.eqb owner o) eqn:E.
    + apply String.eqb_eq in E. subst o.
      assert (ownerNode = c) as Heq by (subst ownerNode; now rewrite Hc).
      destruct (String.eqb repoName n) eqn:E'.
      * eexists. exists leaf. split; [reflexivity|]. simpl.
        now rewrite get_set, E'.
      * eexists. exists l. split; [reflexivity|]. simpl.
        rewrite get_set, E', Heq. exact Hl.
    + now exists c, l.
Qed.

Lemma buildTemplateTree_from (paths : list string) (tree : TemplateNode) :
  (forall p, In p paths -> twoSegments p) ->
  TwoLevel tree ->
  TwoLevel (fold_left insertTemplate paths tree)
  /\ (forall o n, Offers tree o n ->
                  Offers (fold_left insertTemplate paths tree) o n)
  /\ (forall p o n, In p paths -> cacheSegments p = [o; n] ->
                    Offers (fold_left insertTemplate paths tree) o n).
Proof.
  revert tree. induction paths as [|p paths IH]; intros tree Hall Htwo.
  - simpl. split; [exact Htwo | split; [auto | intros ? ? ? []]].
  - simpl.
    destruct (Hall p (or_introl eq_refl)) as (o0 & n0 & Hp).
    destruct (insertTemplate_twoLevel tree p o0 n0 Hp Htwo)
      as (Htwo' & Hnew & Hkeep).
    destruct (IH (insertTemplate tree p)) as (H1 & H2 & H3);
      [intros q Hq; apply Hall; now right | assumption |].
    split; [exact H1|]. split; [auto|].
    intros q o n [<- | Hq] Hsegs.
    + rewrite Hp in Hsegs. injection Hsegs as <- <-. auto.
    + eauto.
Qed.

Lemma selectTemplate_unfold (node : TemplateNode)
      (currentPath : list string) (script : Script) :
  selectTemplate node currentPath script
  = match script with
    | [] => (NoAnswer, [])
    | Cancel :: rest => (Exit 0, rest)
    | Pick picked :: rest =>
        match JsMap.get picked (templateChildren node) with
        | None => (Throw missingNodeError, rest)
        | Some selectedNode =>
            if truthy (fullPath selectedNode)
            then (match fullPath selectedNode with
                  | Some p => Done p
                  | None => NoAnswer
                  end, rest)
            else selectTemplate selectedNode (currentPath ++ [picked]) rest
        end
    | _ :: rest => (NoAnswer, rest)
    end.
Proof.
  destruct node as [nm kids fp].
  destruct script as [|[| picked | |] rest]; try reflexivity.
  simpl. induction kids as [|[k child] kids IH]; simpl; [reflexivity|].
  destruct (String.eqb k picked); [|exact IH].
  destruct (fullPath child) as [p|]; simpl; [|reflexivity].
  now destruct (String.eqb p EmptyString).
Qed.

(** No segment of a cached name begins with two underscores. *)
Lemma splitUnderscores_heads (n : nat) (s : string) :
  String.length s <= n ->
  Forall (fun piece => String.prefix "__" piece = false)
         (splitUnderscores s)
  /\ match s, splitUnderscores s with
     | String c _, h :: _ =>
         h = EmptyString \/ exists h', h = String c h'
     | _, _ => True
     end.
Proof.
  revert s. induction n as [|n IH]; intros s Hlen.
  - destruct s; [|simpl in Hlen; lia]. simpl. now repeat constructor.
  - destruct s as [|c [|d s]].
    + simpl. now repeat constructor.
    + simpl. split; [|eauto].
      constructor; [|constructor].
      destruct (String.prefix "__" (String c EmptyString)) eqn:P;
        [|reflexivity].
      apply prefix_iff in P. destruct P as [r Hr]. discriminate.
    + change (splitUnderscores (String c (String d s)))
        with (if Ascii.eqb c "_" && Ascii.eqb d "_"
              then EmptyString :: splitUnderscores s
              else match splitUnderscores (String d s) with
                   | [] => [String c EmptyString]
                   | h :: t => String c h :: t
                   end).
      simpl in Hlen.
      destruct (Ascii.eqb c "_" && Ascii.eqb d "_") eqn:E.
      * destruct (IH s) as [Hs _]; [lia|].
        split; [now constructor | auto].
      * destruct (IH (String d s)) as [Hs Hhead]; [simpl; lia|].
        destruct (splitUnderscores (String d s)) as [|h t] eqn:Hsplit;
          [now apply splitUnderscores_nonempty in Hsplit|].
        inversion Hs as [|? ? Hh Ht]; subst.
        split; [|eauto]. constructor; [|assumption].
        destruct (String.prefix "__" (String c h)) eqn:P; [|reflexivity].
        apply prefix_iff in P. destruct P as [r Hr].
        injection Hr as -> ->.
        destruct Hhead as [Hh' | [h' Hh']]; [discriminate|].
        injection Hh' as <- _. discriminate.
Qed.

Lemma cacheSegments_not_manual (path segment : string) :
  In segment (cacheSegments path) -> segment <> manualOption.
Proof.
  unfold cacheSegments. rewrite filter_In. intros [Hin _] ->.
  destruct (splitUnderscores_heads _ path (le_n _)) as [Hall _].
  rewrite Forall_forall in Hall. now apply Hall in Hin.
Qed.

End TemplateTree.

(** X4.  Every cached repository can be picked back.  When the cache root
    holds only directories named after an owner and a repository, and no
    template argument is given, answering the owner and then the repository
    name of one of them returns [owner/name], the reference
    [parseTemplateSource] reads. *)
Theorem pickTemplateArg_cached (env : Env) (cacheRoot : string)
        (encode : jsstring -> string) (entries : list Dirent)
        (path owner repoName : string) (rest : Script) :
  readdir env cacheRoot = Some entries ->
  (forall p, In p (cachedNames entries) -> twoSegments p) ->
  In path (cachedNames entries) ->
  cacheSegments path = [owner; repoName] ->
  pickTemplateArg env cacheRoot encode None
                  (Pick owner :: Pick repoName :: rest)
  = (Done (owner ++ "/" ++ repoName)%string, rest).
Proof.
  intros Hdir Hall Hin Hsegs. unfold pickTemplateArg. simpl truthy.
  cbv iota. rewrite Hdir. cbv zeta.
  destruct (buildTemplateTree_from (cachedNames entries)
              (mkTemplateNode "root" JsMap.empty None) Hall)
    as (Htwo & _ & Hoffers); [intros ? ? [=]|].
  fold (buildTemplateTree (cachedNames entries)) in Htwo, Hoffers.
  destruct (Hoffers path owner repoName Hin Hsegs)
    as (ownerNode & leaf & Ho & Hl).
  destruct (cachedNames entries) as [|c0 cs] eqn:Hc; [destruct Hin|].
  cbn [List.length Nat.eqb]. rewrite <- Hc in *.
  destruct (templateChildren (buildTemplateTree (cachedNames entries)))
    as [|kv kids] eqn:Hkids; [discriminate|].
  cbn [JsMap.size List.length Nat.eqb].
  assert (Hmanual : String.eqb owner manualOption = false).
  { apply String.eqb_neq. apply (cacheSegments_not_manual path).
    rewrite Hsegs. now left. }
  rewrite Hmanual, Ho.
  destruct (Htwo owner ownerNode) as [Hnone Hleaves];
    [now rewrite Hkids|].
  rewrite Hnone. cbn [truthy].
  rewrite selectTemplate_unfold, Hl, (Hleaves repoName leaf Hl).
  cbn [truthy].
  destruct (String.eqb (owner ++ "/" ++ repoName) EmptyString) eqn:E;
    [|reflexivity].
  apply String.eqb_eq in E. destruct owner; discriminate.
Qed.

Lemma pickTemplateArg_cached_witness :
  pickTemplateArg (Disk.env Cached.disk) Cached.cacheRoot stringOfJs None
                  [Pick "octo"; Pick "web"; Cancel]
  = (Done ("octo" ++ "/" ++ "web")%string, [Cancel]).
Proof.
  apply (pickTemplateArg_cached (Disk.env Cached.disk) Cached.cacheRoot
           stringOfJs Cached.entries "octo__web" "octo" "web" [Cancel]).
  - reflexivity.
  - intros p Hp. simpl in Hp.
    destruct Hp as [<- | [<- | [<- | []]]];
      eexists; eexists; reflexivity.
  - simpl. auto.
  - reflexivity.
Defined.

(* ================================================================== *)
(** * The directory tree *)

Section DirTree.

Lemma in_set_inv {V : Type} (m : JsMap.t V) (k k' : string) (v v' : V) :
  In (k, v) (JsMap.set k' v' m) -> (k = k' /\ v = v') \/ In (k, v) m.
Proof.
  induction m as [|[k0 v0] m IH]; simpl.
  - intros [[= <- <-] | []]. now left.
  - destruct (String.eqb k0 k'); simpl.
    + intros [[= <- <-] | Hin]; auto.
    + intros [Heq | Hin]; [now right; left|].
      destruct (IH Hin); auto.
Qed.

Lemma keys_set_grow {V : Type} (m : JsMap.t V) (k k' : string) (v' : V) :
  In k (JsMap.keys m) -> In k (JsMap.keys (JsMap.set k' v' m)).
Proof.
  intros Hin. rewrite keys_set. destruct (JsMap.has k' m); [assumption|].
  apply in_or_app. now left.
Qed.

Lemma keys_set_new {V : Type} (m : JsMap.t V) (k : string) (v : V) :
  In k (JsMap.keys (JsMap.set k v m)).
Proof.
  apply has_true_in. unfold JsMap.has. now rewrite get_set_same.
Qed.

Variable env : Env.

Lemma buildNode_unfold (depth : nat) (nm path : string) :
  buildNode env (S depth) nm path
  = match readdir env path with
    | None => Throw ("readdir: " ++ path)%string
    | Some entries =>
        bind (foldM (addChild env depth path) entries JsMap.empty)
             (fun kids =>
                Done (mkNode nm path kids
                        (existsSync env
                           (Path.join [path; configFileName]))))
    end.
Proof. reflexivity. Qed.


Lemma addChild_keeps (depth : nat) (path : string) (entries : list Dirent)
      (acc kids : JsMap.t DirectoryNode) (entry : Dirent) :
  (forall nm p t, buildNode env depth nm p = Done t ->
                  ShowsDisk env t /\ nodeName t = nm /\ nodePath t = p) ->
  In entry entries ->
  addChild env depth path acc entry = Done kids ->
  (forall k child,
      In (k, child) acc ->
      In (mkDirent k true) entries
      /\ Str.startsWith k "." = false
      /\ nodeName child = k
      /\ nodePath child = Path.join [path; k]
      /\ ShowsDisk env child) ->
  (forall k child,
      In (k, child) kids ->
      In (mkDirent k true) entries
      /\ Str.startsWith k "." = false
      /\ nodeName child = k
      /\ nodePath child = Path.join [path; k]
      /\ ShowsDisk env child)
  /\ (forall k, In k (JsMap.keys acc) -> In k (JsMap.keys kids))
  /\ (entryIsDirectory entry = true ->
      Str.startsWith (entryName entry) "." = false ->
      In (entryName entry) (JsMap.keys kids)).
Proof.
  intros Hbuild Hentry. unfold addChild.
  destruct entry as [nm isDir]. simpl.
  destruct isDir; simpl;
    [|intros [= <-] Hacc;
      split; [exact Hacc | split; [auto | simpl; intros; congruence]]].
  destruct (Str.startsWith nm ".") eqn:Hdot; simpl;
    [intros [= <-] Hacc;
     split; [exact Hacc | split; [auto | simpl; intros; congruence]]|].
  destruct (buildNode env depth nm (Path.join [path; nm])) as [t| | | |] eqn:Ht;
    try discriminate.
  simpl. intros [= <-] Hacc.
  destruct (Hbuild _ _ _ Ht) as (Hshows & Hname & Hpath).
  split; [|split].
  - intros k child Hin. apply in_set_inv in Hin.
    destruct Hin as [[-> ->] | Hin]; [|now apply Hacc].
    repeat split; assumption.
  - intros k. apply keys_set_grow.
  - intros _ _. apply keys_set_new.
Qed.

Lemma addChildren_keep (depth : nat) (path : string)
      (entries todo : list Dirent) (acc kids : JsMap.t DirectoryNode) :
  (forall nm p t, buildNode env depth nm p = Done t ->
                  ShowsDisk env t /\ nodeName t = nm /\ nodePath t = p) ->
  incl todo entries ->
  foldM (addChild env depth path) todo acc = Done kids ->
  (forall k child,
      In (k, child) acc ->
      In (mkDirent k true) entries
      /\ Str.startsWith k "." = false
      /\ nodeName child = k
      /\ nodePath child = Path.join [path; k]
      /\ ShowsDisk env child) ->
  (forall k child,
      In (k, child) kids ->
      In (mkDirent k true) entries
      /\ Str.startsWith k "." = false
      /\ nodeName child = k
      /\ nodePath child = Path.join [path; k]
      /\ ShowsDisk env child)
  /\ (forall k, In k (JsMap.keys acc) -> In k (JsMap.keys kids))
  /\ (forall entry,
         In entry todo ->
         entryIsDirectory entry = true ->
         Str.startsWith (entryName entry) "." = false ->
         In (entryName entry) (JsMap.keys kids)).
Proof.
  intros Hbuild. revert acc.
  induction todo as [|e todo IH]; intros acc Hincl; cbn [foldM].
  - intros [= <-] Hacc. split; [exact Hacc | split; [auto | intros ? []]].
  - destruct (addChild env depth path acc e) as [acc1| | | |] eqn:He;
      try discriminate.
    cbn [bind]. intros Hrest Hacc.
    destruct (addChild_keeps depth path entries acc acc1 e Hbuild
                (Hincl e (or_introl eq_refl)) He Hacc)
      as (Hacc1 & Hgrow1 & Hnew1).
    destruct (IH acc1 (fun x Hx => Hincl x (or_intror Hx)) Hrest Hacc1)
      as (Hkids & Hgrow & Hnew).
    split; [exact Hkids|]. split; [auto|].
    intros entry [<- | Hin] Hdir Hdot; auto.
Qed.

(** The tree the builder returns shows the disk. *)
Lemma buildNode_shows (depth : nat) (nm path : string) (t : DirectoryNode) :
  buildNode env depth nm path = Done t ->
  ShowsDisk env t /\ nodeName t = nm /\ nodePath t = path.
Proof.
  revert nm path t. induction depth as [|depth IH]; intros nm path t;
    [discriminate|].
  rewrite buildNode_unfold.
  destruct (readdir env path) as [entries|] eqn:Hdir; [|discriminate].
  destruct (foldM (addChild env depth path) entries JsMap.empty)
    as [kids| | | |] eqn:Hkids; try discriminate.
  cbn [bind]. intros [= <-].
  destruct (addChildren_keep depth path entries entries JsMap.empty kids
              IH (incl_refl _) Hkids) as (Hall & _ & Hnew);
    [intros ? ? []|].
  split; [|split; reflexivity].
  now apply ShowsDiskNode with (entries := entries).
Qed.

(** On a disk that can be got through, the children of a directory are
    built, and are the same whatever the bound, once it is large enough. *)
Lemma addChildren_total (levels : nat) (path : string)
      (todo : list Dirent) (acc : JsMap.t DirectoryNode) :
  (forall nm p,
      listable env levels p = true ->
      exists t, forall depth, levels <= depth ->
                              buildNode env depth nm p = Done t) ->
  forallb
    (fun entry =>
       negb (entryIsDirectory entry
             && negb (Str.startsWith (entryName entry) "."))
       || listable env levels (Path.join [path; entryName entry]))
    todo = true ->
  exists kids, forall depth,
      levels <= depth ->
      foldM (addChild env depth path) todo acc = Done kids.
Proof.
  intros Hbuild. revert acc.
  induction todo as [|e todo IH]; intros acc; cbn [forallb foldM].
  - intros _. now exists acc.
  - rewrite andb_true_iff. intros [He Htodo]. unfold addChild at 1.
    destruct (entryIsDirectory e
              && negb (Str.startsWith (entryName e) ".")) eqn:Hdir.
    + simpl in He.
      destruct (Hbuild (entryName e) _ He) as [child Hchild].
      destruct (IH (JsMap.set (entryName e) child acc) Htodo)
        as [kids Hkids].
      exists kids. intros depth Hdepth.
      rewrite (Hchild depth Hdepth). cbn [bind]. now apply Hkids.
    + destruct (IH acc Htodo) as [kids Hkids].
      exists kids. intros depth Hdepth. cbn [bind]. now apply Hkids.
Qed.

Lemma buildNode_total (levels : nat) (nm path : string) :
  listable env levels path = true ->
  exists t, forall depth, levels <= depth ->
                          buildNode env depth nm path = Done t.
Proof.
  revert nm path. induction levels as [|levels IH]; intros nm path;
    [discriminate|].
  cbn [listable].
  destruct (readdir env path) as [entries|] eqn:Hdir; [|discriminate].
  intros Hall.
  destruct (addChildren_total levels path entries JsMap.empty IH Hall)
    as [kids Hkids].
  exists (mkNode nm path kids
                 (existsSync env (Path.join [path; configFileName]))).
  intros [|depth] Hdepth; [lia|].
  rewrite buildNode_unfold, Hdir, (Hkids depth) by lia. reflexivity.
Qed.

End DirTree.

(** X5.  On a disk where the root and the directories below it that are
    not hidden can be listed and nest less than [levels] deep, the builder
    returns a tree, the same for every bound from [levels] on, and that
    tree shows the disk from the root down: its root carries the root
    path, every node tells whether its directory owns a [creator.json],
    the children of a node are directories its listing holds, named by
    their key and placed under their parent, none with a name that begins
    with a dot, and no such directory of the listing is left out. *)
Theorem buildDirTree_shows (env : Env) (levels : nat) (rootPath : string) :
  listable env levels rootPath = true ->
  exists tree,
    (forall depth, levels <= depth ->
                   buildDirTree env depth rootPath = Done tree)
    /\ ShowsDisk env tree
    /\ nodeName tree = "." /\ nodePath tree = rootPath.
Proof.
  intros Hlist.
  destruct (buildNode_total env levels "." rootPath Hlist) as [tree Htree].
  exists tree. split; [exact Htree|].
  apply (buildNode_shows env levels). apply Htree. lia.
Qed.

Lemma buildDirTree_shows_witness :
  exists tree,
    (forall depth,
        2 <= depth ->
        buildDirTree (Disk.env Sample.borrowsRoot) depth "/r" = Done tree)
    /\ ShowsDisk (Disk.env Sample.borrowsRoot) tree
    /\ nodeName tree = "." /\ nodePath tree = "/r".
Proof.
  apply (buildDirTree_shows (Disk.env Sample.borrowsRoot) 2 "/r").
  reflexivity.
Defined.

(** X6.  The node the selector returns is reached from the root through the
    children the user picked, one answer per level and none besides: the
    answers used are picks of child names, and what is left of the script
    is untouched. *)
Theorem selectTemplateDir_walk (node : DirectoryNode)
        (pathStack : list string) (script : Script)
        (selected : DirectoryNode) (rest : Script) :
  selectTemplateDir node pathStack script = (Done selected, rest) ->
  exists picks,
    script = map Pick picks ++ rest /\ walk node picks = Some selected.
Proof.
  revert pathStack script.
  induction node as [nm path kids cfg IH] using DirectoryNode_children_ind.
  intros pathStack script. rewrite selectTemplateDir_unfold. simpl.
  destruct (negb cfg); [intros [= <- <-]; now exists []|].
  destruct (JsMap.size kids =? 0)%nat; [intros [= <- <-]; now exists []|].
  destruct script as [|[| picked | |] script']; try discriminate.
  destruct (JsMap.get picked kids) as [child|] eqn:Hget; [|discriminate].
  intros Hsel.
  destruct (IH picked child (get_some_in _ _ _ Hget) _ _ Hsel)
    as (picks & -> & Hwalk).
  exists (picked :: picks). split; [reflexivity|].
  simpl. now rewrite Hget.
Qed.

Lemma selectTemplateDir_walk_witness :
  exists picks,
    [Pick "web"; Cancel] = map Pick picks ++ [Cancel]
    /\ walk Sample.menu picks
       = Some (mkNode "web" "/r/web"
                      [("src", mkNode "src" "/r/web/src" [] false)] false).
Proof.
  apply (selectTemplateDir_walk Sample.menu [] [Pick "web"; Cancel]).
  reflexivity.
Defined.

(* ================================================================== *)
(** * The cascade, from the root down *)

Section Ancestors.
Variable env : Env.

Lemma fromSegments_inj (a b : list string) :
  Forall Path.properSegment a -> Forall Path.properSegment b ->
  Path.fromSegments a = Path.fromSegments b -> a = b.
Proof.
  intros Ha Hb Heq.
  pose proof (normalizeFrom_fromSegments false a Ha) as Hna.
  rewrite Heq, (normalizeFrom_fromSegments false b Hb) in Hna.
  rewrite <- (rev_involutive a), <- (rev_involutive b). now f_equal.
Qed.

Lemma forall_firstn {A : Type} (P : A -> Prop) (k : nat) (l : list A) :
  Forall P l -> Forall P (firstn k l).
Proof.
  intros H. revert k. induction H as [|x l Hx _ IH]; intros [|k]; simpl;
    constructor; auto.
Qed.

Lemma ancestorPaths_snoc (rootSegs extra : list string) (x : string) :
  ancestorPaths rootSegs (extra ++ [x])
  = ancestorPaths rootSegs extra
    ++ [Path.fromSegments (rootSegs ++ extra ++ [x])].
Proof.
  unfold ancestorPaths. rewrite length_app. cbn [List.length].
  rewrite Nat.add_1_r, seq_S, map_app. cbn [map]. f_equal.
  - apply map_ext_in. intros k Hk. apply in_seq in Hk.
    rewrite firstn_app.
    replace (k - List.length extra) with 0 by lia.
    cbn [firstn]. now rewrite app_nil_r.
  - rewrite firstn_all2 by (rewrite length_app; cbn [List.length]; lia).
    reflexivity.
Qed.

Lemma segments_length (segs : list string) :
  Forall Path.properSegment segs ->
  List.length segs <= String.length (String.concat "/" segs).
Proof.
  induction 1 as [|s segs (_ & Hne & _) Hrest IH]; [simpl; lia|].
  assert (1 <= String.length s) by (destruct s; [congruence | simpl; lia]).
  destruct segs as [|s' segs]; [simpl; lia|].
  change (String.concat "/" (s :: s' :: segs))
    with (s ++ String "/" (String.concat "/" (s' :: segs)))%string.
  rewrite string_length_append. simpl in *. lia.
Qed.

(** From a directory below the root, the climb collects the directories in
    between, the highest first, and stops at the root. *)
Lemma climb_ancestors (rootSegs extra : list string) (fuel : nat)
      (chain : list string) (visited : JsSet.t) :
  Forall Path.properSegment rootSegs ->
  Forall Path.properSegment extra ->
  List.length extra <= fuel ->
  (forall k, JsSet.has (Path.fromSegments (rootSegs ++ firstn k extra))
                       visited = false) ->
  exists visited',
    climb env fuel (Path.fromSegments rootSegs)
          (Path.fromSegments (rootSegs ++ extra)) chain visited
    = Some (ancestorPaths rootSegs extra ++ chain, visited').
Proof.
  intros Hroot. revert fuel chain visited.
  induction extra as [|x extra IH] using rev_ind;
    intros fuel chain visited Hextra Hfuel Hfresh.
  - exists visited. rewrite app_nil_r, climb_unfold, String.eqb_refl.
    simpl. rewrite ?andb_false_r. reflexivity.
  - apply Forall_app in Hextra. destruct Hextra as [Hextra Hx].
    rewrite length_app in Hfuel. simpl in Hfuel.
    destruct fuel as [|fuel]; [lia|].
    assert (Hall : Forall Path.properSegment (rootSegs ++ extra ++ [x])).
    { apply Forall_app. split; [assumption|].
      apply Forall_app. now split. }
    rewrite climb_unfold, fromSegments_not_empty.
    replace (String.eqb (Path.fromSegments (rootSegs ++ extra ++ [x]))
                        (Path.fromSegments rootSegs)) with false.
    2:{ symmetry. apply String.eqb_neq. intros Heq.
        apply fromSegments_inj in Heq; try assumption.
        apply (f_equal (@List.length string)) in Heq.
        rewrite !length_app in Heq. simpl in Heq. lia. }
    pose proof (Hfresh (S (List.length extra))) as Hcur.
    rewrite firstn_all2 in Hcur by (rewrite length_app; simpl; lia).
    rewrite Hcur. cbn [negb andb].
    rewrite resolve_parent by assumption.
    rewrite app_assoc, removelast_last.
    destruct (IH fuel
                (Path.fromSegments ((rootSegs ++ extra) ++ [x]) :: chain)
                (JsSet.add (Path.fromSegments ((rootSegs ++ extra) ++ [x]))
                           visited) Hextra) as [visited' Hclimb];
      [lia | |].
    + intros k. rewrite jsSet_has_add.
      pose proof (Hfresh (Nat.min k (List.length extra))) as Hk.
      rewrite firstn_app in Hk.
      replace (Nat.min k (List.length extra) - List.length extra)
        with 0 in Hk by lia.
      simpl in Hk. rewrite app_nil_r in Hk.
      rewrite <- firstn_firstn, firstn_all in Hk.
      rewrite Hk, orb_false_r. apply String.eqb_neq. intros Heq.
      apply fromSegments_inj in Heq.
      * apply (f_equal (@List.length string)) in Heq.
        rewrite !length_app, length_firstn in Heq. simpl in Heq. lia.
      * apply Forall_app. split; [assumption|].
        now apply forall_firstn.
      * now rewrite <- app_assoc.
    + exists visited'. rewrite Hclimb, ancestorPaths_snoc.
      now rewrite <- !app_assoc.
Qed.

Variable selectedPath : string.

Lemma loadChain_filter (dirs : list string) (acc acc' : Collected) :
  foldM (loadChainConfig env selectedPath) dirs acc = Done acc' ->
  paths acc' = paths acc ++ filter (ownsConfig env) dirs.
Proof.
  revert acc. induction dirs as [|d dirs IH]; intros acc; cbn [foldM].
  - intros [= <-]. now rewrite app_nil_r.
  - destruct (loadChainConfig env selectedPath acc d) as [acc1| | | |] eqn:E;
      try discriminate.
    cbn [bind]. intros Hrest. rewrite (IH _ Hrest). simpl.
    unfold loadChainConfig in E. unfold ownsConfig.
    destruct (existsSync env _); [|injection E as <-; reflexivity].
    destruct (readConfig env _); try discriminate.
    injection E as <-. simpl. now rewrite <- app_assoc.
Qed.

(** What is remembered of the selected directory after the chain has been
    loaded. *)
Lemma loadChain_selected (dirs : list string) (acc acc' : Collected) :
  foldM (loadChainConfig env selectedPath) dirs acc = Done acc' ->
  selectedDirConfig acc'
  = if existsb (String.eqb selectedPath) dirs
       && ownsConfig env selectedPath
    then match readConfig env (Path.join [selectedPath; configFileName]) with
         | ValidConfig c => Some c
         | _ => None
         end
    else selectedDirConfig acc.
Proof.
  revert acc. induction dirs as [|d dirs IH]; intros acc; cbn [foldM].
  - now intros [= <-].
  - destruct (loadChainConfig env selectedPath acc d) as [acc1| | | |] eqn:E;
      try discriminate.
    cbn [bind]. intros Hrest. rewrite (IH _ Hrest). cbn [existsb].
    unfold loadChainConfig in E. unfold ownsConfig.
    destruct (String.eqb selectedPath d) eqn:Hd.
    + apply String.eqb_eq in Hd. subst d.
      destruct (existsSync env _) eqn:Hex.
      * destruct (readConfig env _) eqn:Hread; try discriminate.
        injection E as <-. simpl. rewrite String.eqb_refl.
        now destruct (existsb _ dirs).
      * injection E as <-. now rewrite andb_false_r.
    + simpl. destruct (existsb _ dirs && _); [reflexivity|].
      destruct (existsSync env (Path.join [d; configFileName]));
        [|injection E as <-; reflexivity].
      destruct (readConfig env (Path.join [d; configFileName]));
        try discriminate.
      injection E as <-. simpl. rewrite String.eqb_sym, Hd. reflexivity.
Qed.

Lemma loadCopyFrom_selected (copyPaths : list string) (acc acc' : Collected)
      (visited visited' processed processed' : JsSet.t) :
  foldM (loadCopyFromConfig env selectedPath) copyPaths
        (acc, visited, processed)
  = Done (acc', visited', processed') ->
  selectedDirConfig acc' = selectedDirConfig acc.
Proof.
  revert acc visited processed.
  induction copyPaths as [|cp cps IH]; intros acc visited processed;
    cbn [foldM].
  - now intros [= <- <- <-].
  - destruct (loadCopyFromConfig env selectedPath (acc, visited, processed) cp)
      as [[[acc1 visited1] processed1]| | | |] eqn:E; try discriminate.
    cbn [bind]. intros Hrest. rewrite (IH _ _ _ Hrest).
    unfold loadCopyFromConfig in E.
    destruct (_ && _ && _); [|now injection E as <- <- <-].
    destruct (existsSync env _); [|now injection E as <- <- <-].
    destruct (readConfig env _); try discriminate.
    now injection E as <- <- <-.
Qed.

Lemma climb_extends (rootPath : string) (fuel : nat) (current : string)
      (chain chain' : list string) (visited visited' : JsSet.t) :
  climb env fuel rootPath current chain visited = Some (chain', visited') ->
  exists more, chain' = more ++ chain.
Proof.
  revert current chain visited.
  induction fuel as [|fuel IH]; intros current chain visited;
    rewrite climb_unfold; destruct (_ && _ && _); try discriminate;
    try (intros [= <- <-]; now exists []).
  intros Hclimb. destruct (IH _ _ _ Hclimb) as [more ->].
  exists (more ++ [current]). now rewrite <- app_assoc.
Qed.

(** The selected directory is on the chain. *)
Lemma climb_selected (rootPath : string)
      (chain : list string) (visited : JsSet.t) :
  selectedPath <> EmptyString ->
  climb env (climbFuel env selectedPath) rootPath selectedPath [] JsSet.empty
  = Some (chain, visited) ->
  existsb (String.eqb selectedPath) (rootPath :: chain) = true.
Proof.
  intros Hne. unfold climbFuel.
  replace (String.length (cwd env) + String.length selectedPath + 8)
    with (S (String.length (cwd env) + String.length selectedPath + 7))
    by lia.
  rewrite climb_unfold. apply String.eqb_neq in Hne. rewrite Hne.
  cbn [existsb].
  destruct (String.eqb selectedPath rootPath) eqn:E; [reflexivity|].
  simpl. intros Hclimb. apply climb_extends in Hclimb.
  destruct Hclimb as [more ->]. rewrite existsb_app. simpl.
  rewrite String.eqb_refl. simpl. apply orb_true_r.
Qed.

Lemma filter_both {A : Type} (g f : A -> bool) (l : list A) :
  filter (fun x => g x && f x) l = filter f (filter g l).
Proof.
  induction l as [|x l IH]; [reflexivity|]. simpl.
  destruct (g x); simpl; [|exact IH]. destruct (f x); now rewrite IH.
Qed.

Lemma filter_without (f : string -> bool) (r : string) (l : list string) :
  f r = false ->
  filter f (filter (fun y => negb (String.eqb y r)) l) = filter f l.
Proof.
  intros Hr. induction l as [|x l IH]; [reflexivity|]. simpl.
  destruct (String.eqb x r) eqn:E; simpl.
  - apply String.eqb_eq in E. subst x. now rewrite Hr.
  - now rewrite IH.
Qed.

(** What the copy-from entries add to the cascade: each directory they
    resolve to, once, unless it was visited, does not exist or owns no
    configuration file. *)
Lemma loadCopyFrom_borrowed (copyPaths : list string) (acc acc' : Collected)
      (visited visited' processed processed' : JsSet.t) :
  (forall p, JsSet.has p processed = true -> JsSet.has p visited = true) ->
  foldM (loadCopyFromConfig env selectedPath) copyPaths
        (acc, visited, processed)
  = Done (acc', visited', processed') ->
  paths acc'
  = paths acc
    ++ filter (fun p => negb (JsSet.has p visited)
                        && existsSync env p && ownsConfig env p)
         (firstOccurrences
            (map (fun copyPath =>
                    Path.resolve (cwd env) [selectedPath; copyPath])
                 copyPaths)).
Proof.
  revert acc visited processed.
  induction copyPaths as [|cp cps IH]; intros acc visited processed Hsub;
    cbn [foldM map firstOccurrences].
  - intros [= <- <- <-]. now rewrite app_nil_r.
  - set (r := Path.resolve (cwd env) [selectedPath; cp]).
    set (l := firstOccurrences _).
    destruct (loadCopyFromConfig env selectedPath (acc, visited, processed) cp)
      as [[[acc1 visited1] processed1]| | | |] eqn:E; try discriminate.
    cbn [bind]. intros Hrest.
    unfold loadCopyFromConfig in E. fold r in E.
    destruct (JsSet.has r visited) eqn:Hvis.
    { cbn in E. injection E as <- <- <-.
      rewrite (IH _ _ _ Hsub Hrest). fold l. cbn [filter].
      rewrite Hvis. cbn [negb andb]. rewrite filter_without; [reflexivity|].
      now rewrite Hvis. }
    destruct (JsSet.has r processed) eqn:Hproc;
      [apply Hsub in Hproc; congruence|].
    destruct (existsSync env r) eqn:Hex.
    2:{ cbn in E. injection E as <- <- <-.
        rewrite (IH _ _ _ Hsub Hrest). fold l. cbn [filter].
        rewrite Hvis, Hex. cbn [negb andb].
        rewrite filter_without; [reflexivity|].
        now rewrite Hex, andb_false_r. }
    cbn [negb andb] in E.
    assert (Hsub1 : forall p,
               JsSet.has p (JsSet.add r processed) = true ->
               JsSet.has p (JsSet.add r visited) = true).
    { intros p. rewrite !jsSet_has_add, !orb_true_iff.
      intros [Hp | Hp]; auto. }
    assert (Hnew : filter (fun p => negb (JsSet.has p (JsSet.add r visited))
                                    && existsSync env p && ownsConfig env p)
                          l
                   = filter (fun p => negb (JsSet.has p visited)
                                      && existsSync env p
                                      && ownsConfig env p)
                       (filter (fun y => negb (String.eqb y r)) l)).
    { rewrite <- filter_both. apply filter_ext. intros p.
      rewrite jsSet_has_add, negb_orb, !andb_assoc. reflexivity. }
    cbn [filter]. rewrite Hvis, Hex. cbn [negb andb].
    fold (ownsConfig env r) in E.
    destruct (ownsConfig env r) eqn:Hown.
    + destruct (readConfig env _); try discriminate.
      injection E as <- <- <-.
      rewrite (IH _ _ _ Hsub1 Hrest). fold l. rewrite Hnew.
      cbn [paths]. now rewrite <- app_assoc.
    + injection E as <- <- <-.
      rewrite (IH _ _ _ Hsub1 Hrest). fold l. now rewrite Hnew.
Qed.

End Ancestors.

(** X9.  What the cascade records.  With [chain] the directories the
    walk from the selected directory up to the root goes through, the paths
    recorded are the root and the directories of [chain] that own a
    configuration file, in that order, followed by the copy-from
    directories of the selected configuration (resolved against the
    selected directory, each at its first occurrence) that are not in
    [chain], exist and own a configuration file.  No directory is recorded
    twice in the first group, none twice in the second, and the only
    directory that can be in both is the template root. *)
Theorem collectAllConfigs_paths (env : Env) (selectedDir : DirectoryNode)
        (rootPath : string) (collected : Collected) :
  collectAllConfigs env selectedDir rootPath = Done collected ->
  exists chain visited,
    climb env (climbFuel env (nodePath selectedDir)) rootPath
          (nodePath selectedDir) [] JsSet.empty
    = Some (chain, visited)
    /\ paths collected
       = filter (ownsConfig env) (rootPath :: chain)
         ++ borrowedPaths env (nodePath selectedDir) chain
              (declaredCopyFrom (selectedDirConfig collected))
    /\ NoDup (filter (ownsConfig env) (rootPath :: chain))
    /\ NoDup (borrowedPaths env (nodePath selectedDir) chain
                (declaredCopyFrom (selectedDirConfig collected)))
    /\ (forall p,
          In p (filter (ownsConfig env) (rootPath :: chain)) ->
          In p (borrowedPaths env (nodePath selectedDir) chain
                  (declaredCopyFrom (selectedDirConfig collected))) ->
          p = rootPath).
Proof.
  unfold collectAllConfigs.
  destruct (climb env _ rootPath (nodePath selectedDir) [] JsSet.empty)
    as [[chain visited]|] eqn:Hclimb; [|discriminate].
  destruct (climb_invariant env rootPath _ _ _ _ _ _ Hclimb)
    as (Hnd & Hroot & Hvis);
    [constructor | simpl; tauto | simpl; intuition discriminate |].
  assert (Hhas : forall p,
             JsSet.has p visited = existsb (String.eqb p) chain).
  { intros p. apply eq_true_iff_eq. rewrite Hvis, existsb_exists.
    split.
    - intros Hin. exists p. split; [assumption | apply String.eqb_refl].
    - intros (q & Hq & E). apply String.eqb_eq in E. now subst q. }
  intros Hrun. exists chain, visited. split; [reflexivity|].
  assert (Hpaths : paths collected
                   = filter (ownsConfig env) (rootPath :: chain)
                     ++ borrowedPaths env (nodePath selectedDir) chain
                          (declaredCopyFrom (selectedDirConfig collected))).
  { destruct (foldM (loadChainConfig env (nodePath selectedDir))
                    (rootPath :: chain) (mkCollected [] [] None))
      as [acc| | | |] eqn:Hchain; try discriminate.
    apply loadChain_filter in Hchain as Hfirst. cbn [paths app] in Hfirst.
    cbn [bind] in Hrun. unfold declaredCopyFrom, borrowedPaths.
    destruct (copyFromOf (selectedDirConfig acc)) as [copyPaths|] eqn:Hcopy.
    - destruct (foldM (loadCopyFromConfig env (nodePath selectedDir))
                      copyPaths (acc, visited, JsSet.empty))
        as [[[acc' visited'] processed']| | | |] eqn:Hborrow;
        try discriminate.
      cbn [bind] in Hrun. injection Hrun as <-.
      rewrite (loadCopyFrom_selected _ _ _ _ _ _ _ _ _ Hborrow), Hcopy.
      assert (Hnone : forall p, JsSet.has p JsSet.empty = true ->
                                JsSet.has p visited = true)
        by (intros p Hp; discriminate Hp).
      rewrite (loadCopyFrom_borrowed _ _ _ _ _ _ _ _ _ Hnone Hborrow),
        Hfirst.
      f_equal. apply filter_ext. intros p. now rewrite Hhas.
    - injection Hrun as <-. rewrite Hcopy, Hfirst. cbn [map firstOccurrences].
      cbn [filter]. now rewrite app_nil_r. }
  split; [exact Hpaths|]. split; [|split].
  - apply NoDup_filter. now constructor.
  - apply NoDup_filter, firstOccurrences_nodup.
  - intros p Hin Hborrowed.
    apply filter_In in Hin. destruct Hin as [[<- | Hin] _]; [reflexivity|].
    apply filter_In in Hborrowed. destruct Hborrowed as [_ Hcond].
    rewrite !andb_true_iff, negb_true_iff in Hcond.
    destruct Hcond as [[Hnot _] _].
    rewrite <- Hhas in Hnot. apply Hvis in Hin. congruence.
Qed.

Lemma collectAllConfigs_paths_witness :
  exists collected chain visited,
    collectAllConfigs (Disk.env Sample.borrowsRoot) Sample.selectedLeaf "/r"
    = Done collected
    /\ climb (Disk.env Sample.borrowsRoot)
             (climbFuel (Disk.env Sample.borrowsRoot)
                        (nodePath Sample.selectedLeaf))
             "/r" (nodePath Sample.selectedLeaf) [] JsSet.empty
       = Some (chain, visited)
    /\ paths collected
       = filter (ownsConfig (Disk.env Sample.borrowsRoot)) ("/r" :: chain)
         ++ borrowedPaths (Disk.env Sample.borrowsRoot)
              (nodePath Sample.selectedLeaf) chain
              (declaredCopyFrom (selectedDirConfig collected))
    /\ NoDup (filter (ownsConfig (Disk.env Sample.borrowsRoot))
                     ("/r" :: chain))
    /\ NoDup (borrowedPaths (Disk.env Sample.borrowsRoot)
                (nodePath Sample.selectedLeaf) chain
                (declaredCopyFrom (selectedDirConfig collected)))
    /\ (forall p,
          In p (filter (ownsConfig (Disk.env Sample.borrowsRoot))
                       ("/r" :: chain)) ->
          In p (borrowedPaths (Disk.env Sample.borrowsRoot)
                  (nodePath Sample.selectedLeaf) chain
                  (declaredCopyFrom (selectedDirConfig collected))) ->
          p = "/r").
Proof.
  assert (E : exists c,
             collectAllConfigs (Disk.env Sample.borrowsRoot)
                               Sample.selectedLeaf "/r" = Done c)
    by (eexists; reflexivity).
  destruct E as [c E].
  destruct (collectAllConfigs_paths _ _ _ _ E) as (chain & visited & H).
  exists c, chain, visited. split; [exact E | exact H].
Defined.

Lemma collectAllConfigs_fuel_witness :
  collectAllConfigs (Disk.env Sample.nested) Sample.selectedLeaf "/r"
  <> OutOfFuel.
Proof.
  apply (collectAllConfigs_fuel (Disk.env Sample.nested)). reflexivity.
Defined.

(** X7.  The cascade follows the path from the root down.  When the selected
    directory lies [extra] below the root, the directories recorded are
    first the root and the directories in between down to the selected one,
    in that order, those that own a [creator.json]; then what the copy-from
    entries bring, which is nothing when the selected configuration declares
    no [copyFrom]. *)
Theorem collectAllConfigs_order (env : Env) (selectedDir : DirectoryNode)
        (rootSegs extra : list string) (collected : Collected) :
  Forall Path.properSegment rootSegs ->
  Forall Path.properSegment extra ->
  nodePath selectedDir = Path.fromSegments (rootSegs ++ extra) ->
  collectAllConfigs env selectedDir (Path.fromSegments rootSegs)
  = Done collected ->
  exists borrowed,
    paths collected
    = filter (ownsConfig env)
             (Path.fromSegments rootSegs :: ancestorPaths rootSegs extra)
      ++ borrowed
    /\ (copyFromOf (selectedDirConfig collected) = None -> borrowed = []).
Proof.
  intros Hroot Hextra Hpath. unfold collectAllConfigs. rewrite Hpath.
  destruct (climb_ancestors env rootSegs extra
              (climbFuel env (Path.fromSegments (rootSegs ++ extra)))
              [] JsSet.empty Hroot Hextra) as [visited Hclimb].
  - unfold climbFuel, Path.fromSegments. simpl String.length.
    pose proof (segments_length (rootSegs ++ extra)) as Hlen.
    rewrite length_app in Hlen.
    assert (Forall Path.properSegment (rootSegs ++ extra))
      by (apply Forall_app; now split).
    specialize (Hlen H). lia.
  - reflexivity.
  - rewrite Hclimb, app_nil_r.
    destruct (foldM _ (_ :: _) _) as [acc| | | |] eqn:Hchain;
      try discriminate.
    apply loadChain_filter in Hchain as Hpaths. simpl paths in Hpaths.
    cbn [bind].
    destruct (copyFromOf (selectedDirConfig acc)) as [copyPaths|] eqn:Hcopy.
    + destruct (foldM _ copyPaths _)
        as [[[acc' visited'] processed']| | | |] eqn:Hborrow;
        try discriminate.
      cbn [bind]. intros [= <-].
      destruct (loadCopyFrom_paths _ _ _ _ _ _ _ _ _ Hborrow)
        as (l & Hl & _).
      exists l. rewrite Hl, Hpaths. split; [reflexivity|].
      rewrite (loadCopyFrom_selected _ _ _ _ _ _ _ _ _ Hborrow), Hcopy.
      discriminate.
    + intros [= <-]. exists []. rewrite app_nil_r. auto.
Qed.

Lemma collectAllConfigs_order_witness :
  exists collected borrowed,
    collectAllConfigs (Disk.env Sample.nested)
                      (mkNode "t" "/r/a/t" [] true) "/r"
    = Done collected
    /\ paths collected
       = filter (ownsConfig (Disk.env Sample.nested))
                (Path.fromSegments ["r"] :: ancestorPaths ["r"] ["a"; "t"])
         ++ borrowed
    /\ (copyFromOf (selectedDirConfig collected) = None -> borrowed = []).
Proof.
  assert (E : exists c,
             collectAllConfigs (Disk.env Sample.nested)
                               (mkNode "t" "/r/a/t" [] true)
                               (Path.fromSegments ["r"]) = Done c)
    by (eexists; reflexivity).
  destruct E as [c E].
  destruct (collectAllConfigs_order
              (Disk.env Sample.nested) (mkNode "t" "/r/a/t" [] true)
              ["r"] ["a"; "t"] c) as (b & H); try exact E; try reflexivity.
  - repeat constructor; discriminate.
  - repeat constructor; discriminate.
  - exists c, b. split; [exact E | exact H].
Defined.

(** X8.  File rules come from the selected directory alone.  The
    configuration remembered as the selected one, and with it the file
    rules of the merge, is that of the [creator.json] of the selected
    directory when it owns one, and none otherwise, whatever the ancestors
    and the copy-from directories declare. *)
Theorem selected_rules_only (env : Env) (selectedDir : DirectoryNode)
        (rootPath : string) (collected : Collected) :
  nodePath selectedDir <> EmptyString ->
  collectAllConfigs env selectedDir rootPath = Done collected ->
  selectedDirConfig collected
  = (if ownsConfig env (nodePath selectedDir)
     then match readConfig env
                  (Path.join [nodePath selectedDir; configFileName]) with
          | ValidConfig c => Some c
          | _ => None
          end
     else None)
  /\ mergedFiles (mergeConfigs (configs collected)
                               (selectedDirConfig collected))
     = (if ownsConfig env (nodePath selectedDir)
        then match readConfig env
                     (Path.join [nodePath selectedDir; configFileName]) with
             | ValidConfig c => files c
             | _ => None
             end
        else None).
Proof.
  intros Hne Hcollect.
  assert (Hsel : selectedDirConfig collected
                 = if ownsConfig env (nodePath selectedDir)
                   then match readConfig env
                                (Path.join [nodePath selectedDir;
                                            configFileName]) with
                        | ValidConfig c => Some c
                        | _ => None
                        end
                   else None).
  { unfold collectAllConfigs in Hcollect.
    destruct (climb env _ rootPath (nodePath selectedDir) [] JsSet.empty)
      as [[chain visited]|] eqn:Hclimb; [|discriminate].
    apply climb_selected in Hclimb; [|assumption].
    destruct (foldM _ (rootPath :: chain) _) as [acc| | | |] eqn:Hchain;
      try discriminate.
    apply loadChain_selected in Hchain. rewrite Hclimb in Hchain.
    simpl andb in Hchain. simpl selectedDirConfig in Hchain.
    cbn [bind] in Hcollect.
    destruct (copyFromOf (selectedDirConfig acc)) as [copyPaths|].
    - destruct (foldM _ copyPaths _)
        as [[[acc' visited'] processed']| | | |] eqn:Hborrow;
        try discriminate.
      cbn [bind] in Hcollect. injection Hcollect as <-.
      now rewrite (loadCopyFrom_selected _ _ _ _ _ _ _ _ _ Hborrow).
    - now injection Hcollect as <-. }
  split; [exact Hsel|].
  unfold mergeConfigs. simpl. rewrite Hsel.
  destruct (ownsConfig env (nodePath selectedDir)); [|reflexivity].
  now destruct (readConfig env _).
Qed.

Lemma selected_rules_only_witness :
  exists collected,
    collectAllConfigs (Disk.env Sample.nested)
                      (mkNode "shared" "/r/shared" [] false) "/r"
    = Done collected
    /\ selectedDirConfig collected = None
    /\ mergedFiles (mergeConfigs (configs collected)
                                 (selectedDirConfig collected)) = None.
Proof.
  assert (E : exists c,
             collectAllConfigs (Disk.env Sample.nested)
                               (mkNode "shared" "/r/shared" [] false) "/r"
             = Done c)
    by (eexists; reflexivity).
  destruct E as [c E]. exists c. split; [exact E|].
  refine (selected_rules_only (Disk.env Sample.nested)
            (mkNode "shared" "/r/shared" [] false) "/r" c _ E).
  discriminate.
Defined.

(* ================================================================== *)
(** * The file set, key by key *)

Section FileSetKeys.
Variable env : Env.
Variables templateRoot configDir : string.

Lemma existsb_eqb_in (k : string) (l : list string) :
  existsb (String.eqb k) l = true <-> In k l.
Proof.
  rewrite existsb_exists. split.
  - intros (x & Hx & E). apply String.eqb_eq in E. now subst.
  - intros H. exists k. now rewrite String.eqb_refl.
Qed.

Lemma get_setAll_self (val : string -> string) (xs : list string)
      (m : JsMap.t string) (k : string) :
  JsMap.get k (JsMap.setAll (fun x => x) val xs m)
  = if existsb (String.eqb k) xs then Some (val k) else JsMap.get k m.
Proof.
  destruct (existsb (String.eqb k) xs) eqn:E.
  - apply existsb_eqb_in in E.
    destruct (get_setAll_in (fun x => x) val xs m k) as (x & _ & -> & Hget);
      [now rewrite map_id | exact Hget].
  - apply get_setAll_notin. rewrite map_id. intros Hin.
    apply existsb_eqb_in in Hin. congruence.
Qed.

Lemma get_deleteAll (ks : list string) (m : JsMap.t string) (k : string) :
  NoDup (JsMap.keys m) ->
  JsMap.get k (JsMap.deleteAll ks m)
  = if existsb (String.eqb k) ks then None else JsMap.get k m.
Proof.
  intros Hnd. destruct (existsb (String.eqb k) ks) eqn:E.
  - apply existsb_eqb_in in E. now apply get_deleteAll_in.
  - assert (Hout : ~ In k ks)
      by (intros Hin; apply existsb_eqb_in in Hin; congruence).
    clear E Hnd. unfold JsMap.deleteAll. revert m.
    induction ks as [|k' ks IH]; intros m; simpl; [reflexivity|].
    rewrite IH by (simpl in Hout; tauto).
    apply get_delete_other. intros ->. simpl in Hout. tauto.
Qed.

Lemma get_includePhase (patterns : list string) (m : JsMap.t string)
      (k : string) :
  JsMap.get k (includePhase env configDir patterns m)
  = if matchedBy env configDir patterns k
    then Some (Path.join [configDir; k])
    else JsMap.get k m.
Proof.
  unfold includePhase, matchedBy. revert m.
  induction patterns as [|p ps IH]; intros m; simpl; [reflexivity|].
  rewrite IH. unfold includeStep. rewrite get_setAll_self.
  destruct (existsb (String.eqb k) (globScan env p configDir)); simpl;
    [now destruct (existsb _ ps) | reflexivity].
Qed.

Lemma nodup_keys_excluded (patterns : list string) (m : JsMap.t string) :
  NoDup (JsMap.keys m) ->
  NoDup (JsMap.keys (excludePhase env configDir patterns m)).
Proof.
  unfold excludePhase. revert m.
  induction patterns as [|p ps IH]; intros m Hnd; simpl; [assumption|].
  apply IH. now apply nodup_keys_deleteAll.
Qed.

Lemma nodup_keys_copied (dirs : list string) (m : JsMap.t string) :
  NoDup (JsMap.keys m) ->
  NoDup (JsMap.keys (copyFromPhase env templateRoot configDir dirs m)).
Proof.
  unfold copyFromPhase. revert m.
  induction dirs as [|d ds IH]; intros m Hnd; simpl; [assumption|].
  apply IH. now apply nodup_keys_setAll.
Qed.

Lemma get_excludePhase (patterns : list string) (m : JsMap.t string)
      (k : string) :
  NoDup (JsMap.keys m) ->
  JsMap.get k (excludePhase env configDir patterns m)
  = if matchedBy env configDir patterns k then None else JsMap.get k m.
Proof.
  unfold excludePhase, matchedBy. revert m.
  induction patterns as [|p ps IH]; intros m Hnd; simpl; [reflexivity|].
  rewrite IH by now apply nodup_keys_deleteAll.
  unfold excludeStep. rewrite get_deleteAll by assumption.
  destruct (existsb (String.eqb k) (globScan env p configDir)); simpl;
    [now destruct (existsb _ ps) | reflexivity].
Qed.

End FileSetKeys.

(** The resolved file map is a map: its keys are pairwise distinct. *)
Lemma collectFileList_keys_nodup (env : Env)
        (templateRoot configDir : string) (rules : option FileRules) :
  NoDup (JsMap.keys (collectFileList env templateRoot configDir rules)).
Proof.
  unfold collectFileList.
  apply nodup_keys_copied, nodup_keys_excluded, nodup_keys_included.
  constructor.
Qed.

(** X12.  The resolved file map, key by key.  Under a key the copy-from
    directories contribute, the entry is theirs.  Under any other key there
    is an entry exactly when an include pattern yields the key and no
    exclude pattern does, and its source is the key taken in the selected
    directory. *)
Theorem collectFileList_entry (env : Env) (templateRoot configDir : string)
        (rules : option FileRules) (key : string) :
  JsMap.get key (collectFileList env templateRoot configDir rules)
  = match JsMap.get key (copyFromMap env templateRoot configDir rules) with
    | Some source => Some source
    | None =>
        if matchedBy env configDir (includeOf rules) key
           && negb (matchedBy env configDir (excludeOf rules) key)
        then Some (Path.join [configDir; key])
        else None
    end.
Proof.
  rewrite collectFileList_unfold, copyFromMap_unfold, get_copied_base.
  destruct (JsMap.get key (copyFromPhase _ _ _ _ JsMap.empty));
    [reflexivity|].
  rewrite get_excludePhase
    by (apply nodup_keys_included; constructor).
  rewrite get_includePhase.
  destruct (matchedBy env configDir (excludeOf rules) key);
    [now rewrite andb_false_r|].
  rewrite andb_true_r.
  now destruct (matchedBy env configDir (includeOf rules) key).
Qed.

Section Copier.
Variable env : Env.
Variable outputRoot : string.
Variable data : PromptValues.

(** What one entry makes the copier do, however the round ends. *)
Lemma copyEntry_actions (targetPath sourcePath : string)
      (actions : list FsAction) (outcome : Outcome unit) (a : FsAction) :
  copyEntry env outputRoot data (targetPath, sourcePath)
  = (actions, outcome) ->
  In a actions ->
  skipped targetPath = false
  /\ (a = Mkdir (Path.join [outputRoot; targetPath])
      \/ a = Mkdir (Path.join [Path.join [outputRoot; targetPath]; ".."])
      \/ exists buffer,
           lstat env sourcePath = Some RegularFile
           /\ readFile env sourcePath = Some buffer
           /\ a = writeContent env (Path.join [outputRoot; targetPath])
                               buffer data).
Proof.
  unfold copyEntry.
  destruct (skipped targetPath); [intros [= <- <-] []|].
  destruct (lstat env sourcePath) as [[| |]|] eqn:Hstat; cbv zeta.
  - intros [= <- <-] [<- | []]. auto.
  - destruct (readFile env sourcePath) as [buffer|] eqn:Hread.
    + intros [= <- <-] [<- | [<- | []]]; [auto|].
      split; [reflexivity|]. right. right. now exists buffer.
    + intros [= <- <-] [<- | []]. auto.
  - intros [= <- <-] [].
  - intros [= <- <-] [].
Qed.

Lemma copyEntries_actions (entries : list (string * string))
      (done log : list FsAction) (outcome : Outcome unit) (a : FsAction) :
  copyEntries env outputRoot data entries done = (log, outcome) ->
  In a log ->
  In a done
  \/ exists targetPath sourcePath actions ended,
       In (targetPath, sourcePath) entries
       /\ copyEntry env outputRoot data (targetPath, sourcePath)
          = (actions, ended)
       /\ In a actions.
Proof.
  revert done. induction entries as [|[t s] entries IH]; intros done;
    cbn [copyEntries].
  - intros [= <- <-]. auto.
  - destruct (copyEntry env outputRoot data (t, s)) as [acts ended] eqn:E.
    assert (Hhere : In a (done ++ acts) ->
                    In a done
                    \/ exists targetPath sourcePath actions ended',
                         In (targetPath, sourcePath) ((t, s) :: entries)
                         /\ copyEntry env outputRoot data
                              (targetPath, sourcePath)
                            = (actions, ended')
                         /\ In a actions).
    { intros Hin. apply in_app_or in Hin. destruct Hin as [Hin | Hin];
        [auto|].
      right. exists t, s, acts, ended. split; [now left | auto]. }
    destruct ended as [[]| | | |];
      try (intros [= <- <-]; exact Hhere).
    intros Hrest Hin. destruct (IH _ Hrest Hin) as [Hdone | H];
      [auto|].
    destruct H as (t' & s' & acts' & ended' & Hin' & E' & Ha).
    right. exists t', s', acts', ended'. split; [now right | auto].
Qed.

End Copier.

(** X13.  The copier touches nothing but what the resolved map tells it to.
    Every directory it creates and every file it writes belongs to an entry
    of the map whose output path is not passed over (so never [.git], a
    path under [.git/], or a path that ends with [creator.json]); a file is
    written at the output root joined with the entry's path, and only for a
    source that is a regular file, with the bytes, or the rendering, of that
    source. *)
Theorem copyTemplate_writes (env : Env) (templateRoot outputRoot : string)
        (data : PromptValues) (configDir : string)
        (rules : option FileRules) (a : FsAction) :
  In a (fst (copyTemplate env templateRoot outputRoot data configDir rules))
  ->
  exists targetPath sourcePath,
    JsMap.get targetPath
              (collectFileList env templateRoot configDir rules)
    = Some sourcePath
    /\ skipped targetPath = false
    /\ (a = Mkdir (Path.join [outputRoot; targetPath])
        \/ a = Mkdir (Path.join [Path.join [outputRoot; targetPath]; ".."])
        \/ exists buffer,
             lstat env sourcePath = Some RegularFile
             /\ readFile env sourcePath = Some buffer
             /\ a = writeContent env (Path.join [outputRoot; targetPath])
                                 buffer data).
Proof.
  unfold copyTemplate. intros Hin.
  destruct (copyEntries env outputRoot data
              (collectFileList env templateRoot configDir rules) [])
    as [log outcome] eqn:Hcopy.
  simpl in Hin.
  destruct (copyEntries_actions env outputRoot data _ _ _ _ a Hcopy Hin)
    as [[] | (t & s & acts & ended & Hentry & Hdone & Ha)].
  exists t, s. split.
  - apply in_get_nodup; [|assumption].
    unfold collectFileList.
    apply nodup_keys_copied, nodup_keys_excluded, nodup_keys_included.
    constructor.
  - exact (copyEntry_actions env outputRoot data t s acts ended a Hdone Ha).
Qed.

Lemma copyTemplate_writes_witness :
  exists targetPath sourcePath,
    JsMap.get targetPath
              (collectFileList (Disk.env Sample.gitInside) "/t" "/t" None)
    = Some sourcePath
    /\ skipped targetPath = false
    /\ (WriteText "/out/sub/.git/x" (js "ref")
        = Mkdir (Path.join ["/out"; targetPath])
        \/ WriteText "/out/sub/.git/x" (js "ref")
           = Mkdir (Path.join [Path.join ["/out"; targetPath]; ".."])
        \/ exists buffer,
             lstat (Disk.env Sample.gitInside) sourcePath = Some RegularFile
             /\ readFile (Disk.env Sample.gitInside) sourcePath = Some buffer
             /\ WriteText "/out/sub/.git/x" (js "ref")
                = writeContent (Disk.env Sample.gitInside)
                               (Path.join ["/out"; targetPath]) buffer []).
Proof.
  apply (copyTemplate_writes (Disk.env Sample.gitInside) "/t" "/out" []
           "/t" None (WriteText "/out/sub/.git/x" (js "ref"))).
  simpl. auto.
Defined.

(* ================================================================== *)
(** * Asking, rendering and merging, once more *)

Section Asking.








End Asking.


Section Plain.
Variable data : PromptValues.

Lemma matchPlaceholder_other (c : N) (s : jsstring) :
  (c =? lessThan)%N = false -> matchPlaceholder (c :: s) = None.
Proof.
  intros Hc. unfold matchPlaceholder.
  change (stripPrefix (js "<%=") (c :: s))
    with (if (lessThan =? c)%N then stripPrefix (js "%=") s else None).
  now rewrite N.eqb_sym, Hc.
Qed.

Lemma set_absent {V : Type} (m : JsMap.t V) (k : string) (v : V) :
  JsMap.get k m = None -> JsMap.set k v m = m ++ [(k, v)].
Proof.
  induction m as [|[k' v'] m IH]; simpl; [reflexivity|].
  destruct (String.eqb k' k); [discriminate|].
  intros H. now rewrite IH.
Qed.

Lemma promptMap_distinct (ps : list PromptConfig) :
  NoDup (map name ps) ->
  promptMapOf ps = map (fun p => (name p, p)) ps.
Proof.
  unfold promptMapOf.
  induction ps as [|p ps IH] using rev_ind; intros Hnd; [reflexivity|].
  rewrite map_app in Hnd. apply NoDup_app_remove_r in Hnd as Hps.
  rewrite setAll_snoc, (IH Hps), map_app. apply set_absent.
  apply get_none_notin. unfold JsMap.keys. rewrite map_map. simpl.
  intros Hin. apply NoDup_remove_2 in Hnd. apply Hnd.
  rewrite app_nil_r. exact Hin.
Qed.

End Plain.

(** X15.  A text without the character [<] holds no placeholder: it is
    rendered to itself, whatever the prompt values. *)
Theorem renderTemplate_plain (content : jsstring) (data : PromptValues) :
  forallb (fun c => negb (c =? lessThan)%N) content = true ->
  renderTemplate content data = content.
Proof.
  induction content as [|c content IH]; [reflexivity|].
  cbn [forallb]. rewrite andb_true_iff, negb_true_iff. intros [Hc Hrest].
  rewrite renderTemplate_unit by now apply matchPlaceholder_other.
  now rewrite IH.
Qed.

Lemma renderTemplate_plain_witness :
  renderTemplate (js "50% of a %> b") [("a", VString (js "x"))]
  = js "50% of a %> b".
Proof.
  apply (renderTemplate_plain (js "50% of a %> b")). reflexivity.
Defined.

(** X16.  Rendering is the replacement of the placeholders and nothing
    else: the output is the one text obtained by reading the content from
    the left, putting the value of its key (or nothing) for every
    placeholder [<%=], white space, key, white space, [%>] met, and keeping
    every other code unit, also what only looks like the start of a
    placeholder. *)
Theorem renderTemplate_characterised (data : PromptValues)
        (content out : jsstring) :
  Renders data content out <-> out = renderTemplate content data.
Proof.
  split.
  - apply renders_renderTemplate.
  - intros ->. apply renderTemplate_renders.
Qed.

(** X17.  Prompts whose names are all different are merged to the cascade
    as it stands: every prompt of every configuration, in cascade order. *)
Theorem mergeConfigs_distinct (cfgs : list CreatorConfig)
        (selected : option CreatorConfig) :
  NoDup (map name (allPrompts cfgs)) ->
  mergedPrompts (mergeConfigs cfgs selected) = allPrompts cfgs.
Proof.
  intros Hnd. simpl. rewrite fold_addPrompts.
  fold (promptMapOf (allPrompts cfgs)).
  rewrite (promptMap_distinct (allPrompts cfgs) Hnd).
  unfold JsMap.values. rewrite map_map. simpl. apply map_id.
Qed.

Lemma mergeConfigs_distinct_witness :
  mergedPrompts
    (mergeConfigs
       [Sample.rootConfig;
        mkConfig None None
                 (Some [mkPrompt "port" TextPrompt "Port" None None;
                        mkPrompt "tls" ConfirmPrompt "TLS" None None])
                 None]
       None)
  = allPrompts
      [Sample.rootConfig;
       mkConfig None None
                (Some [mkPrompt "port" TextPrompt "Port" None None;
                       mkPrompt "tls" ConfirmPrompt "TLS" None None])
                None].
Proof.
  apply mergeConfigs_distinct. simpl.
  repeat constructor; simpl; intuition discriminate.
Defined.

(* ================================================================== *)
(** * From the picks to the selected path *)

Section SelectedPath.

Lemma drop_past (a b : string) (n : nat) :
  Str.drop (String.length a + n) (a ++ b) = Str.drop n b.
Proof. induction a as [|c a IH]; simpl; [reflexivity | exact IH]. Qed.

Lemma last_not_slash (k : string) :
  Path.slashFree k = true -> k <> EmptyString ->
  String.eqb (Str.drop (String.length k - 1) k) "/" = false.
Proof.
  induction k as [|c k IH]; [congruence|].
  cbn [Path.slashFree]. rewrite andb_true_iff, negb_true_iff.
  intros [Hc Hk] _. destruct k as [|d k].
  - simpl. now rewrite Hc.
  - replace (String.length (String c (String d k)) - 1)
      with (S (String.length (String d k) - 1)) by (simpl; lia).
    cbn [Str.drop]. apply IH; [assumption | discriminate].
Qed.

Lemma endsWith_slash_proper (a k : string) :
  Path.properSegment k -> Str.endsWith (a ++ k) "/" = false.
Proof.
  intros (Hfree & Hne & _). unfold Str.endsWith.
  rewrite string_length_append. simpl String.length.
  assert (1 <= String.length k) by (destruct k; [congruence | simpl; lia]).
  replace (String.length a + String.length k - 1)
    with (String.length a + (String.length k - 1)) by lia.
  rewrite drop_past, last_not_slash by assumption.
  apply andb_false_r.
Qed.

Lemma concat_not_empty (segs : list string) (k : string) :
  k <> EmptyString ->
  String.eqb (String.concat "/" (segs ++ [k])) EmptyString = false.
Proof.
  intros Hne. apply String.eqb_neq. intros Heq.
  apply (f_equal String.length) in Heq.
  destruct segs as [|s segs].
  - simpl in Heq. destruct k; [congruence | discriminate].
  - destruct (segs ++ [k]) as [|x l] eqn:E; [now destruct segs|].
    change (String.concat "/" ((s :: segs) ++ [k]))
      with (String.concat "/" (s :: (segs ++ [k]))) in Heq.
    rewrite E in Heq.
    change (String.concat "/" (s :: x :: l))
      with (s ++ String "/" (String.concat "/" (x :: l)))%string in Heq.
    rewrite string_length_append in Heq. simpl in Heq. lia.
Qed.

(** [join(dir, name)] for a normalized absolute [dir] and a plain name. *)
Lemma join_child (segs : list string) (k : string) :
  Forall Path.properSegment segs -> Path.properSegment k ->
  Path.join [Path.fromSegments segs; k] = Path.fromSegments (segs ++ [k]).
Proof.
  intros Hsegs Hk. unfold Path.join.
  assert (Hkne : String.eqb k EmptyString = false)
    by (apply String.eqb_neq; apply Hk).
  cbn [filter]. rewrite fromSegments_not_empty, Hkne. cbn [negb].
  change (String.concat "/" [Path.fromSegments segs; k])
    with (Path.fromSegments segs ++ String "/" k)%string.
  unfold Path.normalize.
  replace (String.eqb (Path.fromSegments segs ++ String "/" k) EmptyString)
    with false by reflexivity.
  replace (Path.isAbsolute (Path.fromSegments segs ++ String "/" k))
    with true by (unfold Path.fromSegments; simpl;
                  now destruct (String.concat "/" segs ++ String "/" k)%string).
  cbv zeta.
  assert (Hends : Str.endsWith (Path.fromSegments segs ++ String "/" k) "/"
                  = false).
  { replace ((Path.fromSegments segs ++ String "/" k)%string)
      with (((Path.fromSegments segs ++ "/") ++ k)%string).
    - now apply endsWith_slash_proper.
    - generalize (Path.fromSegments segs). intros a.
      induction a as [|c a IH]; simpl; [reflexivity | now rewrite IH]. }
  rewrite Hends.
  unfold Path.normalizeString, Path.normalizeSegments. cbn [negb].
  rewrite normalizeFrom_app, normalizeFrom_fromSegments by assumption.
  rewrite normalizeFrom_proper by assumption.
  cbn [rev]. rewrite rev_involutive.
  rewrite concat_not_empty by apply Hk. reflexivity.
Qed.

End SelectedPath.

(** X18.  The selected directory is the root followed by the names picked.
    On the tree built from a normalized root, when the selector returns a
    node and the names picked are plain names (not empty, without a slash,
    as directory names are), the path of that node is the root path
    extended by the names picked, in order, and the node tells rightly
    whether that directory owns a [creator.json]. *)
Theorem selected_path (env : Env) (depth : nat) (rootSegs : list string)
        (tree selected : DirectoryNode) (script rest : Script) :
  Forall Path.properSegment rootSegs ->
  (forall k, In (Pick k) script ->
             Path.slashFree k = true /\ k <> EmptyString) ->
  buildDirTree env depth (Path.fromSegments rootSegs) = Done tree ->
  selectTemplateDir tree [] script = (Done selected, rest) ->
  exists picks,
    script = map Pick picks ++ rest
    /\ nodePath selected = Path.fromSegments (rootSegs ++ picks)
    /\ hasConfig selected = ownsConfig env (nodePath selected).
Proof.
  intros Hroot Hnames Hbuild Hselect.
  apply buildNode_shows in Hbuild. destruct Hbuild as (Hshows & _ & Hpath).
  apply selectTemplateDir_walk in Hselect.
  destruct Hselect as (picks & -> & Hwalk). exists picks.
  split; [reflexivity|].
  assert (Hplain : forall k, In k picks ->
                             Path.slashFree k = true /\ k <> EmptyString).
  { intros k Hk. apply Hnames. apply in_or_app. left. now apply in_map. }
  clear depth rest Hnames.
  revert tree rootSegs Hroot Hshows Hpath Hwalk.
  induction picks as [|k picks IH]; intros tree rootSegs Hroot Hshows Hpath.
  - simpl. intros [= <-]. rewrite app_nil_r. split; [assumption|].
    now destruct Hshows.
  - simpl. destruct (JsMap.get k (children tree)) as [child|] eqn:Hget;
      [|discriminate].
    intros Hwalk. apply get_some_in in Hget.
    destruct Hshows as [nm path kids entries Hdir Hkids _].
    simpl in Hget, Hpath. subst path.
    destruct (Hkids k child Hget) as (_ & Hdot & _ & Hchild & Hshows').
    assert (Hk : Path.properSegment k).
    { destruct (Hplain k (or_introl eq_refl)) as [Hfree Hne].
      repeat split; try assumption; intros ->; discriminate. }
    rewrite join_child in Hchild by assumption.
    replace (rootSegs ++ k :: picks) with ((rootSegs ++ [k]) ++ picks)
      by now rewrite <- app_assoc.
    apply (IH (fun x Hx => Hplain x (or_intror Hx)) child); try assumption.
    apply Forall_app. split; [assumption | now constructor].
Qed.

Lemma selected_path_witness :
  exists picks,
    [Pick "t"] = map Pick picks ++ []
    /\ nodePath Sample.selectedLeaf = Path.fromSegments (["r"] ++ picks)
    /\ hasConfig Sample.selectedLeaf
       = ownsConfig (Disk.env Sample.borrowsRoot)
                    (nodePath Sample.selectedLeaf).
Proof.
  apply (selected_path (Disk.env Sample.borrowsRoot) 3 ["r"]
           (mkNode "." "/r" [("t", Sample.selectedLeaf)] true)
           Sample.selectedLeaf [Pick "t"] []).
  - repeat constructor; discriminate.
  - intros k [[= <-] | []]. split; [reflexivity | discriminate].
  - reflexivity.
  - reflexivity.
Defined.

(* ================================================================== *)
(** * Every output file once *)

Section WritesOnce.

Lemma concat_splitSlash (s : string) :
  String.concat "/" (Str.splitSlash s) = s.
Proof.
  induction s as [|c s IH]; [reflexivity|].
  cbn [Str.splitSlash].
  pose proof (splitSlash_nonempty s) as Hne.
  destruct (Ascii.eqb c "/") eqn:E.
  - apply Ascii.eqb_eq in E. subst c.
    destruct (Str.splitSlash s) as [|h t]; [congruence|].
    change (String.concat "/" (EmptyString :: h :: t))
      with (String "/" (String.concat "/" (h :: t))).
    now rewrite IH.
  - destruct (Str.splitSlash s) as [|h [|h' t]]; [congruence| |].
    + simpl in *. now rewrite IH.
    + change (String.concat "/" (String c h :: h' :: t))
        with (String c (h ++ String "/" (String.concat "/" (h' :: t)))).
      change (String.concat "/" (h :: h' :: t))
        with (h ++ String "/" (String.concat "/" (h' :: t)))%string in IH.
      now rewrite IH.
Qed.

Lemma concat_last (l : list string) (x : string) :
  exists a, String.concat "/" (l ++ [x]) = (a ++ x)%string.
Proof.
  induction l as [|y l [a IH]]; [now exists EmptyString|].
  exists (y ++ String "/" a)%string.
  destruct (l ++ [x]) as [|z l'] eqn:E; [now destruct l|].
  change (String.concat "/" ((y :: l) ++ [x]))
    with (String.concat "/" (y :: (l ++ [x]))).
  rewrite E.
  change (String.concat "/" (y :: z :: l'))
    with (y ++ String "/" (String.concat "/" (z :: l')))%string.
  rewrite IH, string_append_assoc. reflexivity.
Qed.

Lemma properSegmentb_proper (s : string) :
  Path.slashFree s = true -> properSegmentb s = true ->
  Path.properSegment s.
Proof.
  unfold properSegmentb. rewrite !andb_true_iff, !negb_true_iff.
  intros Hfree [[H1 H2] H3]. apply String.eqb_neq in H1, H2, H3.
  now repeat split.
Qed.

Lemma relativeNormal_segments (key : string) :
  relativeNormal key = true ->
  Forall Path.properSegment (Str.splitSlash key).
Proof.
  unfold relativeNormal. intros Hall.
  pose proof (splitSlash_pieces key) as Hfree.
  rewrite forallb_forall in Hall. rewrite Forall_forall in *.
  intros s Hs. apply properSegmentb_proper; auto.
Qed.

Lemma normalizeFrom_pieces (allow : bool) (key : string)
      (stack : list string) :
  Forall Path.properSegment (Str.splitSlash key) ->
  Path.normalizeFrom allow stack key = rev (Str.splitSlash key) ++ stack.
Proof.
  unfold Path.normalizeFrom. generalize (Str.splitSlash key) as l.
  intros l Hl. revert stack.
  induction Hl as [|x l Hx _ IH]; intros stack; [reflexivity|].
  cbn [fold_left rev]. rewrite pushSegment_proper by assumption.
  now rewrite IH, <- app_assoc.
Qed.

(** [join(dir, key)] for a normalized absolute [dir] and a normalized
    relative [key]: the segments of the one followed by those of the
    other. *)
Lemma join_under (segs : list string) (key : string) :
  Forall Path.properSegment segs -> relativeNormal key = true ->
  Path.join [Path.fromSegments segs; key]
  = Path.fromSegments (segs ++ Str.splitSlash key).
Proof.
  intros Hsegs Hkey.
  pose proof (relativeNormal_segments key Hkey) as Hpieces.
  destruct (exists_last (splitSlash_nonempty key)) as (l & x & Hsplit).
  assert (Hx : Path.properSegment x).
  { rewrite Hsplit in Hpieces. apply Forall_app in Hpieces.
    destruct Hpieces as [_ Hlast]. now inversion Hlast. }
  destruct (concat_last l x) as [a Ha].
  assert (Hk : key = (a ++ x)%string)
    by (now rewrite <- Ha, <- Hsplit, concat_splitSlash).
  assert (Hkne : String.eqb key EmptyString = false).
  { apply String.eqb_neq. intros ->. discriminate Hkey. }
  unfold Path.join. cbn [filter].
  rewrite fromSegments_not_empty, Hkne. cbn [negb].
  change (String.concat "/" [Path.fromSegments segs; key])
    with (Path.fromSegments segs ++ String "/" key)%string.
  unfold Path.normalize.
  replace (String.eqb (Path.fromSegments segs ++ String "/" key)
                      EmptyString)
    with false by reflexivity.
  replace (Path.isAbsolute (Path.fromSegments segs ++ String "/" key))
    with true
    by (unfold Path.fromSegments; simpl;
        now destruct (String.concat "/" segs ++ String "/" key)%string).
  cbv zeta.
  assert (Hends : Str.endsWith (Path.fromSegments segs ++ String "/" key)
                               "/" = false).
  { rewrite Hk.
    replace (Path.fromSegments segs ++ String "/" (a ++ x))%string
      with ((Path.fromSegments segs ++ String "/" a) ++ x)%string
      by apply string_append_assoc.
    now apply endsWith_slash_proper. }
  rewrite Hends.
  unfold Path.normalizeString, Path.normalizeSegments. cbn [negb].
  rewrite normalizeFrom_app, normalizeFrom_fromSegments by assumption.
  rewrite normalizeFrom_pieces by assumption.
  rewrite rev_app_distr, !rev_involutive.
  assert (Hne : String.eqb (String.concat "/" (segs ++ Str.splitSlash key))
                           EmptyString = false).
  { rewrite Hsplit, app_assoc. apply concat_not_empty. apply Hx. }
  now rewrite Hne.
Qed.

(** Two normalized relative paths that land on one output path are one. *)
Lemma join_under_inj (segs : list string) (key key' : string) :
  Forall Path.properSegment segs ->
  relativeNormal key = true -> relativeNormal key' = true ->
  Path.join [Path.fromSegments segs; key]
  = Path.join [Path.fromSegments segs; key'] ->
  key = key'.
Proof.
  intros Hsegs Hkey Hkey'. rewrite !join_under by assumption.
  intros Heq. apply fromSegments_inj in Heq;
    try (apply Forall_app; split;
         [assumption | now apply relativeNormal_segments]).
  apply app_inv_head in Heq.
  now rewrite <- (concat_splitSlash key), Heq, concat_splitSlash.
Qed.

Lemma nodup_map_in {A B : Type} (f : A -> B) (l : list A) :
  (forall x y, In x l -> In y l -> f x = f y -> x = y) ->
  NoDup l -> NoDup (map f l).
Proof.
  intros Hinj Hnd. induction Hnd as [|x l Hx Hnd IH]; [constructor|].
  cbn [map]. constructor.
  - intros Hin. apply in_map_iff in Hin. destruct Hin as (y & Hy & Hin).
    apply Hx. rewrite (Hinj x y); [assumption | now left | now right | auto].
  - apply IH. intros a b Ha Hb. apply Hinj; now right.
Qed.

Variable env : Env.
Variable outputRoot : string.
Variable data : PromptValues.

(** The files one round writes: none, or the file of its entry. *)
Lemma copyEntry_written (targetPath sourcePath : string)
      (actions : list FsAction) (ended : Outcome unit) :
  copyEntry env outputRoot data (targetPath, sourcePath)
  = (actions, ended) ->
  map actionPath (filter isWrite actions) = []
  \/ map actionPath (filter isWrite actions)
     = [Path.join [outputRoot; targetPath]].
Proof.
  unfold copyEntry.
  destruct (skipped targetPath); [intros [= <- <-]; now left|].
  destruct (lstat env sourcePath) as [[| |]|]; cbv zeta;
    try (intros [= <- <-]; now left).
  destruct (readFile env sourcePath) as [buffer|];
    [|intros [= <- <-]; now left].
  intros [= <- <-]. right. unfold writeContent.
  now destruct (isBinaryBuffer buffer).
Qed.

Lemma copyEntries_written (entries : list (string * string))
      (done log : list FsAction) (outcome : Outcome unit) :
  NoDup (map fst entries) ->
  copyEntries env outputRoot data entries done = (log, outcome) ->
  exists keys,
    map actionPath (filter isWrite log)
    = map actionPath (filter isWrite done)
      ++ map (fun key => Path.join [outputRoot; key]) keys
    /\ NoDup keys /\ incl keys (map fst entries).
Proof.
  revert done. induction entries as [|[t s] entries IH]; intros done Hnd;
    cbn [copyEntries].
  - intros [= <- <-]. exists []. rewrite app_nil_r.
    split; [reflexivity | split; [constructor | apply incl_refl]].
  - inversion Hnd as [|? ? Hnotin Hnd']; subst.
    destruct (copyEntry env outputRoot data (t, s)) as [acts ended] eqn:E.
    assert (Hhere : exists keys,
               map actionPath (filter isWrite (done ++ acts))
               = map actionPath (filter isWrite done)
                 ++ map (fun key => Path.join [outputRoot; key]) keys
               /\ NoDup keys /\ incl keys [t]).
    { rewrite filter_app, map_app.
      destruct (copyEntry_written t s acts ended E) as [-> | ->].
      - exists []. split; [reflexivity|].
        split; [constructor | intros ? []].
      - exists [t]. split; [reflexivity|].
        split; [repeat constructor; intros [] | apply incl_refl]. }
    assert (Hstop : forall log' outcome',
               (done ++ acts, ended) = (log', outcome') ->
               exists keys,
                 map actionPath (filter isWrite log')
                 = map actionPath (filter isWrite done)
                   ++ map (fun key => Path.join [outputRoot; key]) keys
                 /\ NoDup keys
                 /\ incl keys (map fst ((t, s) :: entries))).
    { intros ? ? [= <- <-]. destruct Hhere as (keys & Hw & Hk & Hin).
      exists keys. split; [exact Hw|]. split; [exact Hk|].
      intros k Hk'. apply Hin in Hk'. destruct Hk' as [<- | []]. now left. }
    destruct ended as [[]| | | |]; try (apply Hstop).
    intros Hrest. destruct (IH _ Hnd' Hrest) as (keys' & Hw' & Hk' & Hin').
    destruct Hhere as (keys & Hw & Hk & Hin).
    exists (keys ++ keys'). rewrite Hw', Hw, map_app, <- app_assoc.
    split; [reflexivity|]. split.
    + apply NoDup_app; [assumption | assumption |].
      intros k Hk1 Hk2. apply Hin in Hk1. destruct Hk1 as [<- | []].
      apply Hnotin. now apply Hin'.
    + intros k Hk0. apply in_app_or in Hk0. destruct Hk0 as [Hk0 | Hk0].
      * apply Hin in Hk0. destruct Hk0 as [<- | []]. now left.
      * right. now apply Hin'.
Qed.

End WritesOnce.

(** X11.  No file of the output is written twice.  When the output root is
    a normalized absolute path (as [main] passes it) and every target path
    of the resolved file list is a normalized relative path (segments
    separated by single slashes, none empty, [.] or [..], as a glob scan
    yields them), the files the copier writes are pairwise distinct. *)
Theorem copyTemplate_writes_once (env : Env) (templateRoot : string)
        (outSegs : list string) (data : PromptValues) (configDir : string)
        (rules : option FileRules) :
  Forall Path.properSegment outSegs ->
  forallb relativeNormal
          (JsMap.keys (collectFileList env templateRoot configDir rules))
  = true ->
  NoDup (map actionPath
             (filter isWrite
                     (fst (copyTemplate env templateRoot
                                        (Path.fromSegments outSegs) data
                                        configDir rules)))).
Proof.
  intros Hout Hkeys. unfold copyTemplate.
  destruct (copyEntries env (Path.fromSegments outSegs) data
              (collectFileList env templateRoot configDir rules) [])
    as [log outcome] eqn:Hcopy.
  destruct (copyEntries_written env _ data _ _ _ _
              (collectFileList_keys_nodup env templateRoot configDir rules)
              Hcopy) as (keys & Hw & Hnd & Hin).
  cbn [fst]. rewrite Hw. cbn [filter map app].
  rewrite forallb_forall in Hkeys.
  apply nodup_map_in; [|assumption].
  intros k k' Hk Hk'. apply join_under_inj; auto.
Qed.

Lemma copyTemplate_writes_once_witness :
  NoDup (map actionPath
             (filter isWrite
                     (fst (copyTemplate (Disk.env Sample.twoFiles) "/t"
                                        (Path.fromSegments ["out"]) []
                                        "/t" None)))).
Proof.
  apply (copyTemplate_writes_once (Disk.env Sample.twoFiles) "/t" ["out"]).
  - repeat constructor; discriminate.
  - reflexivity.
Defined.
